(** * Pylastic: the query / schema / result pipeline of [main.py]

    A shallow embedding of the pure part of [main.py]:
    [request_builder], the field loop of [index_field_names], the hit
    loop of [simple_query_search] and the two column sorts of
    [ResultsGrid].

    Conventions of the embedding.
    - The loops over a loaded response, the table and the widgets take a
      Python [str] as a [string]: a sequence of code points below 256.
      [json.dumps], [json.loads] and [request_builder] are also modelled over
      every [str], as [ustr]: a sequence of code points below [0x110000],
      surrogates included.
    - A value produced by [json.loads] is a [json] ([ujson] over [ustr]);
      numbers are integers (binary floating point is left out of the value
      type).
    - A Python [dict] is an association list in insertion order; the
      dictionaries built by [json.loads] have pairwise distinct keys.
    - A raised exception is the [Raise] branch of [result]. *)

From Stdlib Require Import List String Ascii ZArith NArith Bool Arith Lia.
From Stdlib Require Import Permutation Sorted.
From Stdlib Require Decimal DecimalString DecimalFacts DecimalPos DecimalZ.
Import ListNotations.
Open Scope string_scope.

(** ** Python values and exceptions *)

(** The built-in exception classes the modelled functions can raise. *)
Inductive exn : Type :=
| AttributeError
| TypeError
| KeyError.

(** [type(e).__name__] *)
Definition exn_name (e : exn) : string :=
  match e with
  | AttributeError => "AttributeError"
  | TypeError => "TypeError"
  | KeyError => "KeyError"
  end.

Inductive result (A : Type) : Type :=
| Ok (a : A)
| Raise (e : exn).
Arguments Ok {A} a.
Arguments Raise {A} e.

Definition bind {A B : Type} (m : result A) (k : A -> result B) : result B :=
  match m with
  | Ok a => k a
  | Raise e => Raise e
  end.

Notation "x <- m ;; k" := (bind m (fun x => k))
  (at level 61, m at next level, right associativity).

#[local] Set Warnings "-register-all".

Inductive json : Type :=
| JNull
| JBool (b : bool)
| JInt (z : Z)
| JStr (s : string)
| JList (l : list json)
| JDict (d : list (string * json)).

(** [isinstance(v, dict)] *)
Definition is_dict (v : json) : bool :=
  match v with
  | JDict _ => true
  | _ => false
  end.

(** ** Dictionaries *)

Section Dict.
Context {V : Type}.

Definition dict : Type := list (string * V).

(** [d.get(k)] *)
Fixpoint dict_get (d : dict) (k : string) : option V :=
  match d with
  | [] => None
  | (k', v) :: d' => if String.eqb k' k then Some v else dict_get d' k
  end.

(** [d[k] = v]: an existing key keeps its position, a new one goes last. *)
Fixpoint dict_set (d : dict) (k : string) (v : V) : dict :=
  match d with
  | [] => [(k, v)]
  | (k', v') :: d' =>
      if String.eqb k' k then (k', v) :: d' else (k', v') :: dict_set d' k v
  end.

(** [list(d.keys())] *)
Definition dict_keys (d : dict) : list string := map fst d.

(** [k in d.keys()] *)
Definition dict_mem (d : dict) (k : string) : bool :=
  match dict_get d k with
  | Some _ => true
  | None => false
  end.

(** [dict(pairs)] and repeated item assignment. *)
Definition dict_update (d : dict) (items : list (string * V)) : dict :=
  fold_left (fun h kv => dict_set h (fst kv) (snd kv)) items d.
End Dict.
Arguments dict V : clear implicits.

(** ** HitFlattener: the per-hit loop of [simple_query_search] *)

(** [for (ssf, ssf_v) in sf_v.items(): hitdict[f + '.' + sf + '.' + ssf] = ssf_v] *)
Definition flatten_ssf (f sf : string) (hitdict : dict json) (sf_v : dict json)
  : dict json :=
  fold_left
    (fun h kv => dict_set h (f ++ "." ++ sf ++ "." ++ fst kv) (snd kv))
    sf_v hitdict.

(** [for (sf, sf_v) in v.items(): ...] *)
Definition flatten_sf (f : string) (hitdict : dict json) (v : dict json)
  : dict json :=
  fold_left
    (fun h kv =>
       match snd kv with
       | JDict sf_v => flatten_ssf f (fst kv) h sf_v
       | sf_v => dict_set h (f ++ "." ++ fst kv) sf_v
       end)
    v hitdict.

(** [for (f, v) in source.items(): ...], starting from [hitdict = dict()]. *)
Definition flatten_hit (source : dict json) : dict json :=
  fold_left
    (fun h kv =>
       match snd kv with
       | JDict v => flatten_sf (fst kv) h v
       | v => dict_set h (fst kv) v
       end)
    source [].

(** The item assignments the loop performs, in order (the walk of the
    specification: a leaf at its dotted path, two levels unrolled, whatever
    sits at the third level taken as it is). *)
Definition items_ssf (f sf : string) (sf_v : dict json) : list (string * json) :=
  map (fun kv => (f ++ "." ++ sf ++ "." ++ fst kv, snd kv)) sf_v.

Definition items_sf (f : string) (v : dict json) : list (string * json) :=
  flat_map
    (fun kv =>
       match snd kv with
       | JDict sf_v => items_ssf f (fst kv) sf_v
       | sf_v => [(f ++ "." ++ fst kv, sf_v)]
       end) v.

Definition items_hit (source : dict json) : list (string * json) :=
  flat_map
    (fun kv =>
       match snd kv with
       | JDict v => items_sf (fst kv) v
       | v => [(fst kv, v)]
       end) source.

(** ** Attribute access on loaded JSON values

    Every value [json.loads] returns is a [dict], [list], [str], [int],
    [bool] or [None]; of these only [dict] has [get], [keys] and [items],
    and only [dict] and [list] have [pop]. *)

(** [v.get(k)]: [None] for an absent key. *)
Definition get (v : json) (k : string) : result json :=
  match v with
  | JDict d =>
      match dict_get d k with
      | Some x => Ok x
      | None => Ok JNull
      end
  | _ => Raise AttributeError
  end.

(** [v.keys()] *)
Definition keys (v : json) : result (list string) :=
  match v with
  | JDict d => Ok (dict_keys d)
  | _ => Raise AttributeError
  end.

(** [v.items()] *)
Definition items (v : json) : result (dict json) :=
  match v with
  | JDict d => Ok d
  | _ => Raise AttributeError
  end.

(** [v.pop(k)] with a string [k]: [KeyError] for an absent key; [list.pop]
    rejects a string index. *)
Definition pop (v : json) (k : string) : result json :=
  match v with
  | JDict d =>
      match dict_get d k with
      | Some x => Ok x
      | None => Raise KeyError
      end
  | JList _ => Raise TypeError
  | _ => Raise AttributeError
  end.

(** [for x in v]: a dict yields its keys, a str its characters. *)
Definition iter (v : json) : result (list json) :=
  match v with
  | JDict d => Ok (map JStr (dict_keys d))
  | JList l => Ok l
  | JStr s => Ok (map (fun c => JStr (String c "")) (list_ascii_of_string s))
  | _ => Raise TypeError
  end.

(** A [for] loop whose body may raise, threading the loop's state. *)
Fixpoint for_each {A S : Type} (xs : list A) (body : S -> A -> result S) (s : S)
  : result S :=
  match xs with
  | [] => Ok s
  | x :: xs' => s' <- body s x ;; for_each xs' body s'
  end.

(** ** SchemaFlattener: [index_field_names] after the response is loaded *)

(** The body of [for f in mappings], [mappings] being a dict. *)
Definition field_step (mappings : json) (fieldlist : list string) (f : string)
  : result (list string) :=
  fv <- get mappings f ;;
  ks <- keys fv ;;
  if existsb (String.eqb "properties") ks then
    sub <- get fv "properties" ;;
    sks <- keys sub ;;
    Ok (fieldlist ++ map (fun sf => (f ++ "." ++ sf)%string) sks)%list
  else
    Ok (fieldlist ++ [f])%list.

(** [for f in mappings: ...].  A list or str is iterable but has no [get]:
    the first pass of the body raises, an empty one runs no pass. *)
Definition field_loop (mappings : json) (fieldlist : list string)
  : result (list string) :=
  match mappings with
  | JDict m => for_each (dict_keys m) (field_step mappings) fieldlist
  | JList [] => Ok fieldlist
  | JList (_ :: _) => Raise AttributeError
  | JStr EmptyString => Ok fieldlist
  | JStr (String _ _) => Raise AttributeError
  | _ => Raise TypeError
  end.

(** The body of [for key in list(requestjson.keys())]. *)
Definition index_step (requestjson : json) (fieldlist : list string) (key : string)
  : result (list string) :=
  entry <- get requestjson key ;;
  m <- get entry "mappings" ;;
  mappings <- get m "properties" ;;
  field_loop mappings fieldlist.

Definition index_field_names (requestjson : json) : result (list string) :=
  ks <- keys requestjson ;;
  for_each ks (index_step requestjson) [].

(** The field paths one index declares, as the specification words it: a
    field without nested "properties" is a leaf, one with them contributes
    [parent.child] for each child. *)
Definition field_paths (f : string) (fv : dict json) : list string :=
  match dict_get fv "properties" with
  | Some (JDict sub) => map (fun sf => f ++ "." ++ sf) (dict_keys sub)
  | _ => [f]
  end.

Definition index_paths (properties : dict json) : list string :=
  flat_map
    (fun kv =>
       match snd kv with
       | JDict fv => field_paths (fst kv) fv
       | _ => []
       end) properties.

(** The nested keys the loop reads are there: the entry of an index has a
    "mappings" dict with a "properties" dict. *)
Definition entry_properties (entry : json) : option (dict json) :=
  match entry with
  | JDict e =>
      match dict_get e "mappings" with
      | Some (JDict m) =>
          match dict_get m "properties" with
          | Some (JDict p) => Some p
          | _ => None
          end
      | _ => None
      end
  | _ => None
  end.

(** A field descriptor is a dict whose "properties", when present, is a
    dict. *)
Definition field_ok (fv : json) : bool :=
  match fv with
  | JDict d =>
      match dict_get d "properties" with
      | None | Some (JDict _) => true
      | Some _ => false
      end
  | _ => false
  end.

(** The entry of an index lacks "mappings", or its "mappings" dict lacks
    "properties". *)
Definition missing_nested_keys (entry : dict json) : bool :=
  match dict_get entry "mappings" with
  | None => true
  | Some (JDict m) =>
      match dict_get m "properties" with
      | None => true
      | Some _ => false
      end
  | Some _ => false
  end.

(** The paths of every index, index after index. *)
Definition schema_paths (schema : dict json) : list string :=
  flat_map
    (fun kv =>
       match entry_properties (snd kv) with
       | Some properties => index_paths properties
       | None => []
       end) schema.

(** A schema response of the expected shape: distinct index names, and for
    each index distinct field names with well-formed descriptors. *)
Definition schema_ok (schema : dict json) : Prop :=
  NoDup (dict_keys schema) /\
  forall key entry, In (key, entry) schema ->
    exists properties,
      entry_properties entry = Some properties /\
      NoDup (dict_keys properties) /\
      forall f fv, In (f, fv) properties -> field_ok fv = true.

(** The only exceptions a computation can raise satisfy [P]. *)
Definition raises_only {A : Type} (P : exn -> Prop) (m : result A) : Prop :=
  forall e, m = Raise e -> P e.

Definition builtin_error (e : exn) : Prop :=
  e = AttributeError \/ e = TypeError.

(** ** Stable sorting *)

Section MergeSort.
Context {A : Type}.

(** The comparison may raise (Python's [<] on unlike types). *)
Variable lt : A -> A -> result bool.

(** The right run gives its head only when it is strictly smaller. *)
Fixpoint merge (l1 : list A) : list A -> result (list A) :=
  fix merge_r (l2 : list A) : result (list A) :=
    match l1, l2 with
    | [], _ => Ok l2
    | _, [] => Ok l1
    | x :: l1', y :: l2' =>
        b <- lt y x ;;
        if b : bool
        then (r <- merge_r l2' ;; Ok (y :: r))
        else (r <- merge l1' l2 ;; Ok (x :: r))
    end.

Fixpoint msort (fuel : nat) (l : list A) : result (list A) :=
  match fuel with
  | O => Ok l
  | S n =>
      match l with
      | [] | [_] => Ok l
      | _ =>
          let h := Nat.div2 (List.length l) in
          a <- msort n (firstn h l) ;;
          b <- msort n (skipn h l) ;;
          merge a b
      end
  end.

(** [argsort(kind="mergesort")], carrying the elements instead of their
    positions.  numpy promises a stable sort under this name; when [<] is a
    strict weak order the result of a stable sort does not depend on how it
    is computed. *)
Definition mergesort (l : list A) : result (list A) :=
  msort (List.length l) l.
End MergeSort.

(** The same sort for a comparison that cannot raise. *)
Section MergeSortTotal.
Context {A : Type}.
Variable ltb : A -> A -> bool.

Fixpoint merge_t (l1 : list A) : list A -> list A :=
  fix merge_r (l2 : list A) : list A :=
    match l1, l2 with
    | [], _ => l2
    | _, [] => l1
    | x :: l1', y :: l2' =>
        if ltb y x then y :: merge_r l2' else x :: merge_t l1' l2
    end.

Fixpoint msort_t (fuel : nat) (l : list A) : list A :=
  match fuel with
  | O => l
  | S n =>
      match l with
      | [] | [_] => l
      | _ =>
          let h := Nat.div2 (List.length l) in
          merge_t (msort_t n (firstn h l)) (msort_t n (skipn h l))
      end
  end.

Definition mergesort_t (l : list A) : list A :=
  msort_t (List.length l) l.
End MergeSortTotal.

(** The comparison read as a total one; the two agree wherever it does not
    raise. *)
Definition ltb_of {A : Type} (lt : A -> A -> result bool) (x y : A) : bool :=
  match lt x y with
  | Ok b => b
  | Raise _ => false
  end.

(** On the elements of [D] the comparison never raises. *)
Definition comparable_on {A : Type} (lt : A -> A -> result bool) (D : list A)
  : Prop :=
  forall x y, In x D -> In y D -> exists b, lt x y = Ok b.

(** On the elements of [D] the comparison is a strict weak order: it never
    raises, is asymmetric, and what is not below [y] nor above it sits with
    [y]. *)
Definition strict_weak_order_on {A : Type} (lt : A -> A -> result bool)
           (D : list A) : Prop :=
  comparable_on lt D /\
  (forall x y, In x D -> In y D -> lt x y = Ok true -> lt y x = Ok false) /\
  (forall x y z, In x D -> In y D -> In z D ->
     lt x z = Ok true -> lt x y = Ok true \/ lt y z = Ok true).

(** Ascending for a strict comparison: no element is above a later one. *)
Definition sorted_by {A : Type} (ltb : A -> A -> bool) (l : list A) : Prop :=
  StronglySorted (fun x y => ltb y x = false) l.

(** ** The result table *)

(** A [pandas.DataFrame] of search results: the column labels and the rows in
    index order.  A row keeps the cells it was given; a column it has no
    entry for reads as NA there. *)
Record DataFrame : Type := mkDataFrame {
  columns : list string;
  rows : list (dict json)
}.

(** [pd.DataFrame()] *)
Definition DataFrame_empty : DataFrame :=
  {| columns := []; rows := [] |}.

(** [df.append(other, ignore_index=True)] for a dict [other]: the labels
    new to the frame join its columns, and [other] becomes the last row.
    pandas takes the new labels from [Index.difference], which sorts them
    (releases differ on whether the labels of the very first row are sorted
    too; nothing below depends on the order of new columns). *)
Definition append (df : DataFrame) (other : dict json) : DataFrame :=
  let idx_diff :=
    mergesort_t String.ltb
      (filter (fun k => negb (existsb (String.eqb k) (columns df)))
              (dict_keys other)) in
  {| columns := (columns df ++ idx_diff)%list;
     rows := (rows df ++ [other])%list |}.

(** ** ResultProjector: [simple_query_search] after the response is loaded *)

(** [hitdict] for one hit: [hit.pop('_source').items()] flattened. *)
Definition hit_row (hit : json) : result (dict json) :=
  source <- pop hit "_source" ;;
  its <- items source ;;
  Ok (flatten_hit its).

(** The body of [for hit in ...]. *)
Definition hit_step (results : DataFrame) (hit : json) : result DataFrame :=
  hitdict <- hit_row hit ;;
  Ok (append results hitdict).

(** What [for hit in requestjson.pop('hits').pop('hits')] iterates over. *)
Definition response_hits (requestjson : json) : result (list json) :=
  outer <- pop requestjson "hits" ;;
  inner <- pop outer "hits" ;;
  iter inner.

Definition simple_query_search (requestjson : json) : result DataFrame :=
  hits <- response_hits requestjson ;;
  for_each hits hit_step DataFrame_empty.

(** ** TableSorter: [ResultsGrid.column_sort_asc] and [column_sort_desc] *)

(** The cell of a row under a column; an absent entry (NaN) and a null one
    (None) are both NA and both read as [JNull]. *)
Definition cell (header : string) (row : dict json) : json :=
  match dict_get row header with
  | Some v => v
  | None => JNull
  end.

(** [pandas.isna] on a cell. *)
Definition isna (v : json) : bool :=
  match v with
  | JNull => true
  | _ => false
  end.

Section SortValues.
(** Python's [<] on two cells of a column, as the column stores them. *)
Variable cell_lt : json -> json -> result bool.

Definition row_lt (header : string) (r1 r2 : dict json) : result bool :=
  cell_lt (cell header r1) (cell header r2).

(** [df.sort_values(by=header, kind="mergesort", ascending=ascending,
    inplace=True, ignore_index=True)], with pandas' default
    [na_position="last"]: the rows with a value are sorted stably (for
    a descending sort: reversed, sorted, reversed again), the NA rows follow
    in their old order.  An unknown label raises [KeyError]. *)
Definition sort_values (df : DataFrame) (header : string) (ascending : bool)
  : result DataFrame :=
  if existsb (String.eqb header) (columns df) then
    let non_nans := filter (fun r => negb (isna (cell header r))) (rows df) in
    let nans := filter (fun r => isna (cell header r)) (rows df) in
    sorted <-
      (if ascending
       then mergesort (row_lt header) non_nans
       else (s <- mergesort (row_lt header) (rev non_nans) ;; Ok (rev s))) ;;
    Ok {| columns := columns df; rows := (sorted ++ nans)%list |}
  else Raise KeyError.

(** The grid's table is the state; [populate] only redraws it. *)
Definition column_sort_asc (search_results : DataFrame) (header : string)
  : result DataFrame :=
  sort_values search_results header true.

Definition column_sort_desc (search_results : DataFrame) (header : string)
  : result DataFrame :=
  sort_values search_results header false.
End SortValues.

(** [<] on the cells of a column of ints; on any other pair of cells it
    raises, as Python does for [None] or for a str against an int. *)
Definition int_lt (a b : json) : result bool :=
  match a, b with
  | JInt x, JInt y => Ok (x <? y)%Z
  | _, _ => Raise TypeError
  end.

(** The rows of the frame that have a value under [header], and those that
    have none. *)
Definition non_nan_rows (df : DataFrame) (header : string) : list (dict json) :=
  filter (fun r => negb (isna (cell header r))) (rows df).

Definition nan_rows (df : DataFrame) (header : string) : list (dict json) :=
  filter (fun r => isna (cell header r)) (rows df).

(** The rows with a value, in the order the sort leaves them in when no
    comparison raises. *)
Definition sorted_rows (cell_lt : json -> json -> result bool) (df : DataFrame)
           (header : string) (ascending : bool) : list (dict json) :=
  if ascending
  then mergesort_t (ltb_of (row_lt cell_lt header)) (non_nan_rows df header)
  else rev (mergesort_t (ltb_of (row_lt cell_lt header))
                        (rev (non_nan_rows df header))).

(** A table to try the sorts on: two rows tie on [k], one has no [k], one
    has a null [k]. *)
Definition sample_table : DataFrame :=
  {| columns := ["k"; "id"];
     rows := [[("k", JInt 2); ("id", JStr "x")];
              [("id", JStr "y")];
              [("k", JInt 1); ("id", JStr "z")];
              [("k", JNull); ("id", JStr "n")];
              [("k", JInt 1); ("id", JStr "w")]] |}.

(** ** Strings: [str.split] and [str.join] *)

(** [s.split(sep)] for a one-character separator. *)
Fixpoint split (sep : ascii) (s : string) : list string :=
  match s with
  | EmptyString => [EmptyString]
  | String c s' =>
      if Ascii.eqb c sep then EmptyString :: split sep s'
      else
        match split sep s' with
        | [] => [String c EmptyString]
        | w :: ws => String c w :: ws
        end
  end.

(** [sep.join(l)] *)
Fixpoint join (sep : string) (l : list string) : string :=
  match l with
  | [] => EmptyString
  | [x] => x
  | x :: l' => x ++ sep ++ join sep l'
  end.

(** ** [json.dumps] with its default arguments

    [ensure_ascii=True], item separator [", "], key separator [": "].  This
    is [json.dumps] on values whose strings stay below 256; [ujson_dumps]
    further down is [json.dumps] on every value. *)

Definition quote : ascii := "034"%char.
Definition backslash : ascii := "092"%char.

Definition hex_digit (d : N) : ascii :=
  if (d <? 10)%N then ascii_of_N (48 + d) else ascii_of_N (87 + d).

(** ['{0:04x}'.format(n)] *)
Definition hex4 (n : N) : string :=
  String (hex_digit ((n / 4096) mod 16))
    (String (hex_digit ((n / 256) mod 16))
       (String (hex_digit ((n / 16) mod 16))
          (String (hex_digit (n mod 16)) EmptyString))).

(** The replacement [encode_basestring_ascii] makes for one character: the
    short escapes of [ESCAPE_DCT], a [u] escape for everything else outside
    the printable ASCII range, the character itself inside it. *)
Definition escape_char (c : ascii) : string :=
  let n := N_of_ascii c in
  if (n =? 34)%N then String backslash (String quote EmptyString)
  else if (n =? 92)%N then String backslash (String backslash EmptyString)
  else if (n =? 8)%N then String backslash "b"
  else if (n =? 12)%N then String backslash "f"
  else if (n =? 10)%N then String backslash "n"
  else if (n =? 13)%N then String backslash "r"
  else if (n =? 9)%N then String backslash "t"
  else if ((n <? 32) || (126 <? n))%N then String backslash (String "u" (hex4 n))
  else String c EmptyString.

Fixpoint escape (s : string) : string :=
  match s with
  | EmptyString => EmptyString
  | String c s' => escape_char c ++ escape s'
  end.

Definition encode_basestring_ascii (s : string) : string :=
  String quote (escape s ++ String quote EmptyString).

Fixpoint json_dumps (v : json) : string :=
  match v with
  | JNull => "null"
  | JBool true => "true"
  | JBool false => "false"
  | JInt z => DecimalString.NilZero.string_of_int (Z.to_int z)
  | JStr s => encode_basestring_ascii s
  | JList l => "[" ++ join ", " (map json_dumps l) ++ "]"
  | JDict d =>
      "{" ++ join ", "
               (map (fun kv =>
                       match kv with
                       | (k, x) => encode_basestring_ascii k ++ ": " ++ json_dumps x
                       end) d)
          ++ "}"
  end.

(** The text of one key/value pair of a dict. *)
Definition pair_text (kv : string * json) : string :=
  encode_basestring_ascii (fst kv) ++ ": " ++ json_dumps (snd kv).

(** ** RequestBuilder: [request_builder]

    On strings below 256, as the captions of the check lists and the text of
    the search entry are taken; [urequest_builder] further down is
    [request_builder] on every [str]. *)

(** The [body] dict as it stands before [json.dumps]. *)
Definition request_body (search_term fields : string) : json :=
  let body : dict json := [] in
  let query : dict json := [] in
  let query := dict_set query "multi_match" (JDict [("query", JStr search_term)]) in
  let body := dict_set body "_source" (JList (map JStr (split ","%char fields))) in
  let body := dict_set body "size" (JInt 100) in
  let body := dict_set body "query" (JDict query) in
  JDict body.

Definition request_builder (search_term fields : string) : string :=
  json_dumps (request_body search_term fields).

(** ** Python strings in full

    [json.dumps], [json.loads] and [request_builder] are modelled over every
    Python [str]: a sequence of code points below [0x110000], the surrogates
    [0xD800..0xDFFF] included, which a [str] may hold on their own. *)

Section FullStr.
Local Open Scope N_scope.
Local Open Scope list_scope.

Definition ustr : Type := list N.

(** Every element is a code point. *)
Definition valid_str (s : ustr) : bool := forallb (fun c => c <? 1114112) s.

(** A [string] seen as a [str]. *)
Definition ustr_of (s : string) : ustr := map N_of_ascii (list_ascii_of_string s).

Fixpoint ustr_eqb (a b : ustr) : bool :=
  match a, b with
  | [], [] => true
  | x :: a', y :: b' => (x =? y) && ustr_eqb a' b'
  | _, _ => false
  end.

(** What [json.loads] returns, and what [json.dumps] is given. *)
Inductive ujson : Type :=
| UNull
| UBool (b : bool)
| UInt (z : Z)
| UStr (s : ustr)
| UList (l : list ujson)
| UDict (d : list (ustr * ujson)).

(** [d.get(k)] *)
Fixpoint udict_get {V : Type} (d : list (ustr * V)) (k : ustr) : option V :=
  match d with
  | [] => None
  | (k', v) :: d' => if ustr_eqb k' k then Some v else udict_get d' k
  end.

(** [d[k] = v] *)
Fixpoint udict_set {V : Type} (d : list (ustr * V)) (k : ustr) (v : V)
  : list (ustr * V) :=
  match d with
  | [] => [(k, v)]
  | (k', v') :: d' =>
      if ustr_eqb k' k then (k', v) :: d' else (k', v') :: udict_set d' k v
  end.

(** [dict(pairs)] *)
Definition udict_update {V : Type} (d : list (ustr * V)) (items : list (ustr * V))
  : list (ustr * V) :=
  fold_left (fun h kv => udict_set h (fst kv) (snd kv)) items d.

(** [v.get(k)] on a loaded value that is a dict; [None] for an absent key and
    for a value that is no dict. *)
Definition uget (v : ujson) (k : string) : option ujson :=
  match v with
  | UDict d => udict_get d (ustr_of k)
  | _ => None
  end.

(** [v[k1][k2]...] on loaded dicts. *)
Fixpoint uget_path (v : ujson) (path : list string) : option ujson :=
  match path with
  | [] => Some v
  | k :: path' =>
      match uget v k with
      | Some x => uget_path x path'
      | None => None
      end
  end.

(** [s.split(sep)] for a one-character separator. *)
Fixpoint usplit (sep : N) (s : ustr) : list ustr :=
  match s with
  | [] => [[]]
  | c :: s' =>
      if c =? sep then [] :: usplit sep s'
      else
        match usplit sep s' with
        | [] => [[c]]
        | w :: ws => (c :: w) :: ws
        end
  end.

(** [sep.join(l)] *)
Fixpoint ujoin (sep : ustr) (l : list ustr) : ustr :=
  match l with
  | [] => []
  | [x] => x
  | x :: l' => x ++ sep ++ ujoin sep l'
  end.

(** *** [json.dumps] with its default arguments *)

Definition uhex_digit (d : N) : N := if d <? 10 then 48 + d else 87 + d.

(** ['\\u{0:04x}'.format(n)] *)
Definition u_escape (n : N) : ustr :=
  [92; 117; uhex_digit ((n / 4096) mod 16); uhex_digit ((n / 256) mod 16);
   uhex_digit ((n / 16) mod 16); uhex_digit (n mod 16)].

(** [0xd800 | ((n >> 10) & 0x3ff)] and [0xdc00 | (n & 0x3ff)] for
    [n = c - 0x10000]: the two halves a code point above [0xFFFF] is written
    as. *)
Definition high_half (c : N) : N :=
  N.lor 55296 (N.land (N.shiftr (c - 65536) 10) 1023).

Definition low_half (c : N) : N := N.lor 56320 (N.land (c - 65536) 1023).

(** The replacement [encode_basestring_ascii] makes for one character. *)
Definition uescape_char (c : N) : ustr :=
  if c =? 34 then [92; 34]
  else if c =? 92 then [92; 92]
  else if c =? 8 then [92; 98]
  else if c =? 12 then [92; 102]
  else if c =? 10 then [92; 110]
  else if c =? 13 then [92; 114]
  else if c =? 9 then [92; 116]
  else if (c <? 32) || (126 <? c) then
    if c <? 65536 then u_escape c
    else u_escape (high_half c) ++ u_escape (low_half c)
  else [c].

Fixpoint uescape (s : ustr) : ustr :=
  match s with
  | [] => []
  | c :: s' => uescape_char c ++ uescape s'
  end.

Definition uencode_basestring_ascii (s : ustr) : ustr :=
  34 :: uescape s ++ [34].

(** The text of one key/value pair of a dict, given the text of the value. *)
Definition upair_text (k : ustr) (value_text : ustr) : ustr :=
  uencode_basestring_ascii k ++ ustr_of ": " ++ value_text.

Fixpoint ujson_dumps (v : ujson) : ustr :=
  match v with
  | UNull => ustr_of "null"
  | UBool true => ustr_of "true"
  | UBool false => ustr_of "false"
  | UInt z => ustr_of (DecimalString.NilZero.string_of_int (Z.to_int z))
  | UStr s => uencode_basestring_ascii s
  | UList l => 91 :: ujoin (ustr_of ", ") (map ujson_dumps l) ++ [93]
  | UDict d =>
      123 :: ujoin (ustr_of ", ")
                   (map (fun kv =>
                           match kv with
                           | (k, x) => upair_text k (ujson_dumps x)
                           end) d)
          ++ [125]
  end.

(** The text of one pair of a dict. *)
Definition upair (kv : ustr * ujson) : ustr :=
  upair_text (fst kv) (ujson_dumps (snd kv)).

(** *** [json.loads]

    [None] stands for [JSONDecodeError] and also for a document that leaves
    the value type: a number with a fraction or an exponent, [NaN],
    [Infinity]. *)

Definition is_ws (c : N) : bool :=
  (c =? 32) || (c =? 9) || (c =? 10) || (c =? 13).

Fixpoint skip_ws (s : ustr) : ustr :=
  match s with
  | [] => s
  | c :: s' => if is_ws c then skip_ws s' else s
  end.

Definition hex_value (c : N) : option N :=
  if (48 <=? c) && (c <=? 57) then Some (c - 48)
  else if (97 <=? c) && (c <=? 102) then Some (c - 87)
  else if (65 <=? c) && (c <=? 70) then Some (c - 55)
  else None.

(** The four hexadecimal digits of a [u] escape. *)
Definition hex4_value (h1 h2 h3 h4 : N) : option N :=
  match hex_value h1, hex_value h2, hex_value h3, hex_value h4 with
  | Some a, Some b, Some c, Some d => Some (((a * 16 + b) * 16 + c) * 16 + d)
  | _, _, _, _ => None
  end.

(** [0xd800 <= uni <= 0xdbff] and [0xdc00 <= uni2 <= 0xdfff] *)
Definition is_high (c : N) : bool := (55296 <=? c) && (c <=? 56319).

Definition is_low (c : N) : bool := (56320 <=? c) && (c <=? 57343).

(** [0x10000 + (((uni - 0xd800) << 10) | (uni2 - 0xdc00))] *)
Definition join_surrogates (uni uni2 : N) : N :=
  65536 + N.lor (N.shiftl (uni - 55296) 10) (uni2 - 56320).

(** The [BACKSLASH] table of the decoder. *)
Definition unescape (e : N) : option N :=
  if e =? 34 then Some 34
  else if e =? 92 then Some 92
  else if e =? 47 then Some 47
  else if e =? 98 then Some 8
  else if e =? 102 then Some 12
  else if e =? 110 then Some 10
  else if e =? 114 then Some 13
  else if e =? 116 then Some 9
  else None.

Definition push_char (c : N) (r : option (ustr * ustr)) : option (ustr * ustr) :=
  match r with
  | Some (str, rest) => Some (c :: str, rest)
  | None => None
  end.

(** [scanstring] in strict mode, from just after the opening quote: the
    decoded string and the text after the closing quote.  A [u] escape gives
    the character of its value, whatever the value; when the value is a high
    surrogate and another [u] escape follows whose value is a low surrogate,
    the two are read as the one character they encode. *)
Fixpoint scanstring (s : ustr) : option (ustr * ustr) :=
  match s with
  | [] => None
  | c :: s' =>
      if c =? 34 then Some ([], s')
      else if c =? 92 then
        match s' with
        | [] => None
        | e :: s'' =>
            if e =? 117 then
              match s'' with
              | h1 :: h2 :: h3 :: h4 :: rest =>
                  match hex4_value h1 h2 h3 h4 with
                  | None => None
                  | Some uni =>
                      match rest with
                      | b :: u :: g1 :: g2 :: g3 :: g4 :: rest2 =>
                          if is_high uni && (b =? 92) && (u =? 117) then
                            match hex4_value g1 g2 g3 g4 with
                            | None => None
                            | Some uni2 =>
                                if is_low uni2 then
                                  push_char (join_surrogates uni uni2)
                                            (scanstring rest2)
                                else push_char uni (scanstring rest)
                            end
                          else push_char uni (scanstring rest)
                      | _ => push_char uni (scanstring rest)
                      end
                  end
              | _ => None
              end
            else
              match unescape e with
              | Some c' => push_char c' (scanstring s'')
              | None => None
              end
        end
      else if c <? 32 then None
      else push_char c (scanstring s')
  end.

Definition is_digit (c : N) : bool := (48 <=? c) && (c <=? 57).

(** The longest prefix of digits, and what follows it. *)
Fixpoint scan_digits (s : ustr) : ustr * ustr :=
  match s with
  | [] => ([], [])
  | c :: s' =>
      if is_digit c then
        let (ds, rest) := scan_digits s' in (c :: ds, rest)
      else ([], s)
  end.

Definition starts_fraction (s : ustr) : bool :=
  match s with
  | c :: _ => (c =? 46) || (c =? 101) || (c =? 69)
  | [] => false
  end.

(** A run of ASCII characters as a [string]. *)
Definition string_of_ustr (s : ustr) : string :=
  string_of_list_ascii (map ascii_of_N s).

(** [NUMBER_RE]: an optional sign, then [0] or a digit run without a leading
    zero.  A digit left after a leading [0], and a following [.], [e] or [E]
    (a float, or no delimiter at all), end in [None]. *)
Definition match_number (s : ustr) : option (Z * ustr) :=
  let (neg, s1) :=
    match s with
    | c :: s' => if c =? 45 then (true, s') else (false, s)
    | [] => (false, s)
    end in
  let (ds, rest) := scan_digits s1 in
  match ds with
  | [] => None
  | d :: ds' =>
      if (d =? 48) && negb (match ds' with [] => true | _ :: _ => false end)
      then None
      else if starts_fraction rest then None
      else
        match DecimalString.NilEmpty.uint_of_string (string_of_ustr ds) with
        | Some u => Some (if neg : bool then (- Z.of_uint u)%Z else Z.of_uint u, rest)
        | None => None
        end
  end.

(** What is left of [s] after [word], when [s] begins with it. *)
Fixpoint strip_prefix (word s : ustr) : option ustr :=
  match word with
  | [] => Some s
  | c :: word' =>
      match s with
      | [] => None
      | c' :: s' => if c =? c' then strip_prefix word' s' else None
      end
  end.

Definition literal (word : string) (v : ujson) (s : ustr)
  : option (ujson * ustr) :=
  match strip_prefix (ustr_of word) s with
  | Some rest => Some (v, rest)
  | None => None
  end.

(** [scan_once], [JSONArray] after the first value's position is reached and
    [JSONObject] likewise; [fuel] bounds the nesting of calls. *)
Fixpoint scan_once (fuel : nat) (s : ustr) : option (ujson * ustr) :=
  match fuel with
  | O => None
  | S n =>
      match s with
      | [] => None
      | c :: s' =>
          if c =? 34 then
            match scanstring s' with
            | Some (str, rest) => Some (UStr str, rest)
            | None => None
            end
          else if c =? 123 then
            match skip_ws s' with
            | [] => None
            | c1 :: r1 =>
                if c1 =? 125 then Some (UDict [], r1)
                else
                  match parse_pairs n (c1 :: r1) with
                  | Some (pairs, rest) => Some (UDict (udict_update [] pairs), rest)
                  | None => None
                  end
            end
          else if c =? 91 then
            match skip_ws s' with
            | [] => None
            | c1 :: r1 =>
                if c1 =? 93 then Some (UList [], r1)
                else
                  match parse_items n (c1 :: r1) with
                  | Some (vs, rest) => Some (UList vs, rest)
                  | None => None
                  end
            end
          else if c =? 110 then literal "null" UNull s
          else if c =? 116 then literal "true" (UBool true) s
          else if c =? 102 then literal "false" (UBool false) s
          else
            match match_number s with
            | Some (z, rest) => Some (UInt z, rest)
            | None => None
            end
      end
  end

with parse_items (fuel : nat) (s : ustr) : option (list ujson * ustr) :=
  match fuel with
  | O => None
  | S n =>
      match scan_once n s with
      | None => None
      | Some (v, r) =>
          match skip_ws r with
          | [] => None
          | c :: r' =>
              if c =? 93 then Some ([v], r')
              else if c =? 44 then
                match parse_items n (skip_ws r') with
                | Some (vs, r'') => Some (v :: vs, r'')
                | None => None
                end
              else None
          end
      end
  end

with parse_pairs (fuel : nat) (s : ustr)
  : option (list (ustr * ujson) * ustr) :=
  match fuel with
  | O => None
  | S n =>
      match s with
      | [] => None
      | c :: s' =>
          if c =? 34 then
            match scanstring s' with
            | None => None
            | Some (key, r) =>
                match skip_ws r with
                | [] => None
                | c2 :: r2 =>
                    if c2 =? 58 then
                      match scan_once n (skip_ws r2) with
                      | None => None
                      | Some (v, r3) =>
                          match skip_ws r3 with
                          | [] => None
                          | c4 :: r4 =>
                              if c4 =? 125 then Some ([(key, v)], r4)
                              else if c4 =? 44 then
                                match parse_pairs n (skip_ws r4) with
                                | Some (ps, r5) => Some ((key, v) :: ps, r5)
                                | None => None
                                end
                              else None
                          end
                      end
                    else None
                end
            end
          else None
      end
  end.

(** [json.loads(s)]: one value, white space around it, nothing else.  The
    fuel is the length of the text: every nested call comes after at least
    one more character was read. *)
Definition json_loads (s : ustr) : option ujson :=
  match scan_once (List.length s) (skip_ws s) with
  | Some (v, rest) =>
      match skip_ws rest with
      | [] => Some v
      | _ :: _ => None
      end
  | None => None
  end.

(** *** What a text written by [json.dumps] loads as *)

(** A string with every high surrogate that is directly followed by a low
    surrogate replaced, together with it, by the character the two encode. *)
Fixpoint join_pairs (s : ustr) : ustr :=
  match s with
  | [] => []
  | c :: s' =>
      match s' with
      | l :: rest =>
          if is_high c && is_low l then join_surrogates c l :: join_pairs rest
          else c :: join_pairs s'
      | [] => [c]
      end
  end.

(** Whether a string holds a high surrogate directly followed by a low
    one. *)
Fixpoint has_pair (s : ustr) : bool :=
  match s with
  | [] => false
  | c :: s' =>
      match s' with
      | l :: _ => (is_high c && is_low l) || has_pair s'
      | [] => false
      end
  end.

(** The value with [join_pairs] applied to every string and key, and every
    dict rebuilt from its pairs. *)
Fixpoint joined (v : ujson) : ujson :=
  match v with
  | UStr s => UStr (join_pairs s)
  | UList l => UList (map joined l)
  | UDict d =>
      UDict (udict_update []
               (map (fun kv => (join_pairs (fst kv), joined (snd kv))) d))
  | _ => v
  end.

(** Every string and key of the value is a [str]. *)
Fixpoint valid_json (v : ujson) : bool :=
  match v with
  | UStr s => valid_str s
  | UList l => forallb valid_json l
  | UDict d => forallb (fun kv => valid_str (fst kv) && valid_json (snd kv)) d
  | _ => true
  end.

(** The nesting of parser calls a value asks for. *)
Fixpoint need (v : ujson) : nat :=
  match v with
  | UList l => S (fold_right (fun x n => S (Nat.max (need x) n)) O l)
  | UDict d => S (fold_right (fun kv n => S (Nat.max (need (snd kv)) n)) O d)
  | _ => 1%nat
  end.

Definition need_items (l : list ujson) : nat :=
  fold_right (fun x n => S (Nat.max (need x) n)) O l.

Definition need_pairs (d : list (ustr * ujson)) : nat :=
  fold_right (fun kv n => S (Nat.max (need (snd kv)) n)) O d.

(** What may follow a value inside a document: nothing, or one of the
    delimiters [,], [\]] and [}]. *)
Definition delimited (rest : ustr) : bool :=
  match rest with
  | [] => true
  | c :: _ => (c =? 44) || (c =? 93) || (c =? 125)
  end.

(** The characters a serialized value can begin with. *)
Definition starts_value (c : N) : bool :=
  (c =? 34) || (c =? 123) || (c =? 91) || (c =? 110) || (c =? 116)
  || (c =? 102) || (c =? 45) || is_digit c.

(** [scan_once] returns the joined value of the one a text was written
    from, whatever delimiter follows it. *)
Definition reads_back (v : ujson) : Prop :=
  forall fuel rest,
    (need v <= fuel)%nat -> delimited rest = true ->
    scan_once fuel (ujson_dumps v ++ rest) = Some (joined v, rest).

(** The same values, seen with full strings. *)
Fixpoint widen (v : json) : ujson :=
  match v with
  | JNull => UNull
  | JBool b => UBool b
  | JInt z => UInt z
  | JStr s => UStr (ustr_of s)
  | JList l => UList (map widen l)
  | JDict d => UDict (map (fun kv => (ustr_of (fst kv), widen (snd kv))) d)
  end.

(** *** [request_builder] on every [str] *)

(** The [body] dict as it stands before [json.dumps]. *)
Definition urequest_body (search_term fields : ustr) : ujson :=
  let body : list (ustr * ujson) := [] in
  let query : list (ustr * ujson) := [] in
  let query :=
    udict_set query (ustr_of "multi_match")
              (UDict [(ustr_of "query", UStr search_term)]) in
  let body :=
    udict_set body (ustr_of "_source") (UList (map UStr (usplit 44 fields))) in
  let body := udict_set body (ustr_of "size") (UInt 100) in
  let body := udict_set body (ustr_of "query") (UDict query) in
  UDict body.

Definition urequest_builder (search_term fields : ustr) : ustr :=
  ujson_dumps (urequest_body search_term fields).

(** [chr(0xD83D) + chr(0xDE00)], the two surrogates that encode [U+1F600],
    and [chr(0x1F600)]. *)
Definition grin_pair : ustr := [55357; 56832].

Definition grin : ustr := [128512].

End FullStr.

(** ** Structural induction on full values *)

Section UjsonInduction.
Variable P : ujson -> Prop.
Hypothesis P_null : P UNull.
Hypothesis P_bool : forall b, P (UBool b).
Hypothesis P_int : forall z, P (UInt z).
Hypothesis P_str : forall s, P (UStr s).
Hypothesis P_list : forall l, Forall P l -> P (UList l).
Hypothesis P_dict : forall d, Forall (fun kv => P (snd kv)) d -> P (UDict d).

Fixpoint ujson_induction (v : ujson) : P v :=
  match v with
  | UNull => P_null
  | UBool b => P_bool b
  | UInt z => P_int z
  | UStr s => P_str s
  | UList l =>
      P_list l
        ((fix all (l : list ujson) : Forall P l :=
            match l with
            | [] => Forall_nil P
            | x :: l' => Forall_cons x (ujson_induction x) (all l')
            end) l)
  | UDict d =>
      P_dict d
        ((fix all (d : list (ustr * ujson))
            : Forall (fun kv => P (snd kv)) d :=
            match d with
            | [] => Forall_nil _
            | (k, x) :: d' =>
                @Forall_cons _ (fun kv => P (snd kv)) (k, x) d'
                             (ujson_induction x) (all d')
            end) d)
  end.
End UjsonInduction.

(** ** Sample responses *)

(** Two indices that declare the same field. *)
Definition two_indices : dict json :=
  [("logs", JDict [("mappings", JDict [("properties", JDict [("ts", JDict [])])])]);
   ("audit", JDict [("mappings", JDict [("properties", JDict [("ts", JDict [])])])])].

(** A search response with two hits. *)
Definition two_hits_list : list json :=
  [JDict [("_id", JStr "1");
          ("_source", JDict [("user", JDict [("name", JStr "A")])])];
   JDict [("_id", JStr "2"); ("_source", JDict [("ts", JStr "2020")])]].

Definition two_hits : json :=
  JDict [("took", JInt 3);
         ("hits", JDict [("total", JInt 2); ("hits", JList two_hits_list)])].

(** ** Structural induction on values *)

Section JsonInduction.
Variable P : json -> Prop.
Hypothesis P_null : P JNull.
Hypothesis P_bool : forall b, P (JBool b).
Hypothesis P_int : forall z, P (JInt z).
Hypothesis P_str : forall s, P (JStr s).
Hypothesis P_list : forall l, Forall P l -> P (JList l).
Hypothesis P_dict : forall d, Forall (fun kv => P (snd kv)) d -> P (JDict d).

Fixpoint json_induction (v : json) : P v :=
  match v with
  | JNull => P_null
  | JBool b => P_bool b
  | JInt z => P_int z
  | JStr s => P_str s
  | JList l =>
      P_list l
        ((fix all (l : list json) : Forall P l :=
            match l with
            | [] => Forall_nil P
            | x :: l' => Forall_cons x (json_induction x) (all l')
            end) l)
  | JDict d =>
      P_dict d
        ((fix all (d : list (string * json))
            : Forall (fun kv => P (snd kv)) d :=
            match d with
            | [] => Forall_nil _
            | (k, x) :: d' =>
                @Forall_cons _ (fun kv => P (snd kv)) (k, x) d'
                             (json_induction x) (all d')
            end) d)
  end.
End JsonInduction.

(** ** Ties of a strict comparison *)

(** Neither of [a] and [x] is below the other. *)
Definition tied {A : Type} (ltb : A -> A -> bool) (a x : A) : bool :=
  negb (ltb a x) && negb (ltb x a).

(** ** The check lists: [ScrollingChecklist]

    [checklist.slaves()] is the list of check buttons in packing order; a
    button is its caption and whether its state holds [selected]. *)

Record Checkbutton : Type := mkCheckbutton {
  text : string;
  selected : bool
}.

(** [ttk.Checkbutton(..., text=label)] followed by [state(['!alternate'])]. *)
Definition new_checkbutton (label : string) : Checkbutton :=
  {| text := label; selected := false |}.

(** [checkbox.state(['!selected'])] *)
Definition deselect (c : Checkbutton) : Checkbutton :=
  {| text := text c; selected := false |}.

(** [uncheck_rest]: [None] is the [IndexError] of [slaves()[0]] on an empty
    check list. *)
Definition uncheck_rest (slaves : list Checkbutton) : option (list Checkbutton) :=
  match slaves with
  | [] => None
  | first :: rest =>
      if selected first then Some (first :: map deselect rest) else Some slaves
  end.

(** [return_checked]: the captions of the selected buttons after the first,
    joined with commas. *)
Definition return_checked (slaves : list Checkbutton) : string :=
  join "," (map text (filter selected (tl slaves))).

(** [clear] *)
Definition clear (slaves : list Checkbutton) : list Checkbutton := [].

(** ** [index_listing] and [SearchBuilder.get_index_names] *)

(** [list(requestjson)], given the loaded response. *)
Definition index_listing (requestjson : json) : result (list json) :=
  iter requestjson.

(** [entry.startswith(prefix)]: only a str has the method. *)
Definition startswith (entry : json) (prefix : string) : result bool :=
  match entry with
  | JStr s => Ok (String.prefix prefix s)
  | _ => Raise AttributeError
  end.

(** The body of [for entry in index_listing(...)]. *)
Definition index_entry_step (slaves : list Checkbutton) (entry : json)
  : result (list Checkbutton) :=
  dot <- startswith entry "." ;;
  if dot : bool then Ok slaves
  else
    match entry with
    | JStr s => Ok (slaves ++ [new_checkbutton s])%list
    | _ => Raise AttributeError
    end.

(** The check list [get_index_names] leaves, given the loaded response:
    [All], then the indices. *)
Definition get_index_names (requestjson : json) : result (list Checkbutton) :=
  entries <- index_listing requestjson ;;
  for_each entries index_entry_step [new_checkbutton "All"].

(** ** [SearchBuilder.get_field_names] *)

Fixpoint lstrip (c : ascii) (s : string) : string :=
  match s with
  | EmptyString => s
  | String c' s' => if Ascii.eqb c' c then lstrip c s' else s
  end.

Definition string_rev (s : string) : string :=
  string_of_list_ascii (rev (list_ascii_of_string s)).

(** [s.strip(c)] for a one-character set. *)
Definition strip (c : ascii) (s : string) : string :=
  string_rev (lstrip c (string_rev (lstrip c s))).

(** The button made for one entry of [maplist]; [at_entry] is computed and
    left unused. *)
Definition field_entry_box (entry : string) : Checkbutton :=
  if String.prefix "@" entry then
    let at_entry := "internal_" ++ strip "@"%char entry in
    new_checkbutton entry
  else new_checkbutton entry.

Definition get_field_names (requestjson : json) : result (list Checkbutton) :=
  maplist <- index_field_names requestjson ;;
  Ok (new_checkbutton "All" :: map field_entry_box maplist).

(** ** [SearchBuilder.simple_query_search]: what is asked of the engine *)

(** ["_all"] or ["*"] when the first button is selected, the checked
    captions otherwise; [None] is the [IndexError] of [slaves()[0]]. *)
Definition selection (sentinel : string) (slaves : list Checkbutton)
  : option string :=
  match slaves with
  | [] => None
  | first :: _ =>
      Some (if selected first then sentinel else return_checked slaves)
  end.

(** The url and the body of the search request. *)
Definition search_request (indices fields : list Checkbutton) (term : string)
  : option (string * string) :=
  match selection "_all" indices with
  | None => None
  | Some selected_indices =>
      match selection "*" fields with
      | None => None
      | Some selected_fields =>
          Some ("/" ++ selected_indices ++ "/_search",
                request_builder term selected_fields)
      end
  end.

(** ** [PandasSession.send_input] *)

(** [a or b] on two strs: [a] unless it is empty. *)
Definition py_or (a b : string) : string :=
  match a with
  | EmptyString => b
  | String _ _ => a
  end.

Section SendInput.

(** The state of the [code.InteractiveConsole]. *)
Variable Console : Type.

(** [console.push(line)]: the console after the line has run, or [None] when
    [SystemExit] leaves [push].  [SystemExit] is the one exception
    [InteractiveInterpreter.runcode] lets through; the lines [quit()],
    [exit()] and [sys.exit()] raise it. *)
Variable push : Console -> string -> option Console.

(** [console.resetbuffer()] *)
Variable resetbuffer : Console -> Console.

(** [self.console], the text of [self.entry] and [self.input]. *)
Record Session : Type := mkSession {
  console : Console;
  entry : string;
  input : string
}.

(** [None] is [SystemExit] leaving [send_input]: what follows [push] does
    not run. *)
Definition send_input (st : Session) : option Session :=
  let st := {| console := console st; entry := entry st; input := entry st |} in
  if negb (String.eqb (input st) (py_or "exit()" "quit()")) then
    match push (console st) (entry st) with
    | Some c =>
        Some {| console := resetbuffer c; entry := EmptyString; input := input st |}
    | None => None
    end
  else Some st.

End SendInput.
Arguments mkSession {Console} _ _ _.
Arguments console {Console} _.
Arguments entry {Console} _.
Arguments input {Console} _.
Arguments send_input {Console} _ _ _.

(** ** [ResultsGrid]: the table and its tree view *)

(** The command bound to a heading: [column_sort_asc(_header)] or
    [column_sort_desc(_header)]. *)
Inductive sort_command : Type :=
| SortAsc
| SortDesc.

Record ResultsGrid : Type := mkResultsGrid {
  search_results : DataFrame;
  headings : dict sort_command;
  treeview_rows : list (list json)
}.

(** [result.tolist()] for one row of [search_results.values]. *)
Definition row_values (cols : list string) (row : dict json) : list json :=
  map (fun c => cell c row) cols.

(** [populate]: the old rows go, every column gets a heading bound to the
    ascending sort, every row of the table is inserted. *)
Definition populate (g : ResultsGrid) : ResultsGrid :=
  let search_results_columns := columns (search_results g) in
  {| search_results := search_results g;
     headings := map (fun header => (header, SortAsc)) search_results_columns;
     treeview_rows :=
       map (row_values search_results_columns) (rows (search_results g)) |}.

(** [treeview.heading(header, command=...)] *)
Definition bind_heading (g : ResultsGrid) (header : string) (c : sort_command)
  : ResultsGrid :=
  {| search_results := search_results g;
     headings := dict_set (headings g) header c;
     treeview_rows := treeview_rows g |}.

Section GridSort.
Variable cell_lt : json -> json -> result bool.

(** [ResultsGrid.column_sort_asc] on the whole grid. *)
Definition grid_sort_asc (g : ResultsGrid) (header : string)
  : result ResultsGrid :=
  sorted <- column_sort_asc cell_lt (search_results g) header ;;
  let g' := populate {| search_results := sorted;
                        headings := headings g;
                        treeview_rows := treeview_rows g |} in
  Ok (bind_heading g' header SortDesc).

(** [ResultsGrid.column_sort_desc] on the whole grid. *)
Definition grid_sort_desc (g : ResultsGrid) (header : string)
  : result ResultsGrid :=
  sorted <- column_sort_desc cell_lt (search_results g) header ;;
  let g' := populate {| search_results := sorted;
                        headings := headings g;
                        treeview_rows := treeview_rows g |} in
  Ok (bind_heading g' header SortAsc).

(** A click on a heading runs the command bound to it; where there is no
    such heading there is nothing to click. *)
Definition heading_click (g : ResultsGrid) (header : string)
  : result ResultsGrid :=
  match dict_get (headings g) header with
  | Some SortAsc => grid_sort_asc g header
  | Some SortDesc => grid_sort_desc g header
  | None => Ok g
  end.
End GridSort.

(** The view shows the table: one heading per column, one row of values
    per row. *)
Definition grid_ok (g : ResultsGrid) : Prop :=
  dict_keys (headings g) = columns (search_results g) /\
  treeview_rows g
  = map (row_values (columns (search_results g))) (rows (search_results g)).

(** The other direction. *)
Definition toggled (c : sort_command) : sort_command :=
  match c with
  | SortAsc => SortDesc
  | SortDesc => SortAsc
  end.

(** The characters [json.dumps] may write with [ensure_ascii]: printable
    ASCII. *)
Definition printable (c : ascii) : bool :=
  let n := N_of_ascii c in ((32 <=? n) && (n <=? 126))%N.

Fixpoint all_chars (p : ascii -> bool) (s : string) : bool :=
  match s with
  | EmptyString => true
  | String c s' => p c && all_chars p s'
  end.

(** The grid after a first search of the sample table. *)
Definition sample_grid : ResultsGrid :=
  populate {| search_results := sample_table; headings := [];
              treeview_rows := [] |}.

(** A value that flattens to nothing: an empty mapping, or a mapping of
    empty mappings. *)
Definition hollow (v : json) : bool :=
  match v with
  | JDict d =>
      forallb (fun kv => match snd kv with
                         | JDict [] => true
                         | _ => false
                         end) d
  | _ => false
  end.

(** A table whose columns are what its rows hold: no column twice, no row
    with a key twice, every key of a row a column, every column a key of some
    row. *)
Definition table_ok (df : DataFrame) : Prop :=
  NoDup (columns df) /\
  Forall (fun row => NoDup (dict_keys row)) (rows df) /\
  (forall row k, In row (rows df) -> In k (dict_keys row) -> In k (columns df)) /\
  (forall c, In c (columns df) ->
     exists row, In row (rows df) /\ In c (dict_keys row)).

(** * Properties *)

(** ** Dictionaries *)

Section DictFacts.
Context {V : Type}.
Implicit Types (d : dict V) (k : string) (v : V).

Lemma dict_set_in d k v k' v' :
  In (k', v') (dict_set d k v) -> In (k', v') d \/ (k', v') = (k, v).
Proof.
  induction d as [|[k0 v0] d IH]; simpl.
  - intros [H|[]]; right; now symmetry.
  - destruct (String.eqb_spec k0 k) as [->|Hne]; simpl.
    + intros [H|H]; [right; now symmetry | left; now right].
    + intros [H|H]; [left; now left|].
      destruct (IH H) as [H'|H']; [left; now right | now right].
Qed.

Lemma dict_set_keys_new d k v : In k (dict_keys (dict_set d k v)).
Proof.
  induction d as [|[k0 v0] d IH]; simpl.
  - now left.
  - destruct (String.eqb_spec k0 k) as [->|Hne]; simpl; [now left | now right].
Qed.

Lemma dict_set_keys_old d k v k' :
  In k' (dict_keys d) -> In k' (dict_keys (dict_set d k v)).
Proof.
  induction d as [|[k0 v0] d IH]; simpl.
  - intros [].
  - destruct (String.eqb_spec k0 k) as [->|Hne]; simpl; intuition.
Qed.

Lemma dict_set_fresh d k v :
  ~ In k (dict_keys d) -> dict_set d k v = (d ++ [(k, v)])%list.
Proof.
  induction d as [|[k0 v0] d IH]; simpl; intros Hk.
  - reflexivity.
  - destruct (String.eqb_spec k0 k) as [->|Hne].
    + exfalso. apply Hk. now left.
    + rewrite IH; [reflexivity|]. intros H. apply Hk. now right.
Qed.

Lemma dict_update_app d (l1 l2 : list (string * V)) :
  dict_update d (l1 ++ l2) = dict_update (dict_update d l1) l2.
Proof. unfold dict_update. apply fold_left_app. Qed.

Lemma dict_update_in (l : list (string * V)) : forall d k v,
  In (k, v) (dict_update d l) -> In (k, v) d \/ In (k, v) l.
Proof.
  induction l as [|[k0 v0] l IH]; simpl; intros d k v H.
  - now left.
  - destruct (IH _ _ _ H) as [H'|H']; [|right; now right].
    destruct (dict_set_in _ _ _ _ _ H') as [H''|H'']; [now left|].
    right; left. now symmetry.
Qed.

Lemma dict_update_keys_old (l : list (string * V)) : forall d k,
  In k (dict_keys d) -> In k (dict_keys (dict_update d l)).
Proof.
  induction l as [|[k0 v0] l IH]; simpl; intros d k H.
  - exact H.
  - apply IH. now apply dict_set_keys_old.
Qed.

Lemma dict_update_keys_new (l : list (string * V)) : forall d k,
  In k (map fst l) -> In k (dict_keys (dict_update d l)).
Proof.
  induction l as [|[k0 v0] l IH]; simpl; intros d k H.
  - destruct H.
  - destruct H as [->|H].
    + apply dict_update_keys_old. apply dict_set_keys_new.
    + now apply IH.
Qed.

(** Assigning fresh, pairwise distinct keys appends the items in order. *)
Lemma dict_update_fresh (l : list (string * V)) : forall d,
  NoDup (map fst l) ->
  (forall k, In k (map fst l) -> ~ In k (dict_keys d)) ->
  dict_update d l = (d ++ l)%list.
Proof.
  induction l as [|[k0 v0] l IH]; simpl; intros d Hnd Hfresh.
  - now rewrite app_nil_r.
  - inversion Hnd as [|? ? Hk0 Hnd']; subst.
    change (dict_update (dict_set d k0 v0) l = (d ++ (k0, v0) :: l)%list).
    rewrite dict_set_fresh by (apply Hfresh; now left).
    rewrite IH; [now rewrite <- app_assoc | exact Hnd' |].
    intros k Hk Hin. unfold dict_keys in Hin.
    rewrite map_app in Hin. apply in_app_or in Hin.
    destruct Hin as [Hin|[<-|[]]].
    + apply (Hfresh k); [now right | exact Hin].
    + now apply Hk0.
Qed.
End DictFacts.

(** ** HitFlattener *)

Lemma flatten_ssf_items f sf h sf_v :
  flatten_ssf f sf h sf_v = dict_update h (items_ssf f sf sf_v).
Proof.
  unfold flatten_ssf, items_ssf, dict_update.
  revert h. induction sf_v as [|kv l IH]; intros h; simpl; [reflexivity|].
  apply IH.
Qed.

Lemma flatten_sf_items f v : forall h,
  flatten_sf f h v = dict_update h (items_sf f v).
Proof.
  unfold flatten_sf, items_sf.
  induction v as [|[sf x] l IH]; intros h; [reflexivity|].
  cbn [fold_left flat_map]. rewrite IH, dict_update_app. f_equal.
  cbn [fst snd]. destruct x; try reflexivity.
  apply flatten_ssf_items.
Qed.

Lemma flatten_hit_fold source : forall h,
  fold_left
    (fun h kv =>
       match snd kv with
       | JDict v => flatten_sf (fst kv) h v
       | v => dict_set h (fst kv) v
       end)
    source h
  = dict_update h (items_hit source).
Proof.
  unfold items_hit.
  induction source as [|[f x] l IH]; intros h; [reflexivity|].
  cbn [fold_left flat_map]. rewrite IH, dict_update_app. f_equal.
  cbn [fst snd]. destruct x; try reflexivity.
  apply flatten_sf_items.
Qed.

(** The loop performs the item assignments of the walk, in its order. *)
Lemma flatten_hit_items source :
  flatten_hit source = dict_update [] (items_hit source).
Proof. apply flatten_hit_fold. Qed.

Lemma items_sf_in f v k x :
  In (k, x) (items_sf f v) ->
  (exists sf, k = f ++ "." ++ sf /\ In (sf, x) v /\ is_dict x = false) \/
  (exists sf sf_v ssf,
      k = f ++ "." ++ sf ++ "." ++ ssf /\ In (sf, JDict sf_v) v /\ In (ssf, x) sf_v).
Proof.
  unfold items_sf. rewrite in_flat_map. intros [[sf y] [Hin H]]. cbn [fst snd] in H.
  destruct y;
    try (destruct H as [H|[]]; injection H as <- <-; left; exists sf; now auto).
  right. unfold items_ssf in H. rewrite in_map_iff in H.
  destruct H as [[ssf z] [H Hz]]. cbn [fst snd] in H. injection H as <- <-.
  now exists sf, d, ssf.
Qed.

Lemma items_hit_in source k x :
  In (k, x) (items_hit source) ->
  (In (k, x) source /\ is_dict x = false) \/
  (exists f v sf,
      k = f ++ "." ++ sf /\ In (f, JDict v) source /\ In (sf, x) v /\
      is_dict x = false) \/
  (exists f v sf sf_v ssf,
      k = f ++ "." ++ sf ++ "." ++ ssf /\ In (f, JDict v) source /\
      In (sf, JDict sf_v) v /\ In (ssf, x) sf_v).
Proof.
  unfold items_hit. rewrite in_flat_map. intros [[f y] [Hin H]]. cbn [fst snd] in H.
  destruct y;
    try (destruct H as [H|[]]; injection H as <- <-; left; now auto).
  right. apply items_sf_in in H.
  destruct H as [(sf & -> & H1 & H2)|(sf & sf_v & ssf & -> & H1 & H2)].
  - left. now exists f, d, sf.
  - right. now exists f, d, sf, sf_v, ssf.
Qed.

Lemma items_hit_leaf source f x :
  In (f, x) source -> is_dict x = false -> In (f, x) (items_hit source).
Proof.
  intros Hin Hx. unfold items_hit. rewrite in_flat_map.
  exists (f, x). split; [exact Hin|]. cbn [fst snd].
  destruct x; try (now left). discriminate.
Qed.

Lemma items_hit_sf source f v sf x :
  In (f, JDict v) source -> In (sf, x) v -> is_dict x = false ->
  In (f ++ "." ++ sf, x) (items_hit source).
Proof.
  intros Hin Hsf Hx. unfold items_hit. rewrite in_flat_map.
  exists (f, JDict v). split; [exact Hin|]. cbn [fst snd].
  unfold items_sf. rewrite in_flat_map.
  exists (sf, x). split; [exact Hsf|]. cbn [fst snd].
  destruct x; try (now left). discriminate.
Qed.

Lemma items_hit_ssf source f v sf sf_v ssf x :
  In (f, JDict v) source -> In (sf, JDict sf_v) v -> In (ssf, x) sf_v ->
  In (f ++ "." ++ sf ++ "." ++ ssf, x) (items_hit source).
Proof.
  intros Hin Hsf Hssf. unfold items_hit. rewrite in_flat_map.
  exists (f, JDict v). split; [exact Hin|]. cbn [fst snd].
  unfold items_sf. rewrite in_flat_map.
  exists (sf, JDict sf_v). split; [exact Hsf|]. cbn [fst snd].
  unfold items_ssf. rewrite in_map_iff. now exists (ssf, x).
Qed.

Lemma flatten_hit_key source k x :
  In (k, x) (items_hit source) -> In k (dict_keys (flatten_hit source)).
Proof.
  intros H. rewrite flatten_hit_items. apply dict_update_keys_new.
  rewrite in_map_iff. now exists (k, x).
Qed.

Lemma items_hit_flat source :
  (forall k v, In (k, v) source -> is_dict v = false) ->
  items_hit source = source.
Proof.
  unfold items_hit. induction source as [|[k v] l IH]; intros H; [reflexivity|].
  cbn [flat_map fst snd]. rewrite IH by (intros; eapply H; right; eauto).
  assert (Hv : is_dict v = false) by (eapply H; left; reflexivity).
  destruct v; try reflexivity. discriminate.
Qed.

(** C6: two levels of nesting are unrolled into dotted paths; whatever sits
    at the third level, a mapping included, is stored as it is.  Every entry
    of the flattened hit is a non-mapping value from the first or second
    level or an arbitrary value from the third, each of those is given a
    key, and a value nested three deep comes out verbatim. *)
Theorem flatten_hit_two_levels (source : dict json) :
  (forall k x, In (k, x) (flatten_hit source) ->
     (In (k, x) source /\ is_dict x = false) \/
     (exists f v sf,
         k = f ++ "." ++ sf /\ In (f, JDict v) source /\ In (sf, x) v /\
         is_dict x = false) \/
     (exists f v sf sf_v ssf,
         k = f ++ "." ++ sf ++ "." ++ ssf /\ In (f, JDict v) source /\
         In (sf, JDict sf_v) v /\ In (ssf, x) sf_v)) /\
  (forall f x, In (f, x) source -> is_dict x = false ->
     In f (dict_keys (flatten_hit source))) /\
  (forall f v sf x, In (f, JDict v) source -> In (sf, x) v -> is_dict x = false ->
     In (f ++ "." ++ sf) (dict_keys (flatten_hit source))) /\
  (forall f v sf sf_v ssf x,
     In (f, JDict v) source -> In (sf, JDict sf_v) v -> In (ssf, x) sf_v ->
     In (f ++ "." ++ sf ++ "." ++ ssf) (dict_keys (flatten_hit source))) /\
  (forall f sf ssf x,
     flatten_hit [(f, JDict [(sf, JDict [(ssf, x)])])]
     = [(f ++ "." ++ sf ++ "." ++ ssf, x)]).
Proof.
  repeat split.
  - intros k x H. rewrite flatten_hit_items in H.
    apply dict_update_in in H. destruct H as [[]|H].
    now apply items_hit_in.
  - intros f x H1 H2. eapply flatten_hit_key, items_hit_leaf; eauto.
  - intros f v sf x H1 H2 H3. eapply flatten_hit_key, items_hit_sf; eauto.
  - intros f v sf sf_v ssf x H1 H2 H3. eapply flatten_hit_key, items_hit_ssf; eauto.
Qed.

(** C8: a hit without nesting keeps its top-level keys (and its values)
    unchanged; a field nested one level deep comes out under
    [parent.child]. *)
Theorem flatten_hit_flat_and_one_level (source : dict json) :
  NoDup (dict_keys source) ->
  (forall k v, In (k, v) source -> is_dict v = false) ->
  dict_keys (flatten_hit source) = dict_keys source /\
  flatten_hit source = source /\
  (forall f sf x, is_dict x = false ->
     flatten_hit [(f, JDict [(sf, x)])] = [(f ++ "." ++ sf, x)]) /\
  flatten_hit [("a", JDict [("b", JInt 1)])] = [("a.b", JInt 1)].
Proof.
  intros Hnd Hflat.
  assert (E : flatten_hit source = source).
  { rewrite flatten_hit_items, items_hit_flat by exact Hflat.
    rewrite dict_update_fresh; [reflexivity | exact Hnd | intros k _ []]. }
  repeat split.
  - now rewrite E.
  - exact E.
  - intros f sf x Hx. destruct x; try reflexivity. discriminate.
Qed.

Lemma flatten_hit_flat_and_one_level_witness :
  dict_keys (flatten_hit [("ts", JStr "2020"); ("n", JInt 3)]) = ["ts"; "n"].
Proof.
  refine (proj1 (flatten_hit_flat_and_one_level
                   [("ts", JStr "2020"); ("n", JInt 3)] _ _)).
  - repeat constructor; simpl; intuition discriminate.
  - intros k v [H|[H|[]]]; injection H as <- <-; reflexivity.
Defined.

(** ** Loops that may raise *)

Lemma raises_only_bind {A B : Type} (P : exn -> Prop) (m : result A)
      (k : A -> result B) :
  raises_only P m -> (forall a, raises_only P (k a)) -> raises_only P (bind m k).
Proof.
  intros Hm Hk e. destruct m as [a|e']; simpl.
  - apply Hk.
  - intros [= <-]. now apply Hm.
Qed.

Lemma raises_only_ok {A : Type} (P : exn -> Prop) (a : A) : raises_only P (Ok a).
Proof. intros e [=]. Qed.

Lemma raises_only_raise {A : Type} (P : exn -> Prop) (e : exn) :
  P e -> raises_only P (@Raise A e).
Proof. intros H e' [= <-]. exact H. Qed.

Lemma raises_only_for_each {A S : Type} (P : exn -> Prop)
      (body : S -> A -> result S) (xs : list A) :
  (forall s x, raises_only P (body s x)) ->
  forall s, raises_only P (for_each xs body s).
Proof.
  intros Hb. induction xs as [|x xs IH]; intros s; simpl.
  - apply raises_only_ok.
  - apply raises_only_bind; [apply Hb | exact IH].
Qed.

(** A pass that raises from every state makes the loop raise, there or
    before. *)
Lemma for_each_raises {A S : Type} (body : S -> A -> result S) (xs : list A) (x : A) :
  In x xs -> (forall s, exists e, body s x = Raise e) ->
  forall s, exists e, for_each xs body s = Raise e.
Proof.
  intros Hin Hx. induction xs as [|y xs IH]; [destruct Hin|].
  intros s. simpl. destruct Hin as [->|Hin].
  - destruct (Hx s) as [e ->]. now exists e.
  - destruct (body s y) as [s'|e]; simpl; [now apply IH | now exists e].
Qed.

Lemma dict_get_in {V : Type} (d : dict V) k v :
  NoDup (dict_keys d) -> In (k, v) d -> dict_get d k = Some v.
Proof.
  induction d as [|[k0 v0] d IH]; simpl; intros Hnd Hin; [destruct Hin|].
  inversion Hnd as [|? ? Hk0 Hnd']; subst.
  destruct Hin as [[= -> ->]|Hin].
  - now rewrite String.eqb_refl.
  - destruct (String.eqb_spec k0 k) as [->|Hne]; [|now apply IH].
    exfalso. apply Hk0. unfold dict_keys. rewrite in_map_iff. now exists (k, v).
Qed.


(** ** SchemaFlattener *)

Lemma get_raises v k : raises_only builtin_error (get v k).
Proof.
  destruct v; simpl; try (apply raises_only_raise; now left).
  destruct (dict_get d k); apply raises_only_ok.
Qed.

Lemma keys_raises v : raises_only builtin_error (keys v).
Proof.
  destruct v; simpl; try (apply raises_only_raise; now left).
  apply raises_only_ok.
Qed.

Lemma field_step_raises mappings fieldlist f :
  raises_only builtin_error (field_step mappings fieldlist f).
Proof.
  unfold field_step.
  apply raises_only_bind; [apply get_raises|]. intros fv.
  apply raises_only_bind; [apply keys_raises|]. intros ks.
  destruct (existsb _ ks); [|apply raises_only_ok].
  apply raises_only_bind; [apply get_raises|]. intros sub.
  apply raises_only_bind; [apply keys_raises|]. intros sks.
  apply raises_only_ok.
Qed.

Lemma field_loop_raises mappings fieldlist :
  raises_only builtin_error (field_loop mappings fieldlist).
Proof.
  destruct mappings as [| | |s|l|d]; simpl;
    try (apply raises_only_raise; now right).
  - destruct s; [apply raises_only_ok | apply raises_only_raise; now left].
  - destruct l; [apply raises_only_ok | apply raises_only_raise; now left].
  - apply raises_only_for_each. intros. apply field_step_raises.
Qed.

(** Whatever the response, the flattening raises nothing but the built-in
    [AttributeError] and [TypeError]. *)
Lemma index_field_names_raises requestjson :
  raises_only builtin_error (index_field_names requestjson).
Proof.
  unfold index_field_names.
  apply raises_only_bind; [apply keys_raises|]. intros ks.
  apply raises_only_for_each. intros fieldlist key. unfold index_step.
  apply raises_only_bind; [apply get_raises|]. intros entry.
  apply raises_only_bind; [apply get_raises|]. intros m.
  apply raises_only_bind; [apply get_raises|]. intros mappings.
  apply field_loop_raises.
Qed.

Lemma index_step_missing schema key entry fieldlist :
  NoDup (dict_keys schema) -> In (key, JDict entry) schema ->
  missing_nested_keys entry = true ->
  exists e, index_step (JDict schema) fieldlist key = Raise e.
Proof.
  intros Hnd Hin Hmiss. unfold index_step. simpl.
  rewrite (dict_get_in _ _ _ Hnd Hin). simpl.
  unfold missing_nested_keys in Hmiss.
  destruct (dict_get entry "mappings") as [m|]; simpl.
  - destruct m; try discriminate. simpl.
    destruct (dict_get d "properties"); [discriminate|]. simpl. eauto.
  - eauto.
Qed.

Lemma existsb_properties {V : Type} (d : dict V) k :
  existsb (String.eqb k) (dict_keys d) = dict_mem d k.
Proof.
  unfold dict_mem. induction d as [|[k0 v0] d IH]; simpl; [reflexivity|].
  rewrite (String.eqb_sym k k0).
  destruct (String.eqb k0 k); simpl; [reflexivity | exact IH].
Qed.

Lemma field_step_ok (properties : dict json) fieldlist f fv :
  NoDup (dict_keys properties) -> In (f, JDict fv) properties ->
  field_ok (JDict fv) = true ->
  field_step (JDict properties) fieldlist f = Ok (fieldlist ++ field_paths f fv)%list.
Proof.
  intros Hnd Hin Hok. unfold field_step. cbn [get bind keys].
  rewrite (dict_get_in _ _ _ Hnd Hin). cbn [get bind keys].
  rewrite existsb_properties. unfold dict_mem, field_paths.
  cbn [field_ok] in Hok.
  destruct (dict_get fv "properties") as [sub|]; cbn [bind]; [|reflexivity].
  destruct sub; try discriminate. reflexivity.
Qed.

Lemma field_loop_ok (properties : dict json) :
  NoDup (dict_keys properties) ->
  (forall f fv, In (f, fv) properties -> field_ok fv = true) ->
  forall fieldlist,
    field_loop (JDict properties) fieldlist
    = Ok (fieldlist ++ index_paths properties)%list.
Proof.
  intros Hnd Hok. simpl.
  assert (G : forall l, incl l properties -> forall fieldlist,
             for_each (dict_keys l) (field_step (JDict properties)) fieldlist
             = Ok (fieldlist ++ index_paths l)%list).
  { induction l as [|[f fv] l IH]; intros Hincl fieldlist; simpl.
    - now rewrite app_nil_r.
    - assert (Hin : In (f, fv) properties) by (apply Hincl; now left).
      pose proof (Hok _ _ Hin) as Hfv.
      destruct fv; try discriminate.
      rewrite (field_step_ok _ _ _ _ Hnd Hin Hfv). simpl.
      rewrite IH by (intros x Hx; apply Hincl; now right).
      unfold index_paths. simpl. now rewrite app_assoc. }
  apply G. apply incl_refl.
Qed.

Lemma index_step_ok schema key entry properties fieldlist :
  NoDup (dict_keys schema) -> In (key, entry) schema ->
  entry_properties entry = Some properties ->
  NoDup (dict_keys properties) ->
  (forall f fv, In (f, fv) properties -> field_ok fv = true) ->
  index_step (JDict schema) fieldlist key
  = Ok (fieldlist ++ index_paths properties)%list.
Proof.
  intros Hnd Hin Hp Hndp Hok. unfold index_step. simpl.
  rewrite (dict_get_in _ _ _ Hnd Hin). simpl.
  unfold entry_properties in Hp.
  destruct entry; try discriminate. simpl.
  destruct (dict_get d "mappings") as [m|]; [|discriminate].
  destruct m; try discriminate. simpl.
  destruct (dict_get d0 "properties") as [p|]; [|discriminate].
  destruct p; try discriminate. injection Hp as ->. simpl.
  now apply field_loop_ok.
Qed.

Lemma index_loop_ok schema :
  NoDup (dict_keys schema) ->
  forall l, incl l schema ->
    (forall key entry, In (key, entry) l ->
       exists properties,
         entry_properties entry = Some properties /\
         NoDup (dict_keys properties) /\
         forall f fv, In (f, fv) properties -> field_ok fv = true) ->
    forall fieldlist,
      for_each (dict_keys l) (index_step (JDict schema)) fieldlist
      = Ok (fieldlist ++ schema_paths l)%list.
Proof.
  intros Hnd. induction l as [|[key entry] l IH]; intros Hincl Hok fieldlist.
  - simpl. now rewrite app_nil_r.
  - destruct (Hok key entry (or_introl eq_refl)) as (p & Hp & Hndp & Hf).
    cbn [dict_keys map fst for_each].
    rewrite (index_step_ok schema key entry p fieldlist Hnd
               (Hincl _ (or_introl eq_refl)) Hp Hndp Hf).
    cbn [bind]. fold (dict_keys l).
    assert (Hincl' : incl l schema) by (intros x Hx; apply Hincl; now right).
    assert (Hok' : forall k e, In (k, e) l ->
              exists properties,
                entry_properties e = Some properties /\
                NoDup (dict_keys properties) /\
                forall f fv, In (f, fv) properties -> field_ok fv = true)
      by (intros k e Hin; apply (Hok k e); now right).
    rewrite (IH Hincl' Hok').
    unfold schema_paths. cbn [flat_map snd]. rewrite Hp.
    now rewrite app_assoc.
Qed.

(** C1 (as the code has it): for a schema response of the expected shape
    the returned sequence is the field paths of each index in turn, index
    after index and field after field, so first-seen order is kept; no path
    is removed, one declared by several indices is listed once for each. *)
Theorem index_field_names_concatenates (schema : dict json) :
  schema_ok schema ->
  index_field_names (JDict schema) = Ok (schema_paths schema) /\
  forall schema1 schema2, schema = (schema1 ++ schema2)%list ->
    schema_paths schema = (schema_paths schema1 ++ schema_paths schema2)%list.
Proof.
  intros [Hnd Hok]. split.
  - unfold index_field_names. cbn [keys bind].
    apply (index_loop_ok schema Hnd schema (incl_refl _) Hok []).
  - intros s1 s2 ->. unfold schema_paths. apply flat_map_app.
Qed.

Lemma two_indices_ok : schema_ok two_indices.
Proof.
  split.
  - repeat constructor; simpl; intuition discriminate.
  - intros key entry [H|[H|[]]]; injection H as <- <-;
      (exists [("ts", JDict [])]; split; [reflexivity|]; split;
       [repeat constructor; simpl; intuition
       | intros f fv [H|[]]; injection H as <- <-; reflexivity]).
Qed.

Lemma index_field_names_concatenates_witness :
  index_field_names (JDict two_indices) = Ok ["ts"; "ts"].
Proof.
  exact (proj1 (index_field_names_concatenates two_indices two_indices_ok)).
Defined.

(** C1 fails as stated: two indices that both declare [ts] give [ts]
    twice. *)
Lemma index_field_names_keeps_duplicates :
  ~ (forall schema paths,
       index_field_names (JDict schema) = Ok paths -> NoDup paths).
Proof.
  intros H. specialize (H two_indices ["ts"; "ts"] eq_refl).
  inversion H as [|? ? Hnin _]. apply Hnin. now left.
Qed.

Lemma for_each_app {A S : Type} (body : S -> A -> result S) (xs ys : list A) :
  forall s,
    for_each (xs ++ ys)%list body s
    = (s' <- for_each xs body s ;; for_each ys body s').
Proof.
  induction xs as [|x xs IH]; intros s; [reflexivity|].
  cbn [app for_each]. destruct (body s x) as [s'|e]; cbn [bind]; [apply IH|].
  reflexivity.
Qed.

(** An index entry without "mappings": [None.get] raises. *)
Lemma index_step_no_mappings schema key entry fieldlist :
  NoDup (dict_keys schema) -> In (key, JDict entry) schema ->
  dict_get entry "mappings" = None ->
  index_step (JDict schema) fieldlist key = Raise AttributeError.
Proof.
  intros Hnd Hin Hm. unfold index_step. cbn [get bind].
  rewrite (dict_get_in _ _ _ Hnd Hin). cbn [get bind]. now rewrite Hm.
Qed.

(** An index entry whose "mappings" has no "properties": [for f in None]
    raises. *)
Lemma index_step_no_properties schema key entry m fieldlist :
  NoDup (dict_keys schema) -> In (key, JDict entry) schema ->
  dict_get entry "mappings" = Some (JDict m) ->
  dict_get m "properties" = None ->
  index_step (JDict schema) fieldlist key = Raise TypeError.
Proof.
  intros Hnd Hin Hm Hp. unfold index_step. cbn [get bind].
  rewrite (dict_get_in _ _ _ Hnd Hin). cbn [get bind]. rewrite Hm.
  cbn [get bind]. now rewrite Hp.
Qed.

(** The first index whose step raises decides what the flattening raises. *)
Lemma index_field_names_first_failure (good rest : dict json) key entry e :
  NoDup (dict_keys (good ++ (key, entry) :: rest)%list) ->
  (forall k v, In (k, v) good ->
     exists properties,
       entry_properties v = Some properties /\
       NoDup (dict_keys properties) /\
       forall f fv, In (f, fv) properties -> field_ok fv = true) ->
  (forall fieldlist,
     index_step (JDict (good ++ (key, entry) :: rest)%list) fieldlist key = Raise e) ->
  index_field_names (JDict (good ++ (key, entry) :: rest)%list) = Raise e.
Proof.
  intros Hnd Hok He. unfold index_field_names. cbn [keys bind].
  unfold dict_keys. rewrite map_app. cbn [map fst].
  rewrite for_each_app. fold (dict_keys good).
  rewrite (index_loop_ok _ Hnd good); [| |exact Hok].
  - cbn [bind for_each]. now rewrite He.
  - intros x Hx. apply in_or_app. now left.
Qed.

(** C5 (as the code has it): an index entry without "mappings", or whose
    "mappings" has no "properties", makes the flattening of the loaded
    response raise; what it raises is the built-in [AttributeError] or
    [TypeError], never an exception named [SchemaFormatError].  When the
    entries before it are well formed it raises [AttributeError] if the
    entry has no "mappings" and [TypeError] if its "mappings" has no
    "properties", whatever else the entry holds and whatever follows it; a
    response with this one index is the case of nothing before and nothing
    after.  Whatever the loaded response, those two are the only exceptions
    the flattening raises. *)
Theorem index_field_names_malformed (schema : dict json) (key : string)
        (entry : dict json) :
  NoDup (dict_keys schema) ->
  In (key, JDict entry) schema ->
  missing_nested_keys entry = true ->
  (exists e,
      index_field_names (JDict schema) = Raise e /\
      (e = AttributeError \/ e = TypeError) /\
      exn_name e <> "SchemaFormatError") /\
  (forall good rest,
      schema = (good ++ (key, JDict entry) :: rest)%list ->
      (forall k v, In (k, v) good ->
         exists properties,
           entry_properties v = Some properties /\
           NoDup (dict_keys properties) /\
           forall f fv, In (f, fv) properties -> field_ok fv = true) ->
      (dict_get entry "mappings" = None ->
       index_field_names (JDict schema) = Raise AttributeError) /\
      (forall m, dict_get entry "mappings" = Some (JDict m) ->
       dict_get m "properties" = None /\
       index_field_names (JDict schema) = Raise TypeError)) /\
  (forall requestjson e,
      index_field_names requestjson = Raise e ->
      e = AttributeError \/ e = TypeError).
Proof.
  intros Hnd Hin Hmiss. split; [|split].
  - assert (Hk : In key (dict_keys schema)).
    { unfold dict_keys. rewrite in_map_iff. now exists (key, JDict entry). }
    destruct (for_each_raises (index_step (JDict schema)) (dict_keys schema) key Hk
                (fun s => index_step_missing schema key entry s Hnd Hin Hmiss) [])
      as [e He].
    exists e. unfold index_field_names. cbn [keys bind]. split; [exact He|].
    assert (Hb : builtin_error e).
    { apply (index_field_names_raises (JDict schema)).
      unfold index_field_names. cbn [keys bind]. exact He. }
    split; [exact Hb|]. destruct Hb as [-> | ->]; discriminate.
  - intros good rest Hs Hok. split.
    + intros Hm. subst schema.
      apply index_field_names_first_failure; [exact Hnd | exact Hok|].
      intros fieldlist. now apply (index_step_no_mappings _ key entry).
    + intros m Hm.
      assert (Hp : dict_get m "properties" = None).
      { unfold missing_nested_keys in Hmiss. rewrite Hm in Hmiss.
        now destruct (dict_get m "properties"). }
      split; [exact Hp|]. subst schema.
      apply index_field_names_first_failure; [exact Hnd | exact Hok|].
      intros fieldlist. now apply (index_step_no_properties _ key entry m).
  - intros requestjson e. apply index_field_names_raises.
Qed.

Lemma index_field_names_malformed_witness :
  index_field_names
    (JDict [("logs", JDict [("mappings", JDict [("properties", JDict [("ts", JDict [])])])]);
            ("idx", JDict [("settings", JDict [])]);
            ("audit", JDict [])])
  = Raise AttributeError /\
  index_field_names
    (JDict [("idx", JDict [("mappings", JDict [("dynamic", JStr "strict")])])])
  = Raise TypeError.
Proof.
  split.
  - refine (proj1 (proj1 (proj2 (index_field_names_malformed
                     [("logs", JDict [("mappings",
                                       JDict [("properties", JDict [("ts", JDict [])])])]);
                      ("idx", JDict [("settings", JDict [])]);
                      ("audit", JDict [])]
                     "idx" [("settings", JDict [])] _ _ _))
                   [("logs", JDict [("mappings",
                                     JDict [("properties", JDict [("ts", JDict [])])])])]
                   [("audit", JDict [])] eq_refl _) eq_refl).
    + repeat constructor; simpl; intuition discriminate.
    + right. now left.
    + reflexivity.
    + intros k v [H|[]]. injection H as <- <-.
      exists [("ts", JDict [])]. split; [reflexivity|]. split.
      * repeat constructor; simpl; intuition.
      * intros f fv [H|[]]. injection H as <- <-. reflexivity.
  - refine (proj2 (proj2 (proj1 (proj2 (index_field_names_malformed
                     [("idx", JDict [("mappings", JDict [("dynamic", JStr "strict")])])]
                     "idx" [("mappings", JDict [("dynamic", JStr "strict")])] _ _ _))
                   [] [] eq_refl _) [("dynamic", JStr "strict")] eq_refl)).
    + repeat constructor; simpl; intuition.
    + now left.
    + reflexivity.
    + intros k v [].
Defined.

(** C5 fails as stated: an index entry without "mappings" raises
    [AttributeError], not an exception named [SchemaFormatError]. *)
Lemma missing_mappings_raises_attribute_error :
  index_field_names (JDict [("idx", JDict [])]) = Raise AttributeError /\
  ~ (exists e,
       index_field_names (JDict [("idx", JDict [])]) = Raise e /\
       exn_name e = "SchemaFormatError").
Proof.
  split; [reflexivity|].
  intros [e [He Hname]]. cbv in He. injection He as <-. discriminate.
Qed.

(** ** ResultProjector *)

Lemma append_rows df other : rows (append df other) = (rows df ++ [other])%list.
Proof. reflexivity. Qed.

Lemma hit_loop_rows (hits : list json) : forall results,
  Forall (fun hit => exists hitdict, hit_row hit = Ok hitdict) hits ->
  exists df added,
    for_each hits hit_step results = Ok df /\
    rows df = (rows results ++ added)%list /\
    Forall2 (fun hit hitdict => hit_row hit = Ok hitdict) hits added.
Proof.
  induction hits as [|hit hits IH]; intros results Hall.
  - exists results, []. simpl. rewrite app_nil_r. repeat split. constructor.
  - inversion Hall as [|? ? [hitdict Hrow] Hall']; subst.
    destruct (IH (append results hitdict) Hall') as (df & added & Hloop & Hrows & Hf2).
    exists df, (hitdict :: added). repeat split.
    + simpl. unfold hit_step at 1. rewrite Hrow. exact Hloop.
    + rewrite Hrows, append_rows, <- app_assoc. reflexivity.
    + now constructor.
Qed.

(** C3: when every hit carries a [_source] mapping, the projection returns
    a table with one row per hit, the rows being the flattened hits in the
    order of the response (none dropped, none merged); an empty hit list
    gives the empty table, with no row and no column. *)
Theorem simple_query_search_rows (requestjson : json) (hits : list json) :
  response_hits requestjson = Ok hits ->
  Forall (fun hit => exists hitdict, hit_row hit = Ok hitdict) hits ->
  exists df,
    simple_query_search requestjson = Ok df /\
    List.length (rows df) = List.length hits /\
    Forall2 (fun hit hitdict => hit_row hit = Ok hitdict) hits (rows df) /\
    (hits = [] -> rows df = [] /\ columns df = []).
Proof.
  intros Hhits Hall.
  destruct (hit_loop_rows hits DataFrame_empty Hall) as (df & added & Hloop & Hrows & Hf2).
  simpl in Hrows. subst added.
  exists df. unfold simple_query_search. rewrite Hhits. cbn [bind].
  repeat split.
  - exact Hloop.
  - symmetry. eapply Forall2_length; eauto.
  - exact Hf2.
  - subst hits. simpl in Hloop. now injection Hloop as <-.
  - subst hits. simpl in Hloop. now injection Hloop as <-.
Qed.

Lemma simple_query_search_rows_witness :
  exists df,
    simple_query_search two_hits = Ok df /\
    List.length (rows df) = List.length two_hits_list /\
    Forall2 (fun hit hitdict => hit_row hit = Ok hitdict) two_hits_list (rows df) /\
    (two_hits_list = [] -> rows df = [] /\ columns df = []).
Proof.
  apply (simple_query_search_rows two_hits two_hits_list).
  - reflexivity.
  - repeat constructor; eexists; reflexivity.
Defined.

Example simple_query_search_two_hits :
  simple_query_search two_hits
  = Ok {| columns := ["user.name"; "ts"];
          rows := [[("user.name", JStr "A")]; [("ts", JStr "2020")]] |}.
Proof. reflexivity. Qed.

Example simple_query_search_no_hits :
  simple_query_search (JDict [("hits", JDict [("hits", JList [])])])
  = Ok {| columns := []; rows := [] |}.
Proof. reflexivity. Qed.

Example index_field_names_spec_scenario :
  index_field_names
    (JDict [("idx", JDict [("mappings", JDict [("properties", JDict
       [("user", JDict [("properties",
                         JDict [("name", JDict []); ("age", JDict [])])]);
        ("ts", JDict [])])])])])
  = Ok ["user.name"; "user.age"; "ts"].
Proof. reflexivity. Qed.

(** ** Stable sorting *)

Lemma filter_cons {A : Type} (q : A -> bool) (a : A) (l : list A) :
  filter q (a :: l) = if q a then a :: filter q l else filter q l.
Proof. reflexivity. Qed.

Lemma filter_none {A : Type} (q : A -> bool) (l : list A) :
  (forall a, In a l -> q a = false) -> filter q l = [].
Proof.
  induction l as [|a l IH]; intros G; [reflexivity|].
  cbn [filter]. rewrite (G a (or_introl eq_refl)).
  apply IH. intros b Hb. apply G. now right.
Qed.

Lemma filter_within {A : Type} (p q : A -> bool) (l : list A) :
  (forall a, In a l -> p a = true -> q a = true) ->
  filter p (filter q l) = filter p l.
Proof.
  induction l as [|a l IH]; intros G; [reflexivity|].
  assert (G' : forall b, In b l -> p b = true -> q b = true)
    by (intros b Hb; apply G; now right).
  cbn [filter]. destruct (q a) eqn:Hq; cbn [filter].
  - destruct (p a); now rewrite IH.
  - destruct (p a) eqn:Hp; [|now apply IH].
    rewrite (G a (or_introl eq_refl) Hp) in Hq. discriminate.
Qed.

Section MergeSortFacts.
Context {A : Type}.
Variable ltb : A -> A -> bool.

Lemma merge_t_nil_l l : merge_t ltb [] l = l.
Proof. destruct l; reflexivity. Qed.

Lemma merge_t_nil_r l : merge_t ltb l [] = l.
Proof. destruct l; reflexivity. Qed.

Lemma merge_t_cons x l1 y l2 :
  merge_t ltb (x :: l1) (y :: l2)
  = if ltb y x then y :: merge_t ltb (x :: l1) l2
    else x :: merge_t ltb l1 (y :: l2).
Proof. reflexivity. Qed.

Lemma msort_t_small n l : List.length l <= 1 -> msort_t ltb n l = l.
Proof.
  destruct n; [reflexivity|].
  destruct l as [|a [|b l]]; simpl; intros H; try reflexivity. lia.
Qed.

Lemma msort_t_S n l :
  2 <= List.length l ->
  msort_t ltb (S n) l
  = merge_t ltb (msort_t ltb n (firstn (Nat.div2 (List.length l)) l))
                (msort_t ltb n (skipn (Nat.div2 (List.length l)) l)).
Proof.
  destruct l as [|a [|b l]]; simpl List.length; intros H; try lia.
  reflexivity.
Qed.

Lemma halves_shorter (l : list A) n :
  2 <= List.length l -> List.length l <= S n ->
  List.length (firstn (Nat.div2 (List.length l)) l) <= n /\
  List.length (skipn (Nat.div2 (List.length l)) l) <= n.
Proof.
  intros H2 Hn. rewrite length_firstn, length_skipn, Nat.div2_div.
  assert (1 <= List.length l / 2) by (apply Nat.div_le_lower_bound; lia).
  assert (List.length l / 2 < List.length l) by (apply Nat.div_lt; lia).
  lia.
Qed.

Lemma merge_t_perm l1 : forall l2,
  Permutation (merge_t ltb l1 l2) (l1 ++ l2).
Proof.
  induction l1 as [|x l1 IH1]; intros l2.
  - now rewrite merge_t_nil_l.
  - induction l2 as [|y l2 IH2].
    + now rewrite merge_t_nil_r, app_nil_r.
    + rewrite merge_t_cons. destruct (ltb y x).
      * rewrite IH2. apply Permutation_middle.
      * rewrite IH1. reflexivity.
Qed.

Lemma msort_t_perm n : forall l, Permutation (msort_t ltb n l) l.
Proof.
  induction n as [|n IH]; intros l; [reflexivity|].
  destruct (le_lt_dec (List.length l) 1) as [Hs|Hl].
  - now rewrite msort_t_small.
  - rewrite msort_t_S by lia. rewrite merge_t_perm, !IH.
    now rewrite firstn_skipn.
Qed.

Lemma mergesort_t_perm l : Permutation (mergesort_t ltb l) l.
Proof. apply msort_t_perm. Qed.

(** The order facts are only asked of the elements that are sorted. *)
Variable D : list A.
Hypothesis ltb_asym :
  forall x y, In x D -> In y D -> ltb x y = true -> ltb y x = false.
Hypothesis ltb_negtrans :
  forall x y z, In x D -> In y D -> In z D ->
    ltb x z = true -> ltb x y = true \/ ltb y z = true.

Lemma ltb_below x y z :
  In x D -> In y D -> In z D ->
  ltb y x = false -> ltb z y = false -> ltb z x = false.
Proof.
  intros Hx Hy Hz H1 H2. destruct (ltb z x) eqn:E; [|reflexivity].
  destruct (ltb_negtrans z y x Hz Hy Hx E); congruence.
Qed.

Lemma merge_t_sorted l1 : forall l2,
  incl l1 D -> incl l2 D ->
  sorted_by ltb l1 -> sorted_by ltb l2 -> sorted_by ltb (merge_t ltb l1 l2).
Proof.
  unfold sorted_by.
  induction l1 as [|x l1 IH1]; intros l2 Hi1 Hi2 Hs1 Hs2.
  - now rewrite merge_t_nil_l.
  - induction l2 as [|y l2 IH2].
    + now rewrite merge_t_nil_r.
    + assert (Hx : In x D) by (apply Hi1; now left).
      assert (Hy : In y D) by (apply Hi2; now left).
      assert (Hi1' : incl l1 D) by (intros a Ha; apply Hi1; now right).
      assert (Hi2' : incl l2 D) by (intros a Ha; apply Hi2; now right).
      apply StronglySorted_inv in Hs1 as Hs1'. destruct Hs1' as [Hs1' Hx1].
      apply StronglySorted_inv in Hs2 as Hs2'. destruct Hs2' as [Hs2' Hy2].
      rewrite Forall_forall in Hx1, Hy2.
      rewrite merge_t_cons. destruct (ltb y x) eqn:E.
      * constructor; [now apply IH2|].
        rewrite Forall_forall. intros a Ha.
        apply (Permutation_in _ (merge_t_perm (x :: l1) l2)) in Ha.
        apply in_app_or in Ha. destruct Ha as [Ha|Ha]; [|now apply Hy2].
        assert (Hyx : ltb x y = false) by now apply ltb_asym.
        destruct Ha as [<-|Ha]; [exact Hyx|].
        apply (ltb_below y x a); auto.
      * constructor; [now apply IH1|].
        rewrite Forall_forall. intros a Ha.
        apply (Permutation_in _ (merge_t_perm l1 (y :: l2))) in Ha.
        apply in_app_or in Ha. destruct Ha as [Ha|Ha]; [now apply Hx1|].
        destruct Ha as [<-|Ha]; [exact E|].
        apply (ltb_below x y a); auto.
Qed.

Lemma msort_t_incl n l : incl l D -> incl (msort_t ltb n l) D.
Proof.
  intros Hi a Ha. apply Hi.
  now apply (Permutation_in _ (msort_t_perm n l)).
Qed.

Lemma incl_firstn (l : list A) h : incl l D -> incl (firstn h l) D.
Proof.
  intros Hi a Ha. apply Hi. rewrite <- (firstn_skipn h l).
  apply in_or_app. now left.
Qed.

Lemma incl_skipn (l : list A) h : incl l D -> incl (skipn h l) D.
Proof.
  intros Hi a Ha. apply Hi. rewrite <- (firstn_skipn h l).
  apply in_or_app. now right.
Qed.

Lemma msort_t_sorted n : forall l,
  List.length l <= n -> incl l D -> sorted_by ltb (msort_t ltb n l).
Proof.
  induction n as [|n IH]; intros l Hn Hi.
  - destruct l; [constructor | simpl in Hn; lia].
  - destruct (le_lt_dec (List.length l) 1) as [Hs|Hl].
    + rewrite msort_t_small by exact Hs.
      destruct l as [|a [|b l]]; [constructor | | simpl in Hs; lia].
      constructor; constructor.
    + rewrite msort_t_S by lia.
      destruct (halves_shorter l n) as [H1 H2]; [lia | exact Hn |].
      apply merge_t_sorted.
      * apply msort_t_incl. now apply incl_firstn.
      * apply msort_t_incl. now apply incl_skipn.
      * apply IH; [exact H1 | now apply incl_firstn].
      * apply IH; [exact H2 | now apply incl_skipn].
Qed.

(** Stability: a class [q] of elements none of which is below another
    keeps its order. *)
Variable q : A -> bool.
Hypothesis q_tied :
  forall x y, In x D -> In y D -> q x = true -> q y = true -> ltb x y = false.

Lemma merge_t_filter l1 : forall l2,
  incl l1 D -> incl l2 D -> sorted_by ltb l1 ->
  filter q (merge_t ltb l1 l2) = (filter q l1 ++ filter q l2)%list.
Proof.
  unfold sorted_by.
  induction l1 as [|x l1 IH1]; intros l2 Hi1 Hi2 Hs1.
  - now rewrite merge_t_nil_l.
  - induction l2 as [|y l2 IH2].
    + now rewrite merge_t_nil_r, app_nil_r.
    + assert (Hx : In x D) by (apply Hi1; now left).
      assert (Hy : In y D) by (apply Hi2; now left).
      assert (Hi1' : incl l1 D) by (intros a Ha; apply Hi1; now right).
      assert (Hi2' : incl l2 D) by (intros a Ha; apply Hi2; now right).
      apply StronglySorted_inv in Hs1 as Hs1'. destruct Hs1' as [Hs1' Hx1].
      rewrite Forall_forall in Hx1.
      rewrite merge_t_cons. destruct (ltb y x) eqn:E.
      * rewrite (filter_cons q y (merge_t ltb (x :: l1) l2)).
        rewrite (filter_cons q y l2), (IH2 Hi2').
        destruct (q y) eqn:Hqy; [|reflexivity].
        assert (Hnone : filter q (x :: l1) = []).
        { assert (G : forall a, In a (x :: l1) -> q a = false).
          { intros a Ha. destruct (q a) eqn:Hqa; [exfalso|reflexivity].
            assert (HaD : In a D) by now apply Hi1.
            assert (Hax : ltb a x = false).
            { destruct Ha as [Hxa|Ha]; [|now apply Hx1].
              rewrite <- Hxa.
              destruct (ltb x x) eqn:Exx; [|reflexivity].
              rewrite (ltb_asym x x Hx Hx Exx) in Exx. discriminate. }
            destruct (ltb_negtrans y a x Hy HaD Hx E) as [H|H].
            - rewrite (q_tied y a Hy HaD Hqy Hqa) in H. discriminate.
            - congruence. }
          now apply filter_none. }
        rewrite Hnone. reflexivity.
      * rewrite (filter_cons q x (merge_t ltb l1 (y :: l2))).
        rewrite (filter_cons q x l1), (IH1 (y :: l2) Hi1' Hi2 Hs1').
        destruct (q x); reflexivity.
Qed.

Lemma msort_t_filter n : forall l,
  List.length l <= n -> incl l D ->
  filter q (msort_t ltb n l) = filter q l.
Proof.
  induction n as [|n IH]; intros l Hn Hi; [reflexivity|].
  destruct (le_lt_dec (List.length l) 1) as [Hs|Hl].
  - now rewrite msort_t_small.
  - rewrite msort_t_S by lia.
    destruct (halves_shorter l n) as [H1 H2]; [lia | exact Hn |].
    rewrite merge_t_filter.
    + rewrite !IH by (auto using incl_firstn, incl_skipn).
      now rewrite <- filter_app, firstn_skipn.
    + apply msort_t_incl. now apply incl_firstn.
    + apply msort_t_incl. now apply incl_skipn.
    + apply msort_t_sorted; [exact H1 | now apply incl_firstn].
Qed.
End MergeSortFacts.

Section MergeSortRaise.
Context {A : Type}.
Variable lt : A -> A -> result bool.
Variable D : list A.
Hypothesis lt_comparable : comparable_on lt D.

Lemma merge_nil_l l : merge lt [] l = Ok l.
Proof. destruct l; reflexivity. Qed.

Lemma merge_nil_r l : merge lt l [] = Ok l.
Proof. destruct l; reflexivity. Qed.

Lemma merge_cons x l1 y l2 :
  merge lt (x :: l1) (y :: l2)
  = (b <- lt y x ;;
     if b : bool
     then (r <- merge lt (x :: l1) l2 ;; Ok (y :: r))
     else (r <- merge lt l1 (y :: l2) ;; Ok (x :: r))).
Proof. reflexivity. Qed.

(** Where the comparison does not raise, the sort is the total one. *)
Lemma merge_ok l1 : forall l2,
  incl l1 D -> incl l2 D ->
  merge lt l1 l2 = Ok (merge_t (ltb_of lt) l1 l2).
Proof.
  induction l1 as [|x l1 IH1]; intros l2 Hi1 Hi2.
  - now rewrite merge_nil_l, merge_t_nil_l.
  - induction l2 as [|y l2 IH2].
    + now rewrite merge_nil_r, merge_t_nil_r.
    + assert (Hx : In x D) by (apply Hi1; now left).
      assert (Hy : In y D) by (apply Hi2; now left).
      assert (Hi1' : incl l1 D) by (intros a Ha; apply Hi1; now right).
      assert (Hi2' : incl l2 D) by (intros a Ha; apply Hi2; now right).
      rewrite merge_cons, merge_t_cons. unfold ltb_of at 1.
      destruct (lt_comparable y x Hy Hx) as [b ->]. cbn [bind].
      destruct b.
      * now rewrite (IH2 Hi2').
      * now rewrite (IH1 (y :: l2) Hi1' Hi2).
Qed.

Lemma msort_ok n : forall l,
  incl l D -> msort lt n l = Ok (msort_t (ltb_of lt) n l).
Proof.
  induction n as [|n IH]; intros l Hi; [reflexivity|].
  destruct l as [|a [|b l]]; try reflexivity.
  set (l0 := a :: b :: l) in *.
  change (msort lt (S n) l0)
    with (x <- msort lt n (firstn (Nat.div2 (List.length l0)) l0) ;;
          y <- msort lt n (skipn (Nat.div2 (List.length l0)) l0) ;;
          merge lt x y).
  change (msort_t (ltb_of lt) (S n) l0)
    with (merge_t (ltb_of lt)
            (msort_t (ltb_of lt) n (firstn (Nat.div2 (List.length l0)) l0))
            (msort_t (ltb_of lt) n (skipn (Nat.div2 (List.length l0)) l0))).
  rewrite !IH by (auto using incl_firstn, incl_skipn). cbn [bind].
  apply merge_ok; apply msort_t_incl; auto using incl_firstn, incl_skipn.
Qed.

Lemma mergesort_ok l :
  incl l D -> mergesort lt l = Ok (mergesort_t (ltb_of lt) l).
Proof. apply msort_ok. Qed.

Lemma ltb_of_true x y :
  In x D -> In y D -> ltb_of lt x y = true <-> lt x y = Ok true.
Proof.
  intros Hx Hy. unfold ltb_of.
  destruct (lt_comparable x y Hx Hy) as [b ->]. split; congruence.
Qed.

Lemma ltb_of_false x y :
  In x D -> In y D -> ltb_of lt x y = false <-> lt x y = Ok false.
Proof.
  intros Hx Hy. unfold ltb_of.
  destruct (lt_comparable x y Hx Hy) as [b ->]. split; congruence.
Qed.
End MergeSortRaise.

Lemma strict_weak_order_asym {A : Type} (lt : A -> A -> result bool) D :
  strict_weak_order_on lt D ->
  forall x y, In x D -> In y D -> ltb_of lt x y = true -> ltb_of lt y x = false.
Proof.
  intros (Hc & Ha & Hn) x y Hx Hy H.
  apply (ltb_of_false lt D Hc); auto. apply Ha; auto.
  now apply (ltb_of_true lt D Hc).
Qed.

Lemma strict_weak_order_negtrans {A : Type} (lt : A -> A -> result bool) D :
  strict_weak_order_on lt D ->
  forall x y z, In x D -> In y D -> In z D ->
    ltb_of lt x z = true -> ltb_of lt x y = true \/ ltb_of lt y z = true.
Proof.
  intros (Hc & Ha & Hn) x y z Hx Hy Hz H.
  apply (ltb_of_true lt D Hc) in H; auto.
  destruct (Hn x y z Hx Hy Hz H) as [H'|H']; [left|right];
    now apply (ltb_of_true lt D Hc).
Qed.

Lemma strict_weak_order_on_incl {A : Type} (lt : A -> A -> result bool) D D' :
  (forall x, In x D' -> In x D) ->
  strict_weak_order_on lt D -> strict_weak_order_on lt D'.
Proof.
  intros Hi (Hc & Ha & Hn). repeat split.
  - intros x y Hx Hy. apply Hc; auto.
  - intros x y Hx Hy. apply Ha; auto.
  - intros x y z Hx Hy Hz. apply Hn; auto.
Qed.

(** ** TableSorter *)

Section SortValuesFacts.
Variable cell_lt : json -> json -> result bool.
Variable df : DataFrame.
Variable header : string.

Let lt := row_lt cell_lt header.
Let present := non_nan_rows df header.

Lemma existsb_header : In header (columns df) ->
  existsb (String.eqb header) (columns df) = true.
Proof.
  intros H. apply existsb_exists. exists header. split; [exact H|].
  apply String.eqb_refl.
Qed.

Lemma sort_values_ok ascending :
  In header (columns df) -> comparable_on lt present ->
  sort_values cell_lt df header ascending
  = Ok {| columns := columns df;
          rows := (sorted_rows cell_lt df header ascending ++ nan_rows df header)%list |}.
Proof.
  intros Hcol Hc. unfold sort_values. rewrite (existsb_header Hcol).
  fold (non_nan_rows df header). fold (nan_rows df header).
  unfold sorted_rows. destruct ascending.
  - rewrite (mergesort_ok _ present Hc) by apply incl_refl. reflexivity.
  - rewrite (mergesort_ok _ (rev present)).
    + reflexivity.
    + intros x y Hx Hy. apply Hc; now apply in_rev.
    + apply incl_refl.
Qed.

Lemma sorted_rows_perm ascending :
  Permutation (sorted_rows cell_lt df header ascending) present.
Proof.
  unfold sorted_rows. destruct ascending.
  - apply mergesort_t_perm.
  - rewrite <- Permutation_rev, mergesort_t_perm.
    symmetry. apply Permutation_rev.
Qed.

Lemma rows_split : Permutation (rows df) (present ++ nan_rows df header).
Proof.
  unfold present, non_nan_rows, nan_rows.
  induction (rows df) as [|r l IH]; [reflexivity|].
  cbn [filter]. destruct (isna (cell header r)); cbn [negb].
  - rewrite IH at 1. apply Permutation_middle.
  - cbn [app]. now constructor.
Qed.

(** A class of rows with one value under [header] keeps its order. *)
Lemma sorted_rows_stable ascending (p : dict json -> bool) (v : json) :
  strict_weak_order_on lt present ->
  (forall r, p r = true -> cell header r = v) ->
  filter p (sorted_rows cell_lt df header ascending) = filter p present.
Proof.
  intros Hswo Hp.
  assert (Htied : forall D, (forall x, In x D -> In x present) ->
            forall x y, In x D -> In y D -> p x = true -> p y = true ->
              ltb_of lt x y = false).
  { intros D HD x y Hx Hy Hpx Hpy.
    assert (E : ltb_of lt x y = ltb_of lt x x).
    { unfold ltb_of, lt, row_lt. now rewrite (Hp x Hpx), (Hp y Hpy). }
    rewrite E. destruct (ltb_of lt x x) eqn:Exx; [|reflexivity].
    rewrite (strict_weak_order_asym lt present Hswo x x) in Exx; auto. }
  unfold sorted_rows. destruct ascending.
  - apply (msort_t_filter (ltb_of lt) present
             (strict_weak_order_asym lt present Hswo)
             (strict_weak_order_negtrans lt present Hswo)
             p (Htied present (fun x H => H))).
    + apply Nat.le_refl.
    + apply incl_refl.
  - assert (Hrev : forall x, In x (rev present) -> In x present)
      by (intros x Hx; now apply in_rev).
    pose proof (strict_weak_order_on_incl lt present (rev present) Hrev Hswo)
      as Hswo'.
    rewrite filter_rev. unfold mergesort_t.
    rewrite (msort_t_filter (ltb_of lt) (rev present)
               (strict_weak_order_asym lt _ Hswo')
               (strict_weak_order_negtrans lt _ Hswo')
               p (Htied (rev present) Hrev)).
    + now rewrite filter_rev, rev_involutive.
    + apply Nat.le_refl.
    + apply incl_refl.
Qed.
End SortValuesFacts.

Section MergeRaisePerm.
Context {A : Type}.
Variable lt : A -> A -> result bool.

(** Whatever the comparison answers, a sort that returns has only moved
    the elements. *)
Lemma merge_perm l1 : forall l2 r,
  merge lt l1 l2 = Ok r -> Permutation r (l1 ++ l2).
Proof.
  induction l1 as [|x l1 IH1]; intros l2 r.
  - rewrite merge_nil_l. now intros [= <-].
  - induction l2 as [|y l2 IH2] in r |- *.
    + rewrite merge_nil_r, app_nil_r. now intros [= <-].
    + rewrite merge_cons. destruct (lt y x) as [[|]|e]; cbn [bind].
      * destruct (merge lt (x :: l1) l2) as [r'|e] eqn:E; cbn [bind];
          intros [= <-].
        rewrite (IH2 r' eq_refl). apply Permutation_middle.
      * destruct (merge lt l1 (y :: l2)) as [r'|e] eqn:E; cbn [bind];
          intros [= <-].
        now rewrite (IH1 (y :: l2) r' E).
      * discriminate.
Qed.

Lemma msort_perm n : forall l r, msort lt n l = Ok r -> Permutation r l.
Proof.
  induction n as [|n IH]; intros l r.
  - simpl. now intros [= <-].
  - destruct l as [|a [|b l]]; try (simpl; now intros [= <-]).
    set (l0 := a :: b :: l).
    change (msort lt (S n) l0)
      with (x <- msort lt n (firstn (Nat.div2 (List.length l0)) l0) ;;
            y <- msort lt n (skipn (Nat.div2 (List.length l0)) l0) ;;
            merge lt x y).
    destruct (msort lt n (firstn _ l0)) as [x|e] eqn:E1; cbn [bind];
      [|discriminate].
    destruct (msort lt n (skipn _ l0)) as [y|e] eqn:E2; cbn [bind];
      [|discriminate].
    intros Hm. rewrite (merge_perm _ _ _ Hm), (IH _ _ E1), (IH _ _ E2).
    now rewrite firstn_skipn.
Qed.

Lemma mergesort_perm l r : mergesort lt l = Ok r -> Permutation r l.
Proof. apply msort_perm. Qed.
End MergeRaisePerm.

Lemma sort_values_perm cell_lt df header ascending d :
  sort_values cell_lt df header ascending = Ok d ->
  Permutation (rows df) (rows d) /\ columns d = columns df.
Proof.
  unfold sort_values.
  destruct (existsb (String.eqb header) (columns df)); [|discriminate].
  fold (non_nan_rows df header). fold (nan_rows df header).
  destruct ascending.
  - destruct (mergesort _ (non_nan_rows df header)) as [s|e] eqn:E; cbn [bind];
      intros [= <-]; cbn [rows columns]. split; [|reflexivity].
    rewrite (mergesort_perm _ _ _ E). apply rows_split.
  - destruct (mergesort _ (rev (non_nan_rows df header))) as [s|e] eqn:E;
      cbn [bind]; intros [= <-]; cbn [rows columns]. split; [|reflexivity].
    rewrite <- Permutation_rev, (mergesort_perm _ _ _ E), <- Permutation_rev.
    apply rows_split.
Qed.

Lemma in_non_nan_rows df header r :
  In r (non_nan_rows df header) -> isna (cell header r) = false.
Proof.
  unfold non_nan_rows. rewrite filter_In. intros [_ H].
  now apply negb_true_iff.
Qed.

Lemma in_nan_rows df header r :
  In r (nan_rows df header) -> isna (cell header r) = true.
Proof. unfold nan_rows. rewrite filter_In. now intros [_ H]. Qed.

Lemma sorted_rows_present cell_lt df header ascending r :
  In r (sorted_rows cell_lt df header ascending) -> isna (cell header r) = false.
Proof.
  intros H. apply (in_non_nan_rows df header).
  now apply (Permutation_in _ (sorted_rows_perm cell_lt df header ascending)).
Qed.

Lemma sort_values_stable cell_lt df header ascending (p : dict json -> bool) v :
  strict_weak_order_on (row_lt cell_lt header) (non_nan_rows df header) ->
  (forall r, p r = true -> cell header r = v) ->
  filter p (sorted_rows cell_lt df header ascending ++ nan_rows df header)
  = filter p (rows df).
Proof.
  intros Hswo Hp. rewrite filter_app.
  destruct (isna v) eqn:Hv.
  - rewrite filter_none.
    + cbn [app]. unfold nan_rows. apply filter_within.
      intros r _ Hr. now rewrite (Hp r Hr).
    + intros r Hr. destruct (p r) eqn:Hpr; [|reflexivity].
      apply sorted_rows_present in Hr. rewrite (Hp r Hpr) in Hr. congruence.
  - rewrite (sorted_rows_stable cell_lt df header ascending p v Hswo Hp).
    rewrite (filter_none p (nan_rows df header)).
    + rewrite app_nil_r. unfold non_nan_rows. apply filter_within.
      intros r _ Hr. now rewrite (Hp r Hr), Hv.
    + intros r Hr. destruct (p r) eqn:Hpr; [|reflexivity].
      apply in_nan_rows in Hr. rewrite (Hp r Hpr) in Hr. congruence.
Qed.

(** C4: both column sorts are stable.  When [<] is a strict weak order on
    the values of the column, each sort returns, and any rows that share one
    value in the column (the rows without a value included) stand after the
    sort in the order they had before it. *)
Theorem column_sort_stable (cell_lt : json -> json -> result bool)
        (df : DataFrame) (header : string) :
  In header (columns df) ->
  strict_weak_order_on (row_lt cell_lt header) (non_nan_rows df header) ->
  exists asc desc,
    column_sort_asc cell_lt df header = Ok asc /\
    column_sort_desc cell_lt df header = Ok desc /\
    forall (v : json) (p : dict json -> bool),
      (forall r, p r = true -> cell header r = v) ->
      filter p (rows asc) = filter p (rows df) /\
      filter p (rows desc) = filter p (rows df).
Proof.
  intros Hcol Hswo. pose proof Hswo as (Hc & _ & _).
  eexists. eexists. unfold column_sort_asc, column_sort_desc.
  rewrite !sort_values_ok by assumption.
  split; [reflexivity|]. split; [reflexivity|].
  intros v p Hp. cbn [rows]. split; now apply (sort_values_stable _ _ _ _ p v).
Qed.

(** C7: in both directions the rows without a value in the column come
    last, and they never reach the comparison: the sort returns as soon as
    [<] does not raise between the values that are there. *)
Theorem column_sort_missing_last (cell_lt : json -> json -> result bool)
        (df : DataFrame) (header : string) :
  In header (columns df) ->
  comparable_on (row_lt cell_lt header) (non_nan_rows df header) ->
  exists asc desc front_asc front_desc,
    column_sort_asc cell_lt df header = Ok asc /\
    column_sort_desc cell_lt df header = Ok desc /\
    rows asc = (front_asc ++ nan_rows df header)%list /\
    rows desc = (front_desc ++ nan_rows df header)%list /\
    Forall (fun r => isna (cell header r) = false) front_asc /\
    Forall (fun r => isna (cell header r) = false) front_desc /\
    Forall (fun r => isna (cell header r) = true) (nan_rows df header).
Proof.
  intros Hcol Hc.
  eexists. eexists.
  exists (sorted_rows cell_lt df header true), (sorted_rows cell_lt df header false).
  unfold column_sort_asc, column_sort_desc.
  rewrite !sort_values_ok by assumption.
  repeat split; try reflexivity; rewrite Forall_forall; intros r Hr.
  - now apply sorted_rows_present in Hr.
  - now apply sorted_rows_present in Hr.
  - now apply in_nan_rows in Hr.
Qed.

(** C10: a sort that returns has only permuted the rows and has left the
    columns as they were; and it does return when the column is one of the
    table's and [<] does not raise between its values. *)
Theorem column_sort_permutes (cell_lt : json -> json -> result bool)
        (df : DataFrame) (header : string) :
  (forall d, column_sort_asc cell_lt df header = Ok d ->
     Permutation (rows df) (rows d) /\ columns d = columns df) /\
  (forall d, column_sort_desc cell_lt df header = Ok d ->
     Permutation (rows df) (rows d) /\ columns d = columns df) /\
  (In header (columns df) ->
   comparable_on (row_lt cell_lt header) (non_nan_rows df header) ->
   exists asc desc,
     column_sort_asc cell_lt df header = Ok asc /\
     column_sort_desc cell_lt df header = Ok desc).
Proof.
  repeat split.
  - now apply (sort_values_perm cell_lt df header true d).
  - now apply (sort_values_perm cell_lt df header true d).
  - now apply (sort_values_perm cell_lt df header false d).
  - now apply (sort_values_perm cell_lt df header false d).
  - intros Hcol Hc. eexists. eexists.
    unfold column_sort_asc, column_sort_desc.
    rewrite !sort_values_ok by assumption. split; reflexivity.
Qed.

Ltac in_cases H :=
  vm_compute in H;
  repeat (destruct H as [H|H]; [subst|]); try contradiction.

Lemma sample_table_order :
  strict_weak_order_on (row_lt int_lt "k") (non_nan_rows sample_table "k").
Proof.
  repeat split.
  - intros x y Hx Hy. in_cases Hx; in_cases Hy; eexists; reflexivity.
  - intros x y Hx Hy. in_cases Hx; in_cases Hy; vm_compute; congruence.
  - intros x y z Hx Hy Hz.
    in_cases Hx; in_cases Hy; in_cases Hz; vm_compute; intros [=]; auto.
Qed.

Lemma column_sort_stable_witness :
  exists asc desc,
    column_sort_asc int_lt sample_table "k" = Ok asc /\
    column_sort_desc int_lt sample_table "k" = Ok desc /\
    forall (v : json) (p : dict json -> bool),
      (forall r, p r = true -> cell "k" r = v) ->
      filter p (rows asc) = filter p (rows sample_table) /\
      filter p (rows desc) = filter p (rows sample_table).
Proof.
  apply (column_sort_stable int_lt sample_table "k").
  - simpl. auto.
  - exact sample_table_order.
Defined.

Lemma column_sort_missing_last_witness :
  exists asc desc front_asc front_desc,
    column_sort_asc int_lt sample_table "k" = Ok asc /\
    column_sort_desc int_lt sample_table "k" = Ok desc /\
    rows asc = (front_asc ++ nan_rows sample_table "k")%list /\
    rows desc = (front_desc ++ nan_rows sample_table "k")%list /\
    Forall (fun r => isna (cell "k" r) = false) front_asc /\
    Forall (fun r => isna (cell "k" r) = false) front_desc /\
    Forall (fun r => isna (cell "k" r) = true) (nan_rows sample_table "k").
Proof.
  apply (column_sort_missing_last int_lt sample_table "k").
  - simpl. auto.
  - exact (proj1 sample_table_order).
Defined.

Example column_sort_asc_sample :
  column_sort_asc int_lt sample_table "k"
  = Ok {| columns := ["k"; "id"];
          rows := [[("k", JInt 1); ("id", JStr "z")];
                   [("k", JInt 1); ("id", JStr "w")];
                   [("k", JInt 2); ("id", JStr "x")];
                   [("id", JStr "y")];
                   [("k", JNull); ("id", JStr "n")]] |}.
Proof. reflexivity. Qed.

Example column_sort_desc_sample :
  column_sort_desc int_lt sample_table "k"
  = Ok {| columns := ["k"; "id"];
          rows := [[("k", JInt 2); ("id", JStr "x")];
                   [("k", JInt 1); ("id", JStr "z")];
                   [("k", JInt 1); ("id", JStr "w")];
                   [("id", JStr "y")];
                   [("k", JNull); ("id", JStr "n")]] |}.
Proof. reflexivity. Qed.

Example column_sort_asc_spec_scenario :
  column_sort_asc int_lt
    {| columns := ["k"; "id"];
       rows := [[("k", JInt 1); ("id", JStr "x")];
                [("k", JInt 1); ("id", JStr "y")]] |} "k"
  = Ok {| columns := ["k"; "id"];
          rows := [[("k", JInt 1); ("id", JStr "x")];
                   [("k", JInt 1); ("id", JStr "y")]] |}.
Proof. reflexivity. Qed.

(** ** Strings *)

Lemma append_assoc (a b c : string) : (a ++ b) ++ c = a ++ (b ++ c).
Proof. induction a as [|x a IH]; simpl; [reflexivity | now rewrite IH]. Qed.

Lemma append_nil_r (a : string) : a ++ "" = a.
Proof. induction a as [|x a IH]; simpl; [reflexivity | now rewrite IH]. Qed.

Lemma length_append (a b : string) :
  String.length (a ++ b) = String.length a + String.length b.
Proof. induction a as [|x a IH]; simpl; [reflexivity | now rewrite IH]. Qed.

Ltac each_char c :=
  destruct c as [[|] [|] [|] [|] [|] [|] [|] [|]].

(** ** Numbers *)

Lemma to_uint_shape (p : positive) :
  Pos.to_uint p <> Decimal.Nil /\
  forall d', Pos.to_uint p = Decimal.D0 d' -> d' = Decimal.Nil.
Proof.
  split; [apply DecimalPos.Unsigned.to_uint_nonnil|].
  intros d' E. exfalso.
  pose proof (DecimalPos.Unsigned.to_of (Pos.to_uint p)) as H.
  rewrite DecimalPos.Unsigned.of_to in H. cbn [N.to_uint] in H.
  unfold Decimal.unorm in H.
  destruct (Decimal.nzhead (Pos.to_uint p)) eqn:En.
  - now apply DecimalPos.Unsigned.to_uint_nonzero in H.
  - now apply DecimalFacts.nzhead_nonzero in En.
  - rewrite E in H. discriminate.
  - rewrite E in H. discriminate.
  - rewrite E in H. discriminate.
  - rewrite E in H. discriminate.
  - rewrite E in H. discriminate.
  - rewrite E in H. discriminate.
  - rewrite E in H. discriminate.
  - rewrite E in H. discriminate.
  - rewrite E in H. discriminate.
Qed.

Lemma of_uint_to_uint (p : positive) : Z.of_uint (Pos.to_uint p) = Z.pos p.
Proof. unfold Z.of_uint. now rewrite DecimalPos.Unsigned.of_to. Qed.

(** ** The shape of a serialized value *)

Lemma json_dumps_list l :
  json_dumps (JList l) = "[" ++ join ", " (map json_dumps l) ++ "]".
Proof. reflexivity. Qed.

Lemma json_dumps_dict d :
  json_dumps (JDict d) = "{" ++ join ", " (map pair_text d) ++ "}".
Proof.
  cbn [json_dumps]. do 3 f_equal.
  apply map_ext. now intros [k x].
Qed.

(** ** Splitting on commas *)

Lemma split_nonempty sep s : split sep s <> [].
Proof.
  destruct s as [|c s]; cbn [split]; [discriminate|].
  destruct (Ascii.eqb c sep); [discriminate|].
  destruct (split sep s); discriminate.
Qed.

Lemma join_cons_cons sep x y l :
  join sep (x :: y :: l) = x ++ sep ++ join sep (y :: l).
Proof. reflexivity. Qed.

(** Joining the pieces with the separator gives the string back. *)
Lemma join_split sep s : join (String sep "") (split sep s) = s.
Proof.
  induction s as [|c s IH]; [reflexivity|].
  cbn [split]. destruct (Ascii.eqb_spec c sep) as [->|Hne].
  - pose proof (split_nonempty sep s) as Hn.
    destruct (split sep s) as [|w ws]; [contradiction|].
    rewrite join_cons_cons, IH. reflexivity.
  - pose proof (split_nonempty sep s) as Hn.
    destruct (split sep s) as [|w ws]; [contradiction|].
    destruct ws as [|w' ws].
    + cbn [join] in *. now rewrite IH.
    + rewrite join_cons_cons in *.
      change (String c (w ++ String sep "" ++ join (String sep "") (w' :: ws))
              = String c s).
      now rewrite IH.
Qed.

(** No piece contains the separator. *)
Lemma split_pieces sep s :
  Forall (fun w => ~ In sep (list_ascii_of_string w)) (split sep s).
Proof.
  induction s as [|c s IH]; cbn [split].
  - constructor; [intros [] | constructor].
  - destruct (Ascii.eqb_spec c sep) as [->|Hne].
    + constructor; [intros [] | exact IH].
    + destruct (split sep s) as [|w ws].
      * constructor; [|constructor]. cbn. intuition.
      * inversion IH as [|? ? Hw Hws]; subst.
        constructor; [|exact Hws]. cbn. intuition.
Qed.

(** ** RequestBuilder *)

Lemma request_body_shape search_term fields :
  request_body search_term fields
  = JDict [("_source", JList (map JStr (split ","%char fields)));
           ("size", JInt 100);
           ("query", JDict [("multi_match", JDict [("query", JStr search_term)])])].
Proof. reflexivity. Qed.

Example request_builder_text :
  request_builder "error" "user.name,ts"
  = "{" ++ encode_basestring_ascii "_source" ++ ": ["
        ++ encode_basestring_ascii "user.name" ++ ", "
        ++ encode_basestring_ascii "ts" ++ "], "
        ++ encode_basestring_ascii "size" ++ ": 100, "
        ++ encode_basestring_ascii "query" ++ ": {"
        ++ encode_basestring_ascii "multi_match" ++ ": {"
        ++ encode_basestring_ascii "query" ++ ": "
        ++ encode_basestring_ascii "error" ++ "}}}".
Proof. reflexivity. Qed.

(** ** Full strings: [scanstring] reads back what [uencode_basestring_ascii] wrote *)

Section FullStrFacts.
Local Open Scope N_scope.
Local Open Scope list_scope.

Lemma hex_digit_value (d : N) : d < 16 -> hex_value (uhex_digit d) = Some d.
Proof.
  intros H.
  assert (C : d = 0 \/ d = 1 \/ d = 2 \/ d = 3 \/ d = 4 \/ d = 5 \/ d = 6 \/ d = 7
              \/ d = 8 \/ d = 9 \/ d = 10 \/ d = 11 \/ d = 12 \/ d = 13
              \/ d = 14 \/ d = 15) by lia.
  repeat (destruct C as [->|C]; [reflexivity|]). now subst.
Qed.

Lemma hex_digits_sum (n : N) :
  n < 65536 ->
  (((n / 4096) mod 16 * 16 + (n / 256) mod 16) * 16 + (n / 16) mod 16) * 16
  + n mod 16 = n.
Proof.
  intros H.
  pose proof (N.div_mod n 16 ltac:(lia)) as H1.
  pose proof (N.div_mod (n / 16) 16 ltac:(lia)) as H2.
  pose proof (N.div_mod (n / 16 / 16) 16 ltac:(lia)) as H3.
  rewrite !N.Div0.div_div in *.
  change (16 * 16) with 256 in *. change (256 * 16) with 4096 in *.
  pose proof (N.mod_lt n 16 ltac:(lia)).
  pose proof (N.mod_lt (n / 16) 16 ltac:(lia)).
  pose proof (N.mod_lt (n / 256) 16 ltac:(lia)).
  assert (n / 4096 < 16) by (apply N.Div0.div_lt_upper_bound; lia).
  rewrite (N.mod_small (n / 4096)) by lia.
  lia.
Qed.

(** The four digits [u_escape] writes give the number back. *)
Lemma hex4_value_escape (n : N) (T : ustr) :
  n < 65536 ->
  exists h1 h2 h3 h4,
    u_escape n ++ T = 92 :: 117 :: h1 :: h2 :: h3 :: h4 :: T /\
    hex4_value h1 h2 h3 h4 = Some n.
Proof.
  intros H. do 4 eexists. split; [reflexivity|]. unfold hex4_value.
  rewrite !hex_digit_value by (apply N.mod_lt; lia).
  now rewrite hex_digits_sum.
Qed.

Lemma lor_disjoint (a b : N) : b < 1024 -> N.lor (a * 1024) b = a * 1024 + b.
Proof.
  intros Hb. symmetry.
  assert (E : N.land (a * 1024) b = 0).
  { apply N.bits_inj. intros i. rewrite N.land_spec, N.bits_0.
    destruct (N.lt_ge_cases i 10) as [Hi|Hi].
    - change 1024 with (2 ^ 10). now rewrite N.mul_pow2_bits_low.
    - rewrite <- (N.mod_small b (2 ^ 10)) by exact Hb.
      rewrite (N.mod_pow2_bits_high b 10 i Hi). apply andb_false_r. }
  rewrite N.add_nocarry_lxor by exact E. now apply N.lxor_lor.
Qed.

Lemma high_half_value (c : N) : high_half c = 55296 + ((c - 65536) / 1024) mod 1024.
Proof.
  unfold high_half. rewrite N.shiftr_div_pow2.
  change 1023 with (N.ones 10). rewrite N.land_ones.
  change (2 ^ 10) with 1024. change 55296 with (54 * 1024).
  apply lor_disjoint. apply N.mod_lt. lia.
Qed.

Lemma low_half_value (c : N) : low_half c = 56320 + (c - 65536) mod 1024.
Proof.
  unfold low_half. change 1023 with (N.ones 10). rewrite N.land_ones.
  change (2 ^ 10) with 1024. change 56320 with (55 * 1024).
  apply lor_disjoint. apply N.mod_lt. lia.
Qed.

Lemma join_surrogates_value (h l : N) :
  l - 56320 < 1024 ->
  join_surrogates h l = 65536 + ((h - 55296) * 1024 + (l - 56320)).
Proof.
  intros H. unfold join_surrogates. rewrite N.shiftl_mul_pow2.
  change (2 ^ 10) with 1024. now rewrite lor_disjoint.
Qed.

(** The two halves of a code point above [0xFFFF] are a high and a low
    surrogate, and join into the code point. *)
Lemma halves (c : N) :
  65536 <= c -> c < 1114112 ->
  is_high (high_half c) = true /\ is_low (low_half c) = true /\
  join_surrogates (high_half c) (low_half c) = c.
Proof.
  intros H1 H2.
  assert (Hq : (c - 65536) / 1024 < 1024)
    by (apply N.Div0.div_lt_upper_bound; lia).
  pose proof (N.div_mod (c - 65536) 1024 ltac:(lia)) as Hd.
  pose proof (N.mod_lt (c - 65536) 1024 ltac:(lia)) as Hr.
  assert (Hh : high_half c = 55296 + (c - 65536) / 1024)
    by (now rewrite high_half_value, (N.mod_small _ _ Hq)).
  pose proof (low_half_value c) as Hl.
  rewrite join_surrogates_value by (rewrite Hl; lia).
  rewrite Hh, Hl. unfold is_high, is_low.
  generalize dependent ((c - 65536) / 1024).
  generalize dependent ((c - 65536) mod 1024). intros r Hr _ q Hq Hd _.
  repeat split; try (apply andb_true_iff; split; apply N.leb_le; lia). lia.
Qed.

Lemma scanstring_u (h1 h2 h3 h4 : N) (rest : ustr) :
  scanstring (92 :: 117 :: h1 :: h2 :: h3 :: h4 :: rest)
  = match hex4_value h1 h2 h3 h4 with
    | None => None
    | Some uni =>
        match rest with
        | b :: u :: g1 :: g2 :: g3 :: g4 :: rest2 =>
            if is_high uni && (b =? 92) && (u =? 117) then
              match hex4_value g1 g2 g3 g4 with
              | None => None
              | Some uni2 =>
                  if is_low uni2 then
                    push_char (join_surrogates uni uni2) (scanstring rest2)
                  else push_char uni (scanstring rest)
              end
            else push_char uni (scanstring rest)
        | _ => push_char uni (scanstring rest)
        end
    end.
Proof. reflexivity. Qed.

(** A [u] escape that is no high surrogate is read as its character. *)
Lemma scanstring_escape_plain (uni : N) (T : ustr) :
  uni < 65536 -> is_high uni = false ->
  scanstring (u_escape uni ++ T) = push_char uni (scanstring T).
Proof.
  intros H Hh. destruct (hex4_value_escape uni T H) as (h1 & h2 & h3 & h4 & -> & Hv).
  rewrite scanstring_u, Hv.
  destruct T as [|b [|u [|g1 [|g2 [|g3 [|g4 T']]]]]]; try reflexivity.
  now rewrite Hh.
Qed.

Lemma is_high_lt (h : N) : is_high h = true -> h < 65536.
Proof.
  unfold is_high. intros H. apply andb_true_iff in H. destruct H as [_ H].
  apply N.leb_le in H. lia.
Qed.

Lemma is_low_lt (l : N) : is_low l = true -> l < 65536.
Proof.
  unfold is_low. intros H. apply andb_true_iff in H. destruct H as [_ H].
  apply N.leb_le in H. lia.
Qed.

(** A high surrogate that no low surrogate escape follows stays as it is. *)
Lemma scanstring_escape_high (h : N) (T : ustr) :
  is_high h = true ->
  (forall g1 g2 g3 g4 T',
     T = 92 :: 117 :: g1 :: g2 :: g3 :: g4 :: T' ->
     exists uni2, hex4_value g1 g2 g3 g4 = Some uni2 /\ is_low uni2 = false) ->
  scanstring (u_escape h ++ T) = push_char h (scanstring T).
Proof.
  intros Hh HT.
  destruct (hex4_value_escape h T (is_high_lt h Hh)) as (h1 & h2 & h3 & h4 & -> & Hv).
  rewrite scanstring_u, Hv.
  destruct T as [|b [|u [|g1 [|g2 [|g3 [|g4 T']]]]]]; try reflexivity.
  rewrite Hh. cbn [andb].
  destruct (N.eqb_spec b 92) as [->|]; [|reflexivity].
  destruct (N.eqb_spec u 117) as [->|]; [|reflexivity].
  destruct (HT _ _ _ _ _ eq_refl) as (uni2 & -> & ->). reflexivity.
Qed.

(** A high surrogate followed by a low one is read as one character. *)
Lemma scanstring_escape_pair (h l : N) (T : ustr) :
  is_high h = true -> is_low l = true ->
  scanstring (u_escape h ++ u_escape l ++ T)
  = push_char (join_surrogates h l) (scanstring T).
Proof.
  intros Hh Hl.
  destruct (hex4_value_escape h (u_escape l ++ T) (is_high_lt h Hh))
    as (h1 & h2 & h3 & h4 & -> & Hv).
  destruct (hex4_value_escape l T (is_low_lt l Hl))
    as (g1 & g2 & g3 & g4 & -> & Hw).
  rewrite scanstring_u, Hv, Hh. cbn [andb N.eqb Pos.eqb]. now rewrite Hw, Hl.
Qed.

Lemma is_high_not_low (c : N) : is_high c = true -> is_low c = false.
Proof.
  unfold is_high, is_low. intros H. apply andb_true_iff in H.
  destruct H as [_ H]. apply N.leb_le in H.
  apply andb_false_iff. left. apply N.leb_gt. lia.
Qed.

(** What [uescape_char] writes, case by case. *)
Lemma uescape_char_cases (c : N) :
  c < 1114112 ->
  (exists e, uescape_char c = [92; e] /\ e <> 117 /\ unescape e = Some c) \/
  (32 <= c /\ c <> 34 /\ c <> 92 /\ c <= 126 /\ uescape_char c = [c]) \/
  (c < 65536 /\ uescape_char c = u_escape c) \/
  (65536 <= c /\ uescape_char c = u_escape (high_half c) ++ u_escape (low_half c)).
Proof.
  intros Hc. unfold uescape_char.
  destruct (N.eqb_spec c 34) as [->|H34];
    [left; exists 34; repeat split; discriminate|].
  destruct (N.eqb_spec c 92) as [->|H92];
    [left; exists 92; repeat split; discriminate|].
  destruct (N.eqb_spec c 8) as [->|H8];
    [left; exists 98; repeat split; discriminate|].
  destruct (N.eqb_spec c 12) as [->|H12];
    [left; exists 102; repeat split; discriminate|].
  destruct (N.eqb_spec c 10) as [->|H10];
    [left; exists 110; repeat split; discriminate|].
  destruct (N.eqb_spec c 13) as [->|H13];
    [left; exists 114; repeat split; discriminate|].
  destruct (N.eqb_spec c 9) as [->|H9];
    [left; exists 116; repeat split; discriminate|].
  destruct (N.ltb_spec c 32) as [Hlo|Hlo]; cbn [orb].
  - right; right; left. destruct (N.ltb_spec c 65536); [split; [lia|reflexivity] | lia].
  - destruct (N.ltb_spec 126 c) as [Hhi|Hhi].
    + destruct (N.ltb_spec c 65536) as [Hs|Hs].
      * right; right; left. split; [exact Hs | reflexivity].
      * right; right; right. split; [exact Hs | reflexivity].
    + right; left. repeat split; assumption.
Qed.

(** Whatever follows, a character that is no high surrogate is read back
    from what [uescape_char] wrote for it. *)
Lemma scanstring_escape_char (c : N) (T : ustr) :
  c < 1114112 -> is_high c = false ->
  scanstring (uescape_char c ++ T) = push_char c (scanstring T).
Proof.
  intros Hc Hh.
  destruct (uescape_char_cases c Hc)
    as [(e & -> & He & Hu) | [(H1 & H2 & H3 & H4 & ->) | [(H1 & ->) | (H1 & ->)]]].
  - cbn [app scanstring N.eqb Pos.eqb].
    apply N.eqb_neq in He. now rewrite He, Hu.
  - cbn [app scanstring].
    apply N.eqb_neq in H2, H3. rewrite H2, H3.
    destruct (N.ltb_spec c 32); [lia | reflexivity].
  - now apply scanstring_escape_plain.
  - destruct (halves c H1 Hc) as (Ha & Hb & Hj).
    rewrite <- app_assoc, scanstring_escape_pair by assumption. now rewrite Hj.
Qed.

(** The text of a string whose first character is no low surrogate does not
    begin with the escape of one. *)
Lemma escape_no_low_start (s : ustr) (rest : ustr) :
  valid_str s = true ->
  match s with d :: _ => is_low d = false | [] => True end ->
  forall g1 g2 g3 g4 T',
    uescape s ++ 34 :: rest = 92 :: 117 :: g1 :: g2 :: g3 :: g4 :: T' ->
    exists uni2, hex4_value g1 g2 g3 g4 = Some uni2 /\ is_low uni2 = false.
Proof.
  intros Hv Hd g1 g2 g3 g4 T'. destruct s as [|d s]; [discriminate|].
  cbn [valid_str forallb] in Hv. apply andb_true_iff in Hv.
  destruct Hv as [Hv _]. apply N.ltb_lt in Hv. cbn [uescape].
  rewrite <- app_assoc.
  destruct (uescape_char_cases d Hv)
    as [(e & -> & He & Hu) | [(H1 & H2 & H3 & H4 & ->) | [(H1 & ->) | (H1 & ->)]]].
  - intros [= E]. now destruct He.
  - intros [= E]. now destruct H3.
  - destruct (hex4_value_escape d (uescape s ++ 34 :: rest) H1)
      as (h1 & h2 & h3 & h4 & -> & Hx).
    intros [= <- <- <- <- _]. now exists d.
  - destruct (halves d H1 Hv) as (Ha & _ & _).
    rewrite <- app_assoc.
    destruct (hex4_value_escape (high_half d)
                (u_escape (low_half d) ++ uescape s ++ 34 :: rest)
                (is_high_lt _ Ha))
      as (h1 & h2 & h3 & h4 & -> & Hx).
    intros [= <- <- <- <- _]. exists (high_half d).
    split; [exact Hx | now apply is_high_not_low].
Qed.

Lemma join_pairs_cons (c : N) (s : ustr) :
  is_high c = false -> join_pairs (c :: s) = c :: join_pairs s.
Proof. intros H. destruct s as [|l s]; [reflexivity|]. cbn [join_pairs]. now rewrite H. Qed.

Lemma is_high_escape (c : N) : is_high c = true -> uescape_char c = u_escape c.
Proof.
  intros H. unfold is_high in H. apply andb_true_iff in H.
  destruct H as [H1 H2]. apply N.leb_le in H1, H2.
  destruct (uescape_char_cases c ltac:(lia))
    as [(e & E & He & Hu) | [(? & ? & ? & ? & E) | [(? & E) | (? & E)]]];
    try exact E; try lia.
  exfalso. unfold unescape in Hu.
  repeat match type of Hu with
         | context [N.eqb ?a ?b] => destruct (N.eqb_spec a b)
         end; try discriminate; injection Hu as Hu; lia.
Qed.

Lemma is_low_escape (c : N) : is_low c = true -> uescape_char c = u_escape c.
Proof.
  intros H. unfold is_low in H. apply andb_true_iff in H.
  destruct H as [H1 H2]. apply N.leb_le in H1, H2.
  destruct (uescape_char_cases c ltac:(lia))
    as [(e & E & He & Hu) | [(? & ? & ? & ? & E) | [(? & E) | (? & E)]]];
    try exact E; try lia.
  exfalso. unfold unescape in Hu.
  repeat match type of Hu with
         | context [N.eqb ?a ?b] => destruct (N.eqb_spec a b)
         end; try discriminate; injection Hu as Hu; lia.
Qed.

Lemma scanstring_escape_upto (n : nat) : forall (s rest : ustr),
  (List.length s <= n)%nat -> valid_str s = true ->
  scanstring (uescape s ++ 34 :: rest) = Some (join_pairs s, rest).
Proof.
  induction n as [|n IH]; intros s rest Hn Hv.
  - destruct s; [reflexivity | cbn in Hn; lia].
  - destruct s as [|c s]; [reflexivity|].
    cbn [List.length] in Hn.
    pose proof Hv as Hv'. cbn [valid_str forallb] in Hv'.
    apply andb_true_iff in Hv'. destruct Hv' as [Hc Hs]. apply N.ltb_lt in Hc.
    fold (valid_str s) in Hs.
    cbn [uescape]. rewrite <- app_assoc.
    destruct (is_high c) eqn:Hh.
    + rewrite (is_high_escape c Hh).
      destruct s as [|d s].
      * rewrite scanstring_escape_high; [reflexivity | exact Hh|].
        apply (escape_no_low_start [] rest eq_refl I).
      * destruct (is_low d) eqn:Hl.
        -- cbn [uescape]. rewrite (is_low_escape d Hl), <- app_assoc.
           rewrite scanstring_escape_pair by assumption.
           cbn [valid_str forallb] in Hs. apply andb_true_iff in Hs.
           destruct Hs as [_ Hs]. fold (valid_str s) in Hs.
           rewrite IH; [|cbn [List.length] in Hn; lia | exact Hs].
           cbn [join_pairs push_char]. now rewrite Hh, Hl.
        -- rewrite scanstring_escape_high;
             [| exact Hh | now apply (escape_no_low_start (d :: s) rest Hs)].
           rewrite IH; [|lia | exact Hs].
           cbn [join_pairs push_char]. rewrite Hh, Hl. reflexivity.
    + rewrite scanstring_escape_char by assumption.
      rewrite IH; [|lia | exact Hs].
      now rewrite join_pairs_cons.
Qed.

(** [scanstring] reads what [uencode_basestring_ascii] wrote as the string
    with its surrogate pairs joined. *)
Lemma scanstring_escape (s rest : ustr) :
  valid_str s = true ->
  scanstring (uescape s ++ 34 :: rest) = Some (join_pairs s, rest).
Proof. apply (scanstring_escape_upto (List.length s)). lia. Qed.

Lemma join_pairs_free (s : ustr) : has_pair s = false -> join_pairs s = s.
Proof.
  induction s as [|c s IH]; [reflexivity|]. destruct s as [|l s]; [reflexivity|].
  cbn [has_pair]. intros H. apply orb_false_iff in H. destruct H as [H1 H2].
  change (join_pairs (c :: l :: s))
    with (if is_high c && is_low l then join_surrogates c l :: join_pairs s
          else c :: join_pairs (l :: s)).
  now rewrite H1, (IH H2).
Qed.

End FullStrFacts.

(** ** Full strings: numbers *)

Section NumberFacts.
Local Open Scope N_scope.
Local Open Scope list_scope.

Lemma ustr_of_app (a b : string) :
  ustr_of (a ++ b)%string = ustr_of a ++ ustr_of b.
Proof.
  unfold ustr_of. induction a as [|c a IH]; [reflexivity|].
  cbn [String.append list_ascii_of_string map app]. now rewrite IH.
Qed.

Lemma ustr_of_cons (c : ascii) (s : string) :
  ustr_of (String c s) = N_of_ascii c :: ustr_of s.
Proof. reflexivity. Qed.

Lemma string_of_ustr_of (s : string) : string_of_ustr (ustr_of s) = s.
Proof.
  unfold string_of_ustr, ustr_of. induction s as [|c s IH]; [reflexivity|].
  cbn [list_ascii_of_string map string_of_list_ascii].
  now rewrite ascii_N_embedding, IH.
Qed.

Lemma delimited_facts (rest : ustr) :
  delimited rest = true ->
  scan_digits rest = ([], rest) /\
  starts_fraction rest = false /\
  skip_ws rest = rest.
Proof.
  destruct rest as [|c rest]; [now auto|]. cbn [delimited].
  destruct (N.eqb_spec c 44) as [->|]; [now auto|].
  destruct (N.eqb_spec c 93) as [->|]; [now auto|].
  destruct (N.eqb_spec c 125) as [->|]; [now auto | discriminate].
Qed.

Lemma scan_digits_cons (c : N) (s : ustr) :
  is_digit c = true ->
  scan_digits (c :: s) = (let (ds, rest) := scan_digits s in (c :: ds, rest)).
Proof. intros H. cbn [scan_digits]. now rewrite H. Qed.

Lemma scan_digits_uint (d : Decimal.uint) (rest : ustr) :
  delimited rest = true ->
  scan_digits (ustr_of (DecimalString.NilEmpty.string_of_uint d) ++ rest)
  = (ustr_of (DecimalString.NilEmpty.string_of_uint d), rest).
Proof.
  intros Hr.
  induction d; cbn [DecimalString.NilEmpty.string_of_uint];
    rewrite ?ustr_of_cons; cbn [app];
    try (rewrite scan_digits_cons by reflexivity; now rewrite IHd).
  now apply delimited_facts.
Qed.

Lemma match_number_uint (neg : bool) (d : Decimal.uint) (rest : ustr) :
  d <> Decimal.Nil ->
  (forall d', d = Decimal.D0 d' -> d' = Decimal.Nil) ->
  delimited rest = true ->
  match_number (ustr_of (if neg then "-" else "")
                ++ ustr_of (DecimalString.NilEmpty.string_of_uint d) ++ rest)
  = Some (if neg then (- Z.of_uint d)%Z else Z.of_uint d, rest).
Proof.
  intros Hnil Hzero Hr.
  destruct (delimited_facts rest Hr) as (_ & Hfrac & _).
  assert (E : forall s,
             s = ustr_of (DecimalString.NilEmpty.string_of_uint d) ++ rest ->
             (exists c s', s = c :: s' /\ (c =? 45) = false) ->
             match_number (ustr_of (if neg then "-" else "") ++ s)
             = Some (if neg then (- Z.of_uint d)%Z else Z.of_uint d, rest)).
  { intros s Hs (c & s' & Hc & Hminus).
    assert (G : (let (ds, rest0) := scan_digits s in
                 match ds with
                 | [] => None
                 | d0 :: ds' =>
                     if (d0 =? 48)
                        && negb (match ds' with [] => true | _ :: _ => false end)
                     then None
                     else if starts_fraction rest0 then None
                     else
                       match DecimalString.NilEmpty.uint_of_string
                               (string_of_ustr ds) with
                       | Some u =>
                           Some (if neg : bool then (- Z.of_uint u)%Z
                                 else Z.of_uint u, rest0)
                       | None => None
                       end
                 end)
                = Some (if neg then (- Z.of_uint d)%Z else Z.of_uint d, rest)).
    { rewrite Hs, (scan_digits_uint d rest Hr). cbv beta iota.
      rewrite string_of_ustr_of, DecimalString.NilEmpty.usu, Hfrac.
      destruct d; try (now destruct Hnil);
        cbn [DecimalString.NilEmpty.string_of_uint]; rewrite ustr_of_cons;
        try reflexivity.
      rewrite (Hzero d eq_refl). reflexivity. }
    destruct neg.
    - exact G.
    - cbn [ustr_of list_ascii_of_string map app]. unfold match_number.
      rewrite Hc, Hminus. rewrite <- Hc. exact G. }
  apply E; [reflexivity|].
  destruct d; try (now destruct Hnil);
    cbn [DecimalString.NilEmpty.string_of_uint]; rewrite ustr_of_cons;
    eexists; eexists; (split; [reflexivity|reflexivity]).
Qed.

Lemma match_number_dumps (z : Z) (rest : ustr) :
  delimited rest = true ->
  match_number (ujson_dumps (UInt z) ++ rest) = Some (z, rest).
Proof.
  intros Hr. cbn [ujson_dumps]. destruct z as [|p|p].
  - apply (match_number_uint false (Decimal.D0 Decimal.Nil) rest);
      [discriminate | now intros d' [= <-] | exact Hr].
  - destruct (to_uint_shape p) as [Hnil Hzero].
    cbn [Z.to_int DecimalString.NilZero.string_of_int].
    replace (DecimalString.NilZero.string_of_uint (Pos.to_uint p))
      with (DecimalString.NilEmpty.string_of_uint (Pos.to_uint p))
      by (destruct (Pos.to_uint p); try reflexivity; now destruct Hnil).
    rewrite <- (of_uint_to_uint p).
    apply (match_number_uint false _ rest Hnil Hzero Hr).
  - destruct (to_uint_shape p) as [Hnil Hzero].
    cbn [Z.to_int DecimalString.NilZero.string_of_int].
    replace (DecimalString.NilZero.string_of_uint (Pos.to_uint p))
      with (DecimalString.NilEmpty.string_of_uint (Pos.to_uint p))
      by (destruct (Pos.to_uint p); try reflexivity; now destruct Hnil).
    change (Z.neg p) with (- Z.pos p)%Z.
    rewrite <- (of_uint_to_uint p).
    change (String "-" (DecimalString.NilEmpty.string_of_uint (Pos.to_uint p)))
      with ("-" ++ DecimalString.NilEmpty.string_of_uint (Pos.to_uint p))%string.
    rewrite ustr_of_app, <- app_assoc.
    apply (match_number_uint true _ rest Hnil Hzero Hr).
Qed.

End NumberFacts.

(** ** Full strings: one step of the parser *)

Section ParserFacts.
Local Open Scope N_scope.
Local Open Scope list_scope.

Lemma ujson_dumps_dict d :
  ujson_dumps (UDict d) = 123 :: ujoin (ustr_of ", ") (map upair d) ++ [125].
Proof.
  cbn [ujson_dumps]. do 3 f_equal. apply map_ext. now intros [k x].
Qed.

Lemma ujson_dumps_list l :
  ujson_dumps (UList l) = 91 :: ujoin (ustr_of ", ") (map ujson_dumps l) ++ [93].
Proof. reflexivity. Qed.

Lemma starts_value_cases (c : N) :
  starts_value c = true ->
  c = 34 \/ c = 123 \/ c = 91 \/ c = 110 \/ c = 116 \/ c = 102 \/ c = 45
  \/ (48 <= c /\ c <= 57).
Proof.
  unfold starts_value, is_digit.
  rewrite !orb_true_iff, andb_true_iff, !N.eqb_eq, !N.leb_le. tauto.
Qed.

Lemma starts_value_facts (c : N) :
  starts_value c = true ->
  is_ws c = false /\ (c =? 93) = false /\ (c =? 125) = false.
Proof.
  intros H. apply starts_value_cases in H. unfold is_ws.
  rewrite !orb_false_iff, !N.eqb_neq. lia.
Qed.

Lemma skip_ws_value (c : N) (s : ustr) :
  starts_value c = true -> skip_ws (c :: s) = c :: s.
Proof.
  intros H. apply starts_value_facts in H as (H & _). cbn [skip_ws].
  now rewrite H.
Qed.

Lemma int_head (z : Z) :
  exists c s,
    ujson_dumps (UInt z) = c :: s /\ starts_value c = true /\
    ((c =? 45) || is_digit c) = true.
Proof.
  cbn [ujson_dumps].
  destruct z as [|p|p]; try (eexists; eexists; repeat split; reflexivity).
  destruct (to_uint_shape p) as [Hnil _].
  cbn [Z.to_int DecimalString.NilZero.string_of_int].
  destruct (Pos.to_uint p); try (now destruct Hnil);
    eexists; eexists; repeat split; reflexivity.
Qed.

Lemma ujson_dumps_head (v : ujson) :
  exists c s, ujson_dumps v = c :: s /\ starts_value c = true.
Proof.
  destruct v as [|[|]|z|s|l|d]; cbn [ujson_dumps];
    try (eexists; eexists; split; reflexivity).
  destruct (int_head z) as (c & s & E & H & _). now exists c, s.
Qed.

Lemma ujson_dumps_skip_ws (v : ujson) (rest : ustr) :
  skip_ws (ujson_dumps v ++ rest) = ujson_dumps v ++ rest.
Proof.
  destruct (ujson_dumps_head v) as (c & s & -> & Hc).
  now apply skip_ws_value.
Qed.

Lemma scan_once_string n body str rest :
  scanstring body = Some (str, rest) ->
  scan_once (S n) (34 :: body) = Some (UStr str, rest).
Proof. intros H. cbn [scan_once N.eqb Pos.eqb]. now rewrite H. Qed.

Lemma scan_once_number n s z rest :
  (exists c s', s = c :: s' /\ ((c =? 45) || is_digit c) = true) ->
  match_number s = Some (z, rest) ->
  scan_once (S n) s = Some (UInt z, rest).
Proof.
  intros (c & s' & -> & Hc) H.
  assert (E : scan_once (S n) (c :: s')
              = match match_number (c :: s') with
                | Some (z, rest) => Some (UInt z, rest)
                | None => None
                end).
  { clear H. cbn [scan_once].
    destruct (N.eqb_spec c 34) as [->|]; [discriminate|].
    destruct (N.eqb_spec c 123) as [->|]; [discriminate|].
    destruct (N.eqb_spec c 91) as [->|]; [discriminate|].
    destruct (N.eqb_spec c 110) as [->|]; [discriminate|].
    destruct (N.eqb_spec c 116) as [->|]; [discriminate|].
    destruct (N.eqb_spec c 102) as [->|]; [discriminate|].
    reflexivity. }
  now rewrite E, H.
Qed.

Lemma scan_once_empty_list n rest :
  scan_once (S n) (91 :: 93 :: rest) = Some (UList [], rest).
Proof. reflexivity. Qed.

Lemma scan_once_empty_dict n rest :
  scan_once (S n) (123 :: 125 :: rest) = Some (UDict [], rest).
Proof. reflexivity. Qed.

Lemma scan_once_list n c body vs rest :
  starts_value c = true ->
  parse_items n (c :: body) = Some (vs, rest) ->
  scan_once (S n) (91 :: c :: body) = Some (UList vs, rest).
Proof.
  intros Hc H. destruct (starts_value_facts c Hc) as (Hw & H93 & _).
  cbn [scan_once N.eqb Pos.eqb skip_ws]. now rewrite Hw, H93, H.
Qed.

Lemma scan_once_dict n body pairs rest :
  parse_pairs n (34 :: body) = Some (pairs, rest) ->
  scan_once (S n) (123 :: 34 :: body)
  = Some (UDict (udict_update [] pairs), rest).
Proof.
  intros H.
  assert (E : scan_once (S n) (123 :: 34 :: body)
              = match parse_pairs n (34 :: body) with
                | Some (pairs, rest) => Some (UDict (udict_update [] pairs), rest)
                | None => None
                end) by reflexivity.
  now rewrite E, H.
Qed.

Lemma parse_items_last n s v rest :
  scan_once n s = Some (v, 93 :: rest) ->
  parse_items (S n) s = Some ([v], rest).
Proof. intros H. cbn [parse_items]. now rewrite H. Qed.

Lemma parse_items_more n s v T vs rest :
  scan_once n s = Some (v, 44 :: 32 :: T) ->
  skip_ws T = T ->
  parse_items n T = Some (vs, rest) ->
  parse_items (S n) s = Some (v :: vs, rest).
Proof.
  intros H HT Hvs. cbn [parse_items]. rewrite H.
  change (skip_ws (44 :: 32 :: T)) with (44 :: 32 :: T).
  cbv iota. change (44 =? 93) with false. change (44 =? 44) with true.
  cbv iota. change (skip_ws (32 :: T)) with (skip_ws T).
  now rewrite HT, Hvs.
Qed.

Lemma parse_pairs_unfold n body :
  parse_pairs (S n) (34 :: body)
  = match scanstring body with
    | None => None
    | Some (key, r) =>
        match skip_ws r with
        | [] => None
        | c2 :: r2 =>
            if c2 =? 58 then
              match scan_once n (skip_ws r2) with
              | None => None
              | Some (v, r3) =>
                  match skip_ws r3 with
                  | [] => None
                  | c4 :: r4 =>
                      if c4 =? 125 then Some ([(key, v)], r4)
                      else if c4 =? 44 then
                        match parse_pairs n (skip_ws r4) with
                        | Some (ps, r5) => Some ((key, v) :: ps, r5)
                        | None => None
                        end
                      else None
                  end
              end
            else None
        end
    end.
Proof. reflexivity. Qed.

Lemma parse_pairs_last n body k R v rest :
  scanstring body = Some (k, 58 :: 32 :: R) ->
  skip_ws R = R ->
  scan_once n R = Some (v, 125 :: rest) ->
  parse_pairs (S n) (34 :: body) = Some ([(k, v)], rest).
Proof.
  intros Hk HR Hv. rewrite parse_pairs_unfold, Hk.
  change (skip_ws (58 :: 32 :: R)) with (58 :: 32 :: R). cbv iota.
  change (58 =? 58) with true. cbv iota.
  change (skip_ws (32 :: R)) with (skip_ws R).
  rewrite HR, Hv. reflexivity.
Qed.

Lemma parse_pairs_more n body k R v T ps rest :
  scanstring body = Some (k, 58 :: 32 :: R) ->
  skip_ws R = R ->
  scan_once n R = Some (v, 44 :: 32 :: T) ->
  skip_ws T = T ->
  parse_pairs n T = Some (ps, rest) ->
  parse_pairs (S n) (34 :: body) = Some ((k, v) :: ps, rest).
Proof.
  intros Hk HR Hv HT Hps. rewrite parse_pairs_unfold, Hk.
  change (skip_ws (58 :: 32 :: R)) with (58 :: 32 :: R). cbv iota.
  change (58 =? 58) with true. cbv iota.
  change (skip_ws (32 :: R)) with (skip_ws R).
  rewrite HR, Hv.
  change (skip_ws (44 :: 32 :: T)) with (44 :: 32 :: T). cbv iota.
  change (44 =? 125) with false. change (44 =? 44) with true. cbv iota.
  change (skip_ws (32 :: T)) with (skip_ws T).
  now rewrite HT, Hps.
Qed.

(** ** Full strings: [json.loads] reads back what [json.dumps] wrote *)

Lemma ujoin_cons_cons sep x y l :
  ujoin sep (x :: y :: l) = x ++ sep ++ ujoin sep (y :: l).
Proof. reflexivity. Qed.

Lemma items_skip_ws y l tail :
  skip_ws (ujoin (ustr_of ", ") (map ujson_dumps (y :: l)) ++ tail)
  = ujoin (ustr_of ", ") (map ujson_dumps (y :: l)) ++ tail.
Proof.
  destruct l; cbn [map ujoin]; [apply ujson_dumps_skip_ws|].
  rewrite <- app_assoc. apply ujson_dumps_skip_ws.
Qed.

Lemma items_head y l tail :
  exists c body,
    ujoin (ustr_of ", ") (map ujson_dumps (y :: l)) ++ tail = c :: body /\
    starts_value c = true.
Proof.
  destruct (ujson_dumps_head y) as (c & s & E & Hc).
  destruct l; cbn [map ujoin]; rewrite E; eexists; eexists;
    (split; [reflexivity | exact Hc]).
Qed.

Lemma items_read_back (l : list ujson) :
  l <> [] -> Forall reads_back l ->
  forall n rest,
    (need_items l <= n)%nat ->
    parse_items n (ujoin (ustr_of ", ") (map ujson_dumps l) ++ 93 :: rest)
    = Some (map joined l, rest).
Proof.
  induction l as [|x l IH]; [easy|]. intros _ Hall n rest Hn.
  inversion Hall as [|? ? Hx Hl]; subst.
  cbn [need_items fold_right] in Hn. fold (need_items l) in Hn.
  destruct n as [|n]; [lia|].
  destruct l as [|y l'].
  - cbn [map ujoin]. apply parse_items_last. apply Hx; [lia | reflexivity].
  - cbn [map]. rewrite ujoin_cons_cons, <- !app_assoc.
    change (ustr_of ", " ++ ?T) with (44 :: 32 :: T).
    apply (parse_items_more n _ (joined x)
             (ujoin (ustr_of ", ") (map ujson_dumps (y :: l')) ++ 93 :: rest)
             (map joined (y :: l'))).
    + apply Hx; [lia | reflexivity].
    + apply items_skip_ws.
    + apply IH; [discriminate | exact Hl | lia].
Qed.

Lemma pairs_shape k v d tail :
  exists R,
    ujoin (ustr_of ", ") (map upair ((k, v) :: d)) ++ tail
    = 34 :: (uescape k ++ 34 :: 58 :: 32 :: R) /\
    R = ujson_dumps v
        ++ match d with
           | [] => tail
           | _ :: _ => 44 :: 32 :: (ujoin (ustr_of ", ") (map upair d) ++ tail)
           end.
Proof.
  destruct d as [|kv d]; cbn [map].
  - eexists. split; [|reflexivity]. cbn [ujoin].
    unfold upair, upair_text, uencode_basestring_ascii. cbn [fst snd].
    cbn [app]. now rewrite <- !app_assoc.
  - eexists. split; [|reflexivity]. rewrite ujoin_cons_cons.
    unfold upair at 1. unfold upair_text, uencode_basestring_ascii. cbn [fst snd].
    cbn [app]. now rewrite <- !app_assoc.
Qed.

Lemma pairs_skip_ws kv d tail :
  skip_ws (ujoin (ustr_of ", ") (map upair (kv :: d)) ++ tail)
  = ujoin (ustr_of ", ") (map upair (kv :: d)) ++ tail.
Proof.
  destruct kv as [k v]. destruct (pairs_shape k v d tail) as (R & -> & _).
  reflexivity.
Qed.

Lemma pairs_read_back (d : list (ustr * ujson)) :
  d <> [] ->
  Forall (fun kv => valid_str (fst kv) = true /\ reads_back (snd kv)) d ->
  forall n rest,
    (need_pairs d <= n)%nat ->
    parse_pairs n (ujoin (ustr_of ", ") (map upair d) ++ 125 :: rest)
    = Some (map (fun kv => (join_pairs (fst kv), joined (snd kv))) d, rest).
Proof.
  induction d as [|[k v] d IH]; [easy|]. intros _ Hall n rest Hn.
  inversion Hall as [|? ? [Hk Hv] Hd]; subst. cbn [fst snd] in Hk, Hv.
  cbn [need_pairs fold_right snd] in Hn. fold (need_pairs d) in Hn.
  destruct n as [|n]; [lia|].
  destruct (pairs_shape k v d (125 :: rest)) as (R & -> & HR).
  destruct d as [|kv d'].
  - cbn [map fst snd]. apply (parse_pairs_last n _ (join_pairs k) R (joined v) rest).
    + now apply scanstring_escape.
    + subst R. apply ujson_dumps_skip_ws.
    + subst R. apply Hv; [lia | reflexivity].
  - cbn [map fst snd].
    apply (parse_pairs_more n _ (join_pairs k) R (joined v)
             (ujoin (ustr_of ", ") (map upair (kv :: d')) ++ 125 :: rest)).
    + now apply scanstring_escape.
    + subst R. apply ujson_dumps_skip_ws.
    + subst R. apply Hv; [lia | reflexivity].
    + apply pairs_skip_ws.
    + apply IH; [discriminate | exact Hd | lia].
Qed.

(** Every value is read back, joined, from its text by [scan_once]. *)
Lemma reads_back_valid (v : ujson) : valid_json v = true -> reads_back v.
Proof.
  induction v using ujson_induction; intros Hval fuel rest Hn Hr.
  - destruct fuel; [cbn in Hn; lia | reflexivity].
  - destruct fuel; [cbn in Hn; lia | destruct b; reflexivity].
  - destruct fuel; [cbn in Hn; lia|].
    apply scan_once_number; [|now apply match_number_dumps].
    destruct (int_head z) as (c & s & -> & _ & Hc). now exists c, (s ++ rest).
  - destruct fuel; [cbn in Hn; lia|].
    cbn [ujson_dumps joined]. unfold uencode_basestring_ascii.
    cbn [app]. rewrite <- app_assoc. apply scan_once_string.
    now apply scanstring_escape.
  - change (need (UList l)) with (S (need_items l)) in Hn.
    destruct fuel; [lia|].
    rewrite ujson_dumps_list. cbn [joined]. destruct l as [|x l].
    + apply scan_once_empty_list.
    + cbn [app]. rewrite <- app_assoc. cbn [app].
      destruct (items_head x l (93 :: rest)) as (c & body & E & Hc).
      rewrite E. apply scan_once_list; [exact Hc|]. rewrite <- E.
      apply items_read_back; [discriminate | | lia].
      cbn [valid_json] in Hval. rewrite forallb_forall in Hval.
      rewrite Forall_forall in *. intros y Hy. apply H; [exact Hy|].
      now apply Hval.
  - change (need (UDict d)) with (S (need_pairs d)) in Hn.
    destruct fuel; [lia|].
    rewrite ujson_dumps_dict. cbn [joined]. destruct d as [|[k x] d].
    + apply scan_once_empty_dict.
    + cbn [app]. rewrite <- app_assoc. cbn [app].
      destruct (pairs_shape k x d (125 :: rest)) as (R & E & _).
      assert (Hp : parse_pairs fuel
                     (ujoin (ustr_of ", ") (map upair ((k, x) :: d)) ++ 125 :: rest)
                   = Some (map (fun kv => (join_pairs (fst kv), joined (snd kv)))
                               ((k, x) :: d), rest)).
      { apply pairs_read_back; [discriminate | | lia].
        cbn [valid_json] in Hval. rewrite forallb_forall in Hval.
        rewrite Forall_forall in *. intros kv Hkv.
        specialize (Hval kv Hkv). apply andb_true_iff in Hval.
        destruct Hval as [Hk Hx]. split; [exact Hk|]. now apply H. }
      rewrite E in Hp |- *.
      exact (scan_once_dict fuel _ _ _ Hp).
Qed.

Lemma ujson_dumps_length_pos (v : ujson) : (1 <= List.length (ujson_dumps v))%nat.
Proof.
  destruct (ujson_dumps_head v) as (c & s & -> & _). cbn [List.length]. lia.
Qed.

Lemma need_items_le (l : list ujson) :
  Forall (fun x => (need x <= List.length (ujson_dumps x))%nat) l ->
  (need_items l
   <= List.length (ujoin (ustr_of ", ") (map ujson_dumps l)) + 1)%nat.
Proof.
  induction l as [|x l IH]; intros Hall; [cbn; lia|].
  inversion Hall as [|? ? Hx Hl]; subst. specialize (IH Hl).
  cbn [need_items fold_right]. fold (need_items l).
  destruct l as [|y l'].
  - cbn [map ujoin need_items fold_right]. lia.
  - cbn [map] in *. rewrite ujoin_cons_cons, !length_app.
    change (List.length (ustr_of ", ")) with 2%nat. lia.
Qed.

Lemma need_pairs_le (d : list (ustr * ujson)) :
  Forall (fun kv => (need (snd kv) <= List.length (ujson_dumps (snd kv)))%nat) d ->
  (need_pairs d <= List.length (ujoin (ustr_of ", ") (map upair d)) + 1)%nat.
Proof.
  induction d as [|[k x] d IH]; intros Hall; [cbn; lia|].
  inversion Hall as [|? ? Hx Hd]; subst. specialize (IH Hd). cbn [snd] in Hx.
  cbn [need_pairs fold_right snd]. fold (need_pairs d).
  assert (Hk : (List.length (ujson_dumps x) <= List.length (upair (k, x)))%nat).
  { unfold upair, upair_text. cbn [fst snd]. rewrite !length_app. lia. }
  destruct d as [|kv d'].
  - cbn [map ujoin need_pairs fold_right]. lia.
  - cbn [map] in *. rewrite ujoin_cons_cons, !length_app.
    change (List.length (ustr_of ", ")) with 2%nat. lia.
Qed.

(** The fuel [json_loads] starts with is enough for anything [ujson_dumps]
    wrote. *)
Lemma need_le_length (v : ujson) : (need v <= List.length (ujson_dumps v))%nat.
Proof.
  induction v using ujson_induction;
    try (apply (ujson_dumps_length_pos UNull));
    try (apply (ujson_dumps_length_pos (UBool b)));
    try (apply (ujson_dumps_length_pos (UInt z)));
    try (apply (ujson_dumps_length_pos (UStr s))).
  - change (need (UList l)) with (S (need_items l)).
    rewrite ujson_dumps_list. cbn [List.length]. rewrite length_app.
    cbn [List.length]. pose proof (need_items_le l H). lia.
  - change (need (UDict d)) with (S (need_pairs d)).
    rewrite ujson_dumps_dict. cbn [List.length]. rewrite length_app.
    cbn [List.length]. pose proof (need_pairs_le d H). lia.
Qed.

(** Loading what was dumped gives the value with the surrogate pairs of its
    strings joined. *)
Lemma json_loads_dumps (v : ujson) :
  valid_json v = true -> json_loads (ujson_dumps v) = Some (joined v).
Proof.
  intros Hval. unfold json_loads.
  pose proof (ujson_dumps_skip_ws v []) as Hs. rewrite app_nil_r in Hs.
  rewrite Hs.
  pose proof (reads_back_valid v Hval (List.length (ujson_dumps v)) []
                (need_le_length v) eq_refl) as Hr.
  rewrite app_nil_r in Hr. now rewrite Hr.
Qed.

End ParserFacts.

(** ** Full strings: splitting on commas *)

Section RequestFacts.
Local Open Scope N_scope.
Local Open Scope list_scope.

Lemma usplit_nonempty sep s : usplit sep s <> [].
Proof.
  destruct s as [|c s]; cbn [usplit]; [discriminate|].
  destruct (c =? sep); [discriminate|].
  destruct (usplit sep s); discriminate.
Qed.

(** Joining the pieces with the separator gives the string back. *)
Lemma ujoin_usplit sep s : ujoin [sep] (usplit sep s) = s.
Proof.
  induction s as [|c s IH]; [reflexivity|].
  cbn [usplit]. pose proof (usplit_nonempty sep s) as Hn.
  destruct (N.eqb_spec c sep) as [->|Hne].
  - destruct (usplit sep s) as [|w ws]; [contradiction|].
    rewrite ujoin_cons_cons, IH. reflexivity.
  - destruct (usplit sep s) as [|w ws]; [contradiction|].
    destruct ws as [|w' ws].
    + cbn [ujoin] in *. now rewrite IH.
    + rewrite ujoin_cons_cons in *. cbn [app] in *. now rewrite IH.
Qed.

(** No piece contains the separator. *)
Lemma usplit_pieces sep s : Forall (fun w => ~ In sep w) (usplit sep s).
Proof.
  induction s as [|c s IH]; cbn [usplit].
  - constructor; [intros [] | constructor].
  - destruct (N.eqb_spec c sep) as [->|Hne].
    + constructor; [intros [] | exact IH].
    + destruct (usplit sep s) as [|w ws].
      * constructor; [|constructor]. cbn. intuition.
      * inversion IH as [|? ? Hw Hws]; subst.
        constructor; [|exact Hws]. cbn. intuition.
Qed.

Lemma usplit_valid sep s :
  valid_str s = true -> Forall (fun w => valid_str w = true) (usplit sep s).
Proof.
  induction s as [|c s IH]; cbn [usplit]; intros Hv.
  - repeat constructor.
  - cbn [valid_str forallb] in Hv. apply andb_true_iff in Hv.
    destruct Hv as [Hc Hs]. specialize (IH Hs).
    destruct (c =? sep); [constructor; [reflexivity | exact IH]|].
    destruct (usplit sep s) as [|w ws]; [repeat constructor; cbn; now rewrite Hc|].
    inversion IH as [|? ? Hw Hws]; subst. constructor; [|exact Hws].
    cbn [valid_str forallb]. rewrite Hc. exact Hw.
Qed.

Lemma has_pair_tail c s : has_pair (c :: s) = false -> has_pair s = false.
Proof.
  destruct s as [|l s]; [reflexivity|]. cbn [has_pair]. intros H.
  apply orb_false_iff in H. now destruct H.
Qed.

(** A piece of a string without surrogate pairs has none. *)
Lemma usplit_pair_free sep s :
  has_pair s = false -> Forall (fun w => has_pair w = false) (usplit sep s).
Proof.
  induction s as [|c s IH]; cbn [usplit]; intros Hp.
  - repeat constructor.
  - specialize (IH (has_pair_tail c s Hp)).
    destruct (c =? sep); [constructor; [reflexivity | exact IH]|].
    destruct s as [|d s]; [repeat constructor|].
    cbn [has_pair] in Hp. apply orb_false_iff in Hp. destruct Hp as [Hcd Hp].
    cbn [usplit] in *. destruct (d =? sep).
    + inversion IH; subst. constructor; [reflexivity | assumption].
    + destruct (usplit sep s) as [|w ws].
      * inversion IH; subst. constructor; [|assumption].
        cbn [has_pair]. now rewrite Hcd.
      * inversion IH as [|? ? Hw Hws]; subst. constructor; [|assumption].
        change (has_pair (c :: d :: w))
          with ((is_high c && is_low d) || has_pair (d :: w)).
        now rewrite Hcd, Hw.
Qed.

Lemma map_join_pairs_free (l : list ustr) :
  Forall (fun w => has_pair w = false) l -> map join_pairs l = l.
Proof.
  induction l as [|w l IH]; intros H; [reflexivity|].
  inversion H; subst. cbn [map]. now rewrite join_pairs_free, IH.
Qed.

(** ** Full strings: RequestBuilder *)

Lemma urequest_body_shape search_term fields :
  urequest_body search_term fields
  = UDict [(ustr_of "_source", UList (map UStr (usplit 44 fields)));
           (ustr_of "size", UInt 100);
           (ustr_of "query",
            UDict [(ustr_of "multi_match",
                    UDict [(ustr_of "query", UStr search_term)])])].
Proof. reflexivity. Qed.

Lemma urequest_body_valid search_term fields :
  valid_str search_term = true -> valid_str fields = true ->
  valid_json (urequest_body search_term fields) = true.
Proof.
  intros Hq Hf. rewrite urequest_body_shape.
  cbn [valid_json forallb fst snd andb]. rewrite Hq.
  change (valid_str (ustr_of "_source")) with true.
  change (valid_str (ustr_of "size")) with true.
  change (valid_str (ustr_of "query")) with true.
  change (valid_str (ustr_of "multi_match")) with true.
  cbn [andb]. rewrite andb_true_r. apply forallb_forall. intros x Hx.
  apply in_map_iff in Hx. destruct Hx as (w & <- & Hw).
  pose proof (usplit_valid 44 fields Hf) as Hall.
  rewrite Forall_forall in Hall. now apply Hall.
Qed.

Lemma urequest_body_joined search_term fields :
  joined (urequest_body search_term fields)
  = UDict [(ustr_of "_source",
            UList (map UStr (map join_pairs (usplit 44 fields))));
           (ustr_of "size", UInt 100);
           (ustr_of "query",
            UDict [(ustr_of "multi_match",
                    UDict [(ustr_of "query", UStr (join_pairs search_term))])])].
Proof.
  rewrite urequest_body_shape, (map_map join_pairs UStr).
  rewrite <- (map_map UStr joined). reflexivity.
Qed.

(** Whatever the search term and the field string, the body loads, as
    the body dict with the surrogate pairs of its strings joined. *)
Lemma urequest_builder_loads search_term fields :
  valid_str search_term = true -> valid_str fields = true ->
  json_loads (urequest_builder search_term fields)
  = Some (UDict [(ustr_of "_source",
                  UList (map UStr (map join_pairs (usplit 44 fields))));
                 (ustr_of "size", UInt 100);
                 (ustr_of "query",
                  UDict [(ustr_of "multi_match",
                          UDict [(ustr_of "query",
                                  UStr (join_pairs search_term))])])]).
Proof.
  intros Hq Hf. unfold urequest_builder.
  rewrite json_loads_dumps by now apply urequest_body_valid.
  now rewrite urequest_body_joined.
Qed.

End RequestFacts.

(** ** The two models of the request body agree *)

Section WidenFacts.
Local Open Scope N_scope.
Local Open Scope list_scope.


Lemma ustr_of_join (sep : string) (l : list string) :
  ustr_of (join sep l) = ujoin (ustr_of sep) (map ustr_of l).
Proof.
  induction l as [|x l IH]; [reflexivity|]. destruct l as [|y l'].
  - reflexivity.
  - rewrite join_cons_cons. cbn [map] in *. rewrite ujoin_cons_cons.
    now rewrite !ustr_of_app, IH.
Qed.

Lemma uescape_char_of (c : ascii) :
  uescape_char (N_of_ascii c) = ustr_of (escape_char c).
Proof. each_char c; reflexivity. Qed.

Lemma uescape_of (s : string) : uescape (ustr_of s) = ustr_of (escape s).
Proof.
  induction s as [|c s IH]; [reflexivity|].
  rewrite ustr_of_cons. cbn [uescape escape].
  now rewrite ustr_of_app, uescape_char_of, IH.
Qed.

Lemma uencode_of (s : string) :
  uencode_basestring_ascii (ustr_of s) = ustr_of (encode_basestring_ascii s).
Proof.
  unfold uencode_basestring_ascii, encode_basestring_ascii.
  rewrite ustr_of_cons, ustr_of_app, uescape_of. reflexivity.
Qed.

(** On values whose strings stay below 256 the two serializers write the
    same text. *)
Lemma ujson_dumps_widen (v : json) :
  ujson_dumps (widen v) = ustr_of (json_dumps v).
Proof.
  induction v using json_induction; try reflexivity.
  - now destruct b.
  - apply uencode_of.
  - rewrite json_dumps_list. cbn [widen]. rewrite ujson_dumps_list.
    change ("[" ++ join ", " (map json_dumps l) ++ "]")%string
      with (String "[" (join ", " (map json_dumps l) ++ "]")).
    rewrite (ustr_of_cons "["), ustr_of_app, ustr_of_join, !map_map.
    do 3 f_equal. apply map_ext_in. intros x Hx.
    rewrite Forall_forall in H. now apply H.
  - rewrite json_dumps_dict. cbn [widen]. rewrite ujson_dumps_dict.
    change ("{" ++ join ", " (map pair_text d) ++ "}")%string
      with (String "{" (join ", " (map pair_text d) ++ "}")).
    rewrite (ustr_of_cons "{"), ustr_of_app, ustr_of_join, !map_map.
    do 3 f_equal. apply map_ext_in. intros [k x] Hx.
    rewrite Forall_forall in H. specialize (H _ Hx). cbn [snd] in H.
    unfold upair, upair_text, pair_text. cbn [fst snd].
    now rewrite !ustr_of_app, uencode_of, H.
Qed.

Lemma N_of_ascii_lt (c : ascii) : N_of_ascii c < 256.
Proof. each_char c; reflexivity. Qed.

Lemma ustr_of_valid (s : string) : valid_str (ustr_of s) = true.
Proof.
  induction s as [|c s IH]; [reflexivity|].
  rewrite ustr_of_cons. cbn [valid_str forallb]. fold (valid_str (ustr_of s)).
  rewrite IH, andb_true_r. apply N.ltb_lt.
  pose proof (N_of_ascii_lt c). lia.
Qed.

Lemma ustr_of_pair_free (s : string) : has_pair (ustr_of s) = false.
Proof.
  induction s as [|c s IH]; [reflexivity|]. rewrite ustr_of_cons.
  destruct s as [|d s]; [reflexivity|]. rewrite ustr_of_cons in *.
  change (has_pair (N_of_ascii c :: N_of_ascii d :: ustr_of s))
    with ((is_high (N_of_ascii c) && is_low (N_of_ascii d))
          || has_pair (N_of_ascii d :: ustr_of s)).
  rewrite IH, orb_false_r.
  apply andb_false_iff. left. unfold is_high. apply andb_false_iff. left.
  apply N.leb_gt. pose proof (N_of_ascii_lt c). lia.
Qed.

Lemma ustr_of_inj (a b : string) : ustr_of a = ustr_of b -> a = b.
Proof.
  intros H. rewrite <- (string_of_ustr_of a), <- (string_of_ustr_of b).
  now rewrite H.
Qed.

Lemma usplit_of (sep : ascii) (s : string) :
  usplit (N_of_ascii sep) (ustr_of s) = map ustr_of (split sep s).
Proof.
  induction s as [|c s IH]; [reflexivity|].
  rewrite ustr_of_cons. cbn [usplit split]. rewrite IH.
  assert (E : (N_of_ascii c =? N_of_ascii sep) = Ascii.eqb c sep).
  { destruct (Ascii.eqb_spec c sep) as [->|Hne]; [apply N.eqb_refl|].
    apply N.eqb_neq. intros H. apply Hne.
    rewrite <- (ascii_N_embedding c), <- (ascii_N_embedding sep). now rewrite H. }
  rewrite E. destruct (Ascii.eqb c sep); [reflexivity|].
  destruct (split sep s); reflexivity.
Qed.

Lemma widen_request_body (search_term fields : string) :
  widen (request_body search_term fields)
  = urequest_body (ustr_of search_term) (ustr_of fields).
Proof.
  rewrite request_body_shape, urequest_body_shape. cbn [widen map fst snd].
  change 44 with (N_of_ascii ","). rewrite usplit_of, !map_map. reflexivity.
Qed.

(** The text [request_builder] writes for strings below 256 is the text
    [urequest_builder] writes for them. *)
Lemma request_builder_widen (search_term fields : string) :
  ustr_of (request_builder search_term fields)
  = urequest_builder (ustr_of search_term) (ustr_of fields).
Proof.
  unfold request_builder, urequest_builder.
  now rewrite <- ujson_dumps_widen, widen_request_body.
Qed.

Lemma request_builder_loads (search_term fields : string) :
  json_loads (ustr_of (request_builder search_term fields))
  = Some (widen (request_body search_term fields)).
Proof.
  rewrite request_builder_widen.
  rewrite urequest_builder_loads by apply ustr_of_valid.
  rewrite request_body_shape. cbn [widen map fst snd].
  change 44 with (N_of_ascii ","). rewrite usplit_of, !map_map.
  rewrite (join_pairs_free _ (ustr_of_pair_free search_term)).
  do 5 f_equal. apply map_ext. intros w. cbn [widen].
  now rewrite (join_pairs_free _ (ustr_of_pair_free w)).
Qed.

End WidenFacts.

(** ** RequestBuilder: what the body loads as *)

(** C2 fails as stated: for the query text [chr(0xD83D) + chr(0xDE00)] the
    body loads with the one character [chr(0x1F600)] as its query, not with
    the query text. *)
Lemma request_builder_joins_query :
  valid_str grin_pair = true /\
  json_loads (urequest_builder grin_pair (ustr_of "*"))
  = Some (UDict [(ustr_of "_source", UList [UStr (ustr_of "*")]);
                 (ustr_of "size", UInt 100);
                 (ustr_of "query",
                  UDict [(ustr_of "multi_match",
                          UDict [(ustr_of "query", UStr grin)])])]) /\
  ~ (exists doc,
       json_loads (urequest_builder grin_pair (ustr_of "*")) = Some doc /\
       uget_path doc ["query"; "multi_match"; "query"] = Some (UStr grin_pair)).
Proof.
  split; [reflexivity|].
  assert (E : json_loads (urequest_builder grin_pair (ustr_of "*"))
              = Some (UDict [(ustr_of "_source", UList [UStr (ustr_of "*")]);
                             (ustr_of "size", UInt 100);
                             (ustr_of "query",
                              UDict [(ustr_of "multi_match",
                                      UDict [(ustr_of "query", UStr grin)])])]))
    by (vm_compute; reflexivity).
  split; [exact E|]. intros (doc & H & Hq). rewrite E in H. injection H as <-.
  discriminate.
Qed.

(** C2 (as the code has it): whatever the query text and the field
    selection, the empty query included, the body [request_builder] returns
    loads as a document whose [size] is 100 and whose
    [query.multi_match.query] is the query text with every high surrogate
    that a low surrogate directly follows joined with it into the character
    the two encode; it is the query text itself when the text holds no such
    pair. *)
Theorem request_builder_size_and_query (search_term fields : ustr) :
  valid_str search_term = true -> valid_str fields = true ->
  exists doc,
    json_loads (urequest_builder search_term fields) = Some doc /\
    uget doc "size" = Some (UInt 100) /\
    uget_path doc ["query"; "multi_match"; "query"]
    = Some (UStr (join_pairs search_term)) /\
    (has_pair search_term = false ->
     uget_path doc ["query"; "multi_match"; "query"] = Some (UStr search_term)).
Proof.
  intros Hq Hf. eexists. split; [now apply urequest_builder_loads|].
  split; [reflexivity|]. split; [reflexivity|].
  intros Hp. now rewrite (join_pairs_free search_term Hp).
Qed.

Lemma request_builder_size_and_query_witness :
  exists doc,
    json_loads (urequest_builder [] (ustr_of "user.name,ts")) = Some doc /\
    uget doc "size" = Some (UInt 100) /\
    uget_path doc ["query"; "multi_match"; "query"] = Some (UStr []).
Proof.
  destruct (request_builder_size_and_query [] (ustr_of "user.name,ts")
              eq_refl eq_refl) as (doc & Hl & Hs & _ & Hq).
  exists doc. split; [exact Hl|]. split; [exact Hs|]. exact (Hq eq_refl).
Defined.

(** C9 fails as stated: for the field string [chr(0xD83D) + chr(0xDE00)],
    which [split] leaves in one piece, the body loads with the one character
    [chr(0x1F600)] as its only source field. *)
Lemma request_builder_joins_source :
  valid_str grin_pair = true /\
  usplit 44 grin_pair = [grin_pair] /\
  json_loads (urequest_builder (ustr_of "error") grin_pair)
  = Some (UDict [(ustr_of "_source", UList [UStr grin]);
                 (ustr_of "size", UInt 100);
                 (ustr_of "query",
                  UDict [(ustr_of "multi_match",
                          UDict [(ustr_of "query", UStr (ustr_of "error"))])])]) /\
  ~ (exists doc,
       json_loads (urequest_builder (ustr_of "error") grin_pair) = Some doc /\
       uget doc "_source" = Some (UList (map UStr (usplit 44 grin_pair)))).
Proof.
  split; [reflexivity|]. split; [reflexivity|].
  assert (E : json_loads (urequest_builder (ustr_of "error") grin_pair)
              = Some (UDict [(ustr_of "_source", UList [UStr grin]);
                             (ustr_of "size", UInt 100);
                             (ustr_of "query",
                              UDict [(ustr_of "multi_match",
                                      UDict [(ustr_of "query",
                                              UStr (ustr_of "error"))])])]))
    by (vm_compute; reflexivity).
  split; [exact E|]. intros (doc & H & Hs). rewrite E in H. injection H as <-.
  discriminate.
Qed.

(** C9 (as the code has it): the body always has a [_source] key, and its
    value is the list of the pieces of [fields] between commas (joined with
    commas the pieces give [fields] back and none of them contains a comma),
    each piece with every high surrogate that a low surrogate directly
    follows joined with it; it is the list of the pieces themselves when
    [fields] holds no such pair.  ["*"] gives [["*"]] and the empty string
    gives [[""]]. *)
Theorem request_builder_source (search_term fields : ustr) :
  valid_str search_term = true -> valid_str fields = true ->
  (exists doc,
      json_loads (urequest_builder search_term fields) = Some doc /\
      uget doc "_source"
      = Some (UList (map UStr (map join_pairs (usplit 44 fields)))) /\
      (has_pair fields = false ->
       uget doc "_source" = Some (UList (map UStr (usplit 44 fields))))) /\
  ujoin [44%N] (usplit 44 fields) = fields /\
  Forall (fun w => ~ In 44%N w) (usplit 44 fields) /\
  (exists doc,
      json_loads (urequest_builder search_term (ustr_of "*")) = Some doc /\
      uget doc "_source" = Some (UList [UStr (ustr_of "*")])) /\
  (exists doc,
      json_loads (urequest_builder search_term (ustr_of "")) = Some doc /\
      uget doc "_source" = Some (UList [UStr []])).
Proof.
  intros Hq Hf. repeat split.
  - eexists. split; [now apply urequest_builder_loads|].
    split; [reflexivity|]. intros Hp. cbn [uget].
    now rewrite (map_join_pairs_free _ (usplit_pair_free 44 fields Hp)).
  - apply ujoin_usplit.
  - apply usplit_pieces.
  - eexists. split; [now apply urequest_builder_loads | reflexivity].
  - eexists. split; [now apply urequest_builder_loads | reflexivity].
Qed.

Lemma request_builder_source_witness :
  exists doc,
    json_loads (urequest_builder (ustr_of "error") (ustr_of "user.name,ts"))
    = Some doc /\
    uget doc "_source"
    = Some (UList [UStr (ustr_of "user.name"); UStr (ustr_of "ts")]).
Proof.
  destruct (request_builder_source (ustr_of "error") (ustr_of "user.name,ts")
              eq_refl eq_refl) as ((doc & Hl & _ & Hs) & _).
  exists doc. split; [exact Hl|]. exact (Hs eq_refl).
Defined.

Example request_builder_empty_query :
  json_loads (urequest_builder [] (ustr_of "*"))
  = Some (UDict [(ustr_of "_source", UList [UStr (ustr_of "*")]);
                 (ustr_of "size", UInt 100);
                 (ustr_of "query",
                  UDict [(ustr_of "multi_match",
                          UDict [(ustr_of "query", UStr [])])])]).
Proof. vm_compute. reflexivity. Qed.

(** A pair of escapes that [json.dumps] never writes: a high surrogate
    followed by a low one reads as one character, followed by anything else
    it stays. *)
Example scanstring_surrogates :
  scanstring (u_escape 55357 ++ u_escape 56832 ++ [34%N])%list = Some (grin, []) /\
  scanstring (u_escape 55357 ++ [65%N; 34%N])%list = Some ([55357%N; 65%N], []) /\
  scanstring (u_escape 56832 ++ u_escape 55357 ++ [34%N])%list
  = Some ([56832%N; 55357%N], []) /\
  scanstring (u_escape 55357 ++ [92%N; 117%N; 122%N; 122%N; 122%N; 122%N; 34%N])%list
  = None.
Proof. repeat split; vm_compute; reflexivity. Qed.

(** * Further properties *)

(** ** What makes a sort raise *)

Section MergeRaise.
Context {A : Type}.
Variable lt : A -> A -> result bool.


End MergeRaise.


Lemma sort_values_known_column (cell_lt : json -> json -> result bool)
      (df : DataFrame) (header : string) (ascending : bool) (d : DataFrame) :
  sort_values cell_lt df header ascending = Ok d -> In header (columns df).
Proof.
  unfold sort_values.
  destruct (existsb (String.eqb header) (columns df)) eqn:Ecol; [|discriminate].
  intros _. apply existsb_exists in Ecol. destruct Ecol as (h & Hin & Heq).
  apply String.eqb_eq in Heq. now subst.
Qed.



(** ** The order a sort leaves *)

Lemma StronglySorted_weaken {A : Type} (R R' : A -> A -> Prop) (l : list A) :
  (forall x y, In x l -> In y l -> R x y -> R' x y) ->
  StronglySorted R l -> StronglySorted R' l.
Proof.
  induction l as [|a l IH]; intros Himp Hs; [constructor|].
  apply StronglySorted_inv in Hs. destruct Hs as [Hs Ha].
  constructor.
  - apply IH; [|exact Hs]. intros x y Hx Hy. apply Himp; now right.
  - rewrite Forall_forall in *. intros y Hy.
    apply Himp; [now left | now right | now apply Ha].
Qed.

Lemma StronglySorted_snoc {A : Type} (R : A -> A -> Prop) (l : list A) (a : A) :
  StronglySorted R l -> (forall x, In x l -> R x a) ->
  StronglySorted R (l ++ [a]).
Proof.
  induction l as [|b l IH]; intros Hs Ha; cbn [app].
  - repeat constructor.
  - apply StronglySorted_inv in Hs. destruct Hs as [Hs Hb].
    constructor.
    + apply IH; [exact Hs|]. intros x Hx. apply Ha. now right.
    + rewrite Forall_forall in *. intros y Hy. apply in_app_or in Hy.
      destruct Hy as [Hy|[<-|[]]]; [now apply Hb | apply Ha; now left].
Qed.

Lemma StronglySorted_rev {A : Type} (R : A -> A -> Prop) (l : list A) :
  StronglySorted R l -> StronglySorted (fun x y => R y x) (rev l).
Proof.
  induction l as [|a l IH]; intros Hs; [constructor|].
  apply StronglySorted_inv in Hs. destruct Hs as [Hs Ha].
  cbn [rev]. apply StronglySorted_snoc; [now apply IH|].
  rewrite Forall_forall in Ha. intros x Hx. apply Ha. now apply in_rev.
Qed.

Lemma sorted_rows_asc_sorted cell_lt df header :
  strict_weak_order_on (row_lt cell_lt header) (non_nan_rows df header) ->
  StronglySorted (fun r1 r2 => row_lt cell_lt header r2 r1 = Ok false)
                 (sorted_rows cell_lt df header true).
Proof.
  intros Hswo. pose proof Hswo as (Hc & _ & _).
  set (P := non_nan_rows df header) in *.
  set (lt := row_lt cell_lt header) in *.
  apply (StronglySorted_weaken (fun x y => ltb_of lt y x = false)).
  - intros x y Hx Hy H.
    apply (ltb_of_false lt P Hc); auto;
      now apply (Permutation_in _ (sorted_rows_perm cell_lt df header true)).
  - apply (msort_t_sorted (ltb_of lt) P
             (strict_weak_order_asym lt P Hswo)
             (strict_weak_order_negtrans lt P Hswo));
      [apply Nat.le_refl | apply incl_refl].
Qed.

Lemma sorted_rows_desc_sorted cell_lt df header :
  strict_weak_order_on (row_lt cell_lt header) (non_nan_rows df header) ->
  StronglySorted (fun r1 r2 => row_lt cell_lt header r1 r2 = Ok false)
                 (sorted_rows cell_lt df header false).
Proof.
  intros Hswo. pose proof Hswo as (Hc & _ & _).
  set (P := non_nan_rows df header) in *.
  set (lt := row_lt cell_lt header) in *.
  assert (Hrev : forall x, In x (rev P) -> In x P)
    by (intros x Hx; now apply in_rev).
  pose proof (strict_weak_order_on_incl lt P (rev P) Hrev Hswo) as Hswo'.
  apply (StronglySorted_weaken (fun x y => ltb_of lt x y = false)).
  - intros x y Hx Hy H.
    apply (ltb_of_false lt P Hc); auto;
      now apply (Permutation_in _ (sorted_rows_perm cell_lt df header false)).
  - unfold sorted_rows.
    apply (StronglySorted_rev (fun x y => ltb_of lt y x = false)).
    apply (msort_t_sorted (ltb_of lt) (rev P)
             (strict_weak_order_asym lt _ Hswo')
             (strict_weak_order_negtrans lt _ Hswo'));
      [apply Nat.le_refl | apply incl_refl].
Qed.

(** X2: the sorts sort.  When [<] is a strict weak order on the values of
    the column, the rows with a value come out ascending (no row is above a
    later one) from [column_sort_asc] and descending (no row is below a later
    one) from [column_sort_desc]. *)
Theorem column_sort_orders (cell_lt : json -> json -> result bool)
        (df : DataFrame) (header : string) :
  In header (columns df) ->
  strict_weak_order_on (row_lt cell_lt header) (non_nan_rows df header) ->
  exists asc desc front_asc front_desc,
    column_sort_asc cell_lt df header = Ok asc /\
    column_sort_desc cell_lt df header = Ok desc /\
    rows asc = (front_asc ++ nan_rows df header)%list /\
    rows desc = (front_desc ++ nan_rows df header)%list /\
    StronglySorted (fun r1 r2 => row_lt cell_lt header r2 r1 = Ok false) front_asc /\
    StronglySorted (fun r1 r2 => row_lt cell_lt header r1 r2 = Ok false) front_desc.
Proof.
  intros Hcol Hswo. pose proof Hswo as (Hc & _ & _).
  eexists. eexists.
  exists (sorted_rows cell_lt df header true), (sorted_rows cell_lt df header false).
  unfold column_sort_asc, column_sort_desc.
  rewrite !sort_values_ok by assumption.
  repeat split; try reflexivity.
  - now apply sorted_rows_asc_sorted.
  - now apply sorted_rows_desc_sorted.
Qed.

Lemma column_sort_orders_witness :
  exists asc desc front_asc front_desc,
    column_sort_asc int_lt sample_table "k" = Ok asc /\
    column_sort_desc int_lt sample_table "k" = Ok desc /\
    rows asc = (front_asc ++ nan_rows sample_table "k")%list /\
    rows desc = (front_desc ++ nan_rows sample_table "k")%list /\
    StronglySorted (fun r1 r2 => row_lt int_lt "k" r2 r1 = Ok false) front_asc /\
    StronglySorted (fun r1 r2 => row_lt int_lt "k" r1 r2 = Ok false) front_desc.
Proof.
  apply (column_sort_orders int_lt sample_table "k").
  - simpl. auto.
  - exact sample_table_order.
Defined.

(** ** A stable sort has one result *)

Section StableUnique.
Context {A : Type}.
Variable ltb : A -> A -> bool.
Variable D : list A.
Hypothesis ltb_asym :
  forall x y, In x D -> In y D -> ltb x y = true -> ltb y x = false.
Hypothesis ltb_negtrans :
  forall x y z, In x D -> In y D -> In z D ->
    ltb x z = true -> ltb x y = true \/ ltb y z = true.

Lemma ltb_irrefl x : In x D -> ltb x x = false.
Proof.
  intros Hx. destruct (ltb x x) eqn:E; [|reflexivity].
  rewrite (ltb_asym x x Hx Hx E) in E. discriminate.
Qed.

Lemma tied_refl x : In x D -> tied ltb x x = true.
Proof. intros Hx. unfold tied. now rewrite (ltb_irrefl x Hx). Qed.

Lemma tied_sym x y : tied ltb x y = tied ltb y x.
Proof. unfold tied. apply andb_comm. Qed.

(** The members of one class of ties are not below each other. *)
Lemma tied_class a x y :
  In a D -> In x D -> In y D ->
  tied ltb a x = true -> tied ltb a y = true -> ltb x y = false.
Proof.
  unfold tied. intros Ha Hx Hy H1 H2.
  apply andb_true_iff in H1, H2. destruct H1 as [_ H1], H2 as [H2 _].
  apply negb_true_iff in H1, H2.
  destruct (ltb x y) eqn:E; [|reflexivity].
  destruct (ltb_negtrans x a y Hx Ha Hy E); congruence.
Qed.

Lemma filter_head_in (q : A -> bool) (l : list A) a r :
  filter q l = a :: r -> In a l.
Proof.
  intros H. assert (Ha : In a (filter q l)) by (rewrite H; now left).
  now apply filter_In in Ha.
Qed.

(** Two sorted lists with the same classes of ties, each class in the same
    order, are the same list. *)
Lemma stable_sorted_unique (l1 : list A) : forall l2,
  incl l1 D -> incl l2 D ->
  sorted_by ltb l1 -> sorted_by ltb l2 ->
  (forall a, In a D -> filter (tied ltb a) l1 = filter (tied ltb a) l2) ->
  l1 = l2.
Proof.
  unfold sorted_by.
  induction l1 as [|a l1 IH]; intros l2 Hi1 Hi2 Hs1 Hs2 Hf.
  - destruct l2 as [|b l2]; [reflexivity|].
    assert (Hb : In b D) by (apply Hi2; now left).
    specialize (Hf b Hb). cbn [filter] in Hf.
    rewrite (tied_refl b Hb) in Hf. discriminate.
  - assert (Ha : In a D) by (apply Hi1; now left).
    destruct l2 as [|b l2].
    { specialize (Hf a Ha). cbn [filter] in Hf.
      rewrite (tied_refl a Ha) in Hf. discriminate. }
    assert (Hb : In b D) by (apply Hi2; now left).
    apply StronglySorted_inv in Hs1 as Hs1'. destruct Hs1' as [Hs1' Ha1].
    apply StronglySorted_inv in Hs2 as Hs2'. destruct Hs2' as [Hs2' Hb2].
    rewrite Forall_forall in Ha1, Hb2.
    assert (Hab : a = b).
    { pose proof (Hf a Ha) as Fa. pose proof (Hf b Hb) as Fb.
      rewrite !filter_cons in Fa, Fb.
      rewrite (tied_refl a Ha) in Fa. rewrite (tied_refl b Hb) in Fb.
      rewrite (tied_sym b a) in Fb.
      destruct (tied ltb a b) eqn:T.
      - now injection Fa.
      - exfalso. symmetry in Fa.
        apply filter_head_in in Fa. apply filter_head_in in Fb.
        pose proof (Hb2 a Fa) as H1. pose proof (Ha1 b Fb) as H2.
        cbv beta in H1, H2. unfold tied in T. rewrite H1, H2 in T.
        discriminate. }
    subst b. f_equal.
    apply IH; auto.
    + intros x Hx. apply Hi1. now right.
    + intros x Hx. apply Hi2. now right.
    + intros c Hc. specialize (Hf c Hc). rewrite !filter_cons in Hf.
      destruct (tied ltb c a); [now injection Hf | exact Hf].
Qed.

(** Lists with the same classes of ties sort to the same list. *)
Lemma mergesort_t_agree (l l' : list A) :
  incl l D -> incl l' D ->
  (forall a, In a D -> filter (tied ltb a) l = filter (tied ltb a) l') ->
  mergesort_t ltb l = mergesort_t ltb l'.
Proof.
  intros Hi Hi' Hf. unfold mergesort_t.
  apply stable_sorted_unique.
  - now apply msort_t_incl.
  - now apply msort_t_incl.
  - apply (msort_t_sorted ltb D ltb_asym ltb_negtrans); [apply Nat.le_refl | exact Hi].
  - apply (msort_t_sorted ltb D ltb_asym ltb_negtrans); [apply Nat.le_refl | exact Hi'].
  - intros a Ha.
    rewrite (msort_t_filter ltb D ltb_asym ltb_negtrans (tied ltb a)
               (fun x y Hx Hy => tied_class a x y Ha Hx Hy));
      [| apply Nat.le_refl | exact Hi].
    rewrite (msort_t_filter ltb D ltb_asym ltb_negtrans (tied ltb a)
               (fun x y Hx Hy => tied_class a x y Ha Hx Hy));
      [| apply Nat.le_refl | exact Hi'].
    now apply Hf.
Qed.

Lemma mergesort_t_filter_tied (l : list A) a :
  incl l D -> In a D ->
  filter (tied ltb a) (mergesort_t ltb l) = filter (tied ltb a) l.
Proof.
  intros Hi Ha. unfold mergesort_t.
  apply (msort_t_filter ltb D ltb_asym ltb_negtrans (tied ltb a)
           (fun x y Hx Hy => tied_class a x y Ha Hx Hy));
    [apply Nat.le_refl | exact Hi].
Qed.
End StableUnique.

Lemma filter_all {A : Type} (q : A -> bool) (l : list A) :
  (forall a, In a l -> q a = true) -> filter q l = l.
Proof.
  induction l as [|a l IH]; intros G; [reflexivity|].
  cbn [filter]. rewrite (G a (or_introl eq_refl)). f_equal.
  apply IH. intros b Hb. apply G. now right.
Qed.

Section SortAgain.
Variable cell_lt : json -> json -> result bool.
Variable df : DataFrame.
Variable header : string.
Hypothesis header_in : In header (columns df).
Hypothesis order :
  strict_weak_order_on (row_lt cell_lt header) (non_nan_rows df header).

(** The table a sort leaves. *)
Let sorted_table (ascending : bool) : DataFrame :=
  {| columns := columns df;
     rows := (sorted_rows cell_lt df header ascending ++ nan_rows df header)%list |}.

Lemma sorted_table_non_nan b :
  non_nan_rows (sorted_table b) header = sorted_rows cell_lt df header b.
Proof.
  unfold non_nan_rows, sorted_table. cbn [rows]. rewrite filter_app.
  rewrite filter_all, filter_none.
  - apply app_nil_r.
  - intros r Hr. apply in_nan_rows in Hr. now rewrite Hr.
  - intros r Hr. apply sorted_rows_present in Hr. now rewrite Hr.
Qed.

Lemma sorted_table_nan b :
  nan_rows (sorted_table b) header = nan_rows df header.
Proof.
  unfold nan_rows at 1. unfold sorted_table. cbn [rows]. rewrite filter_app.
  rewrite filter_none, filter_all.
  - reflexivity.
  - intros r Hr. now apply in_nan_rows in Hr.
  - intros r Hr. now apply sorted_rows_present in Hr.
Qed.

Lemma sorted_rows_classes b a :
  In a (non_nan_rows df header) ->
  filter (tied (ltb_of (row_lt cell_lt header)) a)
         (sorted_rows cell_lt df header b)
  = filter (tied (ltb_of (row_lt cell_lt header)) a) (non_nan_rows df header).
Proof.
  intros Ha.
  set (P := non_nan_rows df header) in *.
  set (lt := row_lt cell_lt header) in *.
  assert (Hrev : forall x, In x (rev P) -> In x P)
    by (intros x Hx; now apply in_rev).
  pose proof (strict_weak_order_on_incl lt P (rev P) Hrev order) as order'.
  unfold sorted_rows. fold P. fold lt. destruct b.
  - apply (mergesort_t_filter_tied (ltb_of lt) P
             (strict_weak_order_asym lt P order)
             (strict_weak_order_negtrans lt P order));
      [apply incl_refl | exact Ha].
  - rewrite filter_rev.
    rewrite (mergesort_t_filter_tied (ltb_of lt) (rev P)
               (strict_weak_order_asym lt _ order')
               (strict_weak_order_negtrans lt _ order'));
      [| apply incl_refl | now apply -> in_rev].
    now rewrite filter_rev, rev_involutive.
Qed.

Lemma sorted_rows_in b r :
  In r (sorted_rows cell_lt df header b) <-> In r (non_nan_rows df header).
Proof.
  split; intros H.
  - now apply (Permutation_in _ (sorted_rows_perm cell_lt df header b)).
  - apply (Permutation_in _ (Permutation_sym (sorted_rows_perm cell_lt df header b))).
    exact H.
Qed.

(** Sorting a sorted table sorts the table it came from. *)
Lemma sorted_rows_again b1 b2 :
  sorted_rows cell_lt (sorted_table b1) header b2
  = sorted_rows cell_lt df header b2.
Proof.
  set (P := non_nan_rows df header).
  set (lt := row_lt cell_lt header).
  assert (Hrev : forall x, In x (rev P) -> In x P)
    by (intros x Hx; now apply in_rev).
  pose proof (strict_weak_order_on_incl lt P (rev P) Hrev order) as order'.
  unfold sorted_rows at 1. rewrite sorted_table_non_nan.
  pose proof (sorted_rows_classes b1) as Hcl.
  pose proof (sorted_rows_in b1) as Hin.
  fold P in Hcl, Hin. fold lt in Hcl.
  revert Hcl Hin. generalize (sorted_rows cell_lt df header b1) as S1.
  intros S1 Hcl Hin.
  unfold sorted_rows. fold P. fold lt. destruct b2.
  - apply (mergesort_t_agree (ltb_of lt) P
             (strict_weak_order_asym lt P order)
             (strict_weak_order_negtrans lt P order)).
    + intros r Hr. now apply Hin.
    + apply incl_refl.
    + exact Hcl.
  - f_equal.
    apply (mergesort_t_agree (ltb_of lt) (rev P)
             (strict_weak_order_asym lt _ order')
             (strict_weak_order_negtrans lt _ order')).
    + intros r Hr. apply in_rev in Hr. apply Hin in Hr.
      now apply -> in_rev.
    + apply incl_refl.
    + intros a Ha. rewrite !filter_rev. f_equal.
      apply Hcl. now apply in_rev.
Qed.

Lemma sort_values_again b1 b2 :
  sort_values cell_lt (sorted_table b1) header b2 = Ok (sorted_table b2).
Proof.
  pose proof order as (Hc & _ & _).
  rewrite sort_values_ok.
  - rewrite sorted_rows_again, sorted_table_nan. reflexivity.
  - exact header_in.
  - rewrite sorted_table_non_nan. intros x y Hx Hy.
    apply Hc; now apply sorted_rows_in in Hx, Hy.
Qed.

Lemma sort_values_first b :
  sort_values cell_lt df header b = Ok (sorted_table b).
Proof.
  pose proof order as (Hc & _ & _). now apply sort_values_ok.
Qed.
End SortAgain.

(** X3: sorting twice in the same direction is sorting once: a table that
    [column_sort_asc] (or [column_sort_desc]) returned is left as it is by
    the same sort. *)
Theorem column_sort_idempotent (cell_lt : json -> json -> result bool)
        (df : DataFrame) (header : string) :
  In header (columns df) ->
  strict_weak_order_on (row_lt cell_lt header) (non_nan_rows df header) ->
  exists asc desc,
    column_sort_asc cell_lt df header = Ok asc /\
    column_sort_desc cell_lt df header = Ok desc /\
    column_sort_asc cell_lt asc header = Ok asc /\
    column_sort_desc cell_lt desc header = Ok desc.
Proof.
  intros Hcol Hswo.
  exists {| columns := columns df;
            rows := (sorted_rows cell_lt df header true
                     ++ nan_rows df header)%list |},
         {| columns := columns df;
            rows := (sorted_rows cell_lt df header false
                     ++ nan_rows df header)%list |}.
  unfold column_sort_asc, column_sort_desc.
  repeat split;
    try (now apply sort_values_first); now apply sort_values_again.
Qed.

Lemma column_sort_idempotent_witness :
  exists asc desc,
    column_sort_asc int_lt sample_table "k" = Ok asc /\
    column_sort_desc int_lt sample_table "k" = Ok desc /\
    column_sort_asc int_lt asc "k" = Ok asc /\
    column_sort_desc int_lt desc "k" = Ok desc.
Proof.
  apply (column_sort_idempotent int_lt sample_table "k").
  - simpl. auto.
  - exact sample_table_order.
Defined.

(** X4: an earlier sort of the column leaves no trace in a later one:
    sorting descending what was sorted ascending gives the descending sort of
    the original table, and the other way round.  In particular rows that tie
    stand in their original order after any sequence of sorts. *)
Theorem column_sort_switch (cell_lt : json -> json -> result bool)
        (df : DataFrame) (header : string) :
  In header (columns df) ->
  strict_weak_order_on (row_lt cell_lt header) (non_nan_rows df header) ->
  exists asc desc,
    column_sort_asc cell_lt df header = Ok asc /\
    column_sort_desc cell_lt df header = Ok desc /\
    column_sort_desc cell_lt asc header = Ok desc /\
    column_sort_asc cell_lt desc header = Ok asc.
Proof.
  intros Hcol Hswo.
  exists {| columns := columns df;
            rows := (sorted_rows cell_lt df header true
                     ++ nan_rows df header)%list |},
         {| columns := columns df;
            rows := (sorted_rows cell_lt df header false
                     ++ nan_rows df header)%list |}.
  unfold column_sort_asc, column_sort_desc.
  repeat split;
    try (now apply sort_values_first); now apply sort_values_again.
Qed.

Lemma column_sort_switch_witness :
  exists asc desc,
    column_sort_asc int_lt sample_table "k" = Ok asc /\
    column_sort_desc int_lt sample_table "k" = Ok desc /\
    column_sort_desc int_lt asc "k" = Ok desc /\
    column_sort_asc int_lt desc "k" = Ok asc.
Proof.
  apply (column_sort_switch int_lt sample_table "k").
  - simpl. auto.
  - exact sample_table_order.
Defined.

(** ** The grid *)

Lemma dict_get_set_same {V : Type} (d : dict V) k v :
  dict_get (dict_set d k v) k = Some v.
Proof.
  induction d as [|[k0 v0] d IH]; cbn [dict_set dict_get].
  - now rewrite String.eqb_refl.
  - destruct (String.eqb k0 k) eqn:E; cbn [dict_get]; now rewrite E.
Qed.

Lemma dict_get_set_other {V : Type} (d : dict V) k v k' :
  k' <> k -> dict_get (dict_set d k v) k' = dict_get d k'.
Proof.
  intros Hne. induction d as [|[k0 v0] d IH]; cbn [dict_set dict_get].
  - destruct (String.eqb_spec k k'); [congruence | reflexivity].
  - destruct (String.eqb_spec k0 k) as [->|Hk]; cbn [dict_get].
    + destruct (String.eqb_spec k k'); [congruence | reflexivity].
    + destruct (String.eqb k0 k'); [reflexivity | exact IH].
Qed.

Lemma dict_keys_set_known {V : Type} (d : dict V) k v :
  In k (dict_keys d) -> dict_keys (dict_set d k v) = dict_keys d.
Proof.
  induction d as [|[k0 v0] d IH]; cbn [dict_set dict_keys map fst]; [intros []|].
  intros Hin. destruct (String.eqb_spec k0 k) as [->|Hk]; [reflexivity|].
  cbn [map fst]. f_equal. apply IH. destruct Hin as [H|H]; [congruence | exact H].
Qed.

Lemma headings_get (cols : list string) (c : sort_command) header :
  In header cols -> dict_get (map (fun h => (h, c)) cols) header = Some c.
Proof.
  induction cols as [|h cols IH]; [intros []|]. cbn [map dict_get].
  destruct (String.eqb_spec h header) as [->|Hne]; [reflexivity|].
  intros [H|H]; [congruence | now apply IH].
Qed.

Lemma headings_keys (cols : list string) (c : sort_command) :
  dict_keys (map (fun h => (h, c)) cols) = cols.
Proof.
  unfold dict_keys. rewrite map_map. cbn [fst]. apply map_id.
Qed.

(** The grid a successful sort leaves. *)
Lemma grid_after_sort (g : ResultsGrid) (sorted : DataFrame) header c :
  In header (columns sorted) ->
  let g' := bind_heading
              (populate {| search_results := sorted;
                           headings := headings g;
                           treeview_rows := treeview_rows g |}) header c in
  grid_ok g' /\
  search_results g' = sorted /\
  dict_get (headings g') header = Some c /\
  forall h, h <> header -> In h (columns sorted) ->
    dict_get (headings g') h = Some SortAsc.
Proof.
  intros Hin g'. unfold g', bind_heading, populate, grid_ok.
  cbn [search_results headings treeview_rows]. repeat split.
  - rewrite dict_keys_set_known; rewrite headings_keys; [reflexivity | exact Hin].
  - apply dict_get_set_same.
  - intros h Hne Hh. rewrite dict_get_set_other by exact Hne.
    now apply headings_get.
Qed.

(** X5: the view follows the table.  A click on a heading that returns
    leaves a grid whose headings are the table's columns and whose rows are the
    table's rows, the table having the same columns and the same rows in
    another order. *)
Theorem heading_click_keeps_view (cell_lt : json -> json -> result bool)
        (g g' : ResultsGrid) (header : string) :
  grid_ok g ->
  heading_click cell_lt g header = Ok g' ->
  grid_ok g' /\
  columns (search_results g') = columns (search_results g) /\
  Permutation (rows (search_results g)) (rows (search_results g')).
Proof.
  intros Hok. unfold heading_click, grid_sort_asc, grid_sort_desc,
    column_sort_asc, column_sort_desc.
  destruct (dict_get (headings g) header) as [[|]|].
  - destruct (sort_values cell_lt (search_results g) header true) as [d|e] eqn:E;
      cbn [bind]; [|discriminate]. intros [= <-].
    destruct (sort_values_perm _ _ _ _ _ E) as [Hperm Hcols].
    pose proof (sort_values_known_column _ _ _ _ _ E) as Hin.
    rewrite <- Hcols in Hin.
    destruct (grid_after_sort g d header SortDesc Hin) as (H1 & H2 & _).
    split; [exact H1|]. rewrite H2. now split.
  - destruct (sort_values cell_lt (search_results g) header false) as [d|e] eqn:E;
      cbn [bind]; [|discriminate]. intros [= <-].
    destruct (sort_values_perm _ _ _ _ _ E) as [Hperm Hcols].
    pose proof (sort_values_known_column _ _ _ _ _ E) as Hin.
    rewrite <- Hcols in Hin.
    destruct (grid_after_sort g d header SortAsc Hin) as (H1 & H2 & _).
    split; [exact H1|]. rewrite H2. now split.
  - intros [= <-]. repeat split; try apply Hok. reflexivity.
Qed.

Lemma heading_click_keeps_view_witness :
  exists g',
    heading_click int_lt sample_grid "k" = Ok g' /\
    grid_ok g' /\
    columns (search_results g') = columns (search_results sample_grid) /\
    Permutation (rows (search_results sample_grid)) (rows (search_results g')).
Proof.
  eexists. split; [reflexivity|].
  apply (heading_click_keeps_view int_lt sample_grid _ "k").
  - split; reflexivity.
  - reflexivity.
Defined.

(** X6: the headings toggle.  After a click that returns, the clicked
    heading is bound to the other direction and every other heading of the
    table is bound to the ascending sort again. *)
Theorem heading_click_toggles (cell_lt : json -> json -> result bool)
        (g g' : ResultsGrid) (header : string) (c : sort_command) :
  dict_get (headings g) header = Some c ->
  heading_click cell_lt g header = Ok g' ->
  dict_get (headings g') header = Some (toggled c) /\
  forall h, h <> header -> In h (columns (search_results g)) ->
    dict_get (headings g') h = Some SortAsc.
Proof.
  intros Hc. unfold heading_click, grid_sort_asc, grid_sort_desc,
    column_sort_asc, column_sort_desc. rewrite Hc.
  destruct c.
  - destruct (sort_values cell_lt (search_results g) header true) as [d|e] eqn:E;
      cbn [bind]; [|discriminate]. intros [= <-].
    destruct (sort_values_perm _ _ _ _ _ E) as [_ Hcols].
    pose proof (sort_values_known_column _ _ _ _ _ E) as Hin.
    rewrite <- Hcols in Hin.
    destruct (grid_after_sort g d header SortDesc Hin) as (_ & _ & H3 & H4).
    split; [exact H3|]. intros h Hne Hh. apply H4; [exact Hne|].
    now rewrite Hcols.
  - destruct (sort_values cell_lt (search_results g) header false) as [d|e] eqn:E;
      cbn [bind]; [|discriminate]. intros [= <-].
    destruct (sort_values_perm _ _ _ _ _ E) as [_ Hcols].
    pose proof (sort_values_known_column _ _ _ _ _ E) as Hin.
    rewrite <- Hcols in Hin.
    destruct (grid_after_sort g d header SortAsc Hin) as (_ & _ & H3 & H4).
    split; [exact H3|]. intros h Hne Hh. apply H4; [exact Hne|].
    now rewrite Hcols.
Qed.

Lemma heading_click_toggles_witness :
  exists g',
    heading_click int_lt sample_grid "k" = Ok g' /\
    dict_get (headings g') "k" = Some (toggled SortAsc) /\
    forall h, h <> "k" -> In h (columns (search_results sample_grid)) ->
      dict_get (headings g') h = Some SortAsc.
Proof.
  eexists. split; [reflexivity|].
  apply (heading_click_toggles int_lt sample_grid _ "k" SortAsc); reflexivity.
Defined.




(** X8: clicking one heading again and again alternates the two sorts of
    the table that was searched.  From a freshly populated grid the first
    click shows the ascending sort, the second the descending sort of the
    original table, and the third brings back the grid of the first. *)
Theorem heading_click_cycle (cell_lt : json -> json -> result bool)
        (g : ResultsGrid) (header : string) :
  In header (columns (search_results g)) ->
  strict_weak_order_on (row_lt cell_lt header)
                       (non_nan_rows (search_results g) header) ->
  exists asc desc g1 g2,
    column_sort_asc cell_lt (search_results g) header = Ok asc /\
    column_sort_desc cell_lt (search_results g) header = Ok desc /\
    heading_click cell_lt (populate g) header = Ok g1 /\
    search_results g1 = asc /\
    heading_click cell_lt g1 header = Ok g2 /\
    search_results g2 = desc /\
    heading_click cell_lt g2 header = Ok g1.
Proof.
  intros Hcol Hswo. set (df := search_results g) in *.
  set (asc := {| columns := columns df;
                 rows := (sorted_rows cell_lt df header true
                          ++ nan_rows df header)%list |}).
  set (desc := {| columns := columns df;
                  rows := (sorted_rows cell_lt df header false
                           ++ nan_rows df header)%list |}).
  pose proof (sort_values_first cell_lt df header Hcol Hswo true) as Ha.
  pose proof (sort_values_first cell_lt df header Hcol Hswo false) as Hd.
  pose proof (sort_values_again cell_lt df header Hcol Hswo true false) as Had.
  pose proof (sort_values_again cell_lt df header Hcol Hswo false true) as Hda.
  change (sort_values cell_lt df header true = Ok asc) in Ha.
  change (sort_values cell_lt df header false = Ok desc) in Hd.
  change (sort_values cell_lt asc header false = Ok desc) in Had.
  change (sort_values cell_lt desc header true = Ok asc) in Hda.
  set (g1 := bind_heading
               (populate {| search_results := asc; headings := headings (populate g);
                            treeview_rows := treeview_rows (populate g) |})
               header SortDesc).
  set (g2 := bind_heading
               (populate {| search_results := desc; headings := headings g1;
                            treeview_rows := treeview_rows g1 |})
               header SortAsc).
  exists asc, desc, g1, g2.
  assert (H0 : dict_get (headings (populate g)) header = Some SortAsc)
    by (apply headings_get; exact Hcol).
  assert (H1 : dict_get (headings g1) header = Some SortDesc)
    by apply dict_get_set_same.
  assert (H2 : dict_get (headings g2) header = Some SortAsc)
    by apply dict_get_set_same.
  repeat split.
  - exact Ha.
  - exact Hd.
  - unfold heading_click. rewrite H0. unfold grid_sort_asc, column_sort_asc.
    change (search_results (populate g)) with df. now rewrite Ha.
  - unfold heading_click. rewrite H1. unfold grid_sort_desc, column_sort_desc.
    change (search_results g1) with asc. now rewrite Had.
  - unfold heading_click. rewrite H2. unfold grid_sort_asc, column_sort_asc.
    change (search_results g2) with desc. now rewrite Hda.
Qed.

Lemma heading_click_cycle_witness :
  exists asc desc g1 g2,
    column_sort_asc int_lt (search_results sample_grid) "k" = Ok asc /\
    column_sort_desc int_lt (search_results sample_grid) "k" = Ok desc /\
    heading_click int_lt (populate sample_grid) "k" = Ok g1 /\
    search_results g1 = asc /\
    heading_click int_lt g1 "k" = Ok g2 /\
    search_results g2 = desc /\
    heading_click int_lt g2 "k" = Ok g1.
Proof.
  apply (heading_click_cycle int_lt sample_grid "k").
  - simpl. auto.
  - exact sample_table_order.
Defined.

(** ** Check lists and the search request *)

Lemma split_piece sep w :
  ~ In sep (list_ascii_of_string w) -> split sep w = [w].
Proof.
  induction w as [|c w IH]; [reflexivity|]. cbn [list_ascii_of_string split].
  intros Hn. destruct (Ascii.eqb_spec c sep) as [->|Hne].
  - exfalso. apply Hn. now left.
  - rewrite IH; [reflexivity|]. intros H. apply Hn. now right.
Qed.

Lemma split_piece_then sep w rest :
  ~ In sep (list_ascii_of_string w) ->
  split sep (w ++ String sep rest) = w :: split sep rest.
Proof.
  induction w as [|c w IH]; cbn [list_ascii_of_string String.append split].
  - intros _. now rewrite Ascii.eqb_refl.
  - intros Hn. destruct (Ascii.eqb_spec c sep) as [->|Hne].
    + exfalso. apply Hn. now left.
    + rewrite IH; [reflexivity|]. intros H. apply Hn. now right.
Qed.

(** Splitting what was joined gives the pieces back, when there is a piece
    and no piece holds the separator. *)
Lemma split_join sep (l : list string) :
  l <> [] ->
  Forall (fun w => ~ In sep (list_ascii_of_string w)) l ->
  split sep (join (String sep "") l) = l.
Proof.
  induction l as [|w l IH]; [easy|]. intros _ Hall.
  inversion Hall as [|? ? Hw Hl]; subst.
  destruct l as [|y l'].
  - cbn [join]. now apply split_piece.
  - rewrite join_cons_cons.
    change (String sep "" ++ join (String sep "") (y :: l'))
      with (String sep (join (String sep "") (y :: l'))).
    rewrite split_piece_then by exact Hw. f_equal.
    apply IH; [discriminate | exact Hl].
Qed.

(** X9: the comma-joined selection splits back into the checked captions.
    When at least one button after the first is selected and no checked
    caption holds a comma, splitting [return_checked] on commas gives exactly
    the checked captions, in check-list order; with nothing checked
    [return_checked] is the empty string, which splits into one empty
    piece. *)
Theorem return_checked_split (slaves : list Checkbutton) :
  Forall (fun w => ~ In ","%char (list_ascii_of_string w))
         (map text (filter selected (tl slaves))) ->
  (filter selected (tl slaves) <> [] ->
   split ","%char (return_checked slaves)
   = map text (filter selected (tl slaves))) /\
  (filter selected (tl slaves) = [] ->
   return_checked slaves = EmptyString /\
   split ","%char (return_checked slaves) = [EmptyString]).
Proof.
  intros Hall. unfold return_checked. split.
  - intros Hne. apply split_join; [|exact Hall].
    destruct (filter selected (tl slaves)); [contradiction | discriminate].
  - intros ->. split; reflexivity.
Qed.

Lemma return_checked_split_witness :
  split ","%char
        (return_checked [new_checkbutton "All";
                         {| text := "user.name"; selected := true |};
                         {| text := "age"; selected := false |};
                         {| text := "ts"; selected := true |}])
  = ["user.name"; "ts"].
Proof.
  refine (proj1 (return_checked_split
                   [new_checkbutton "All";
                    {| text := "user.name"; selected := true |};
                    {| text := "age"; selected := false |};
                    {| text := "ts"; selected := true |}] _) _).
  - cbn. repeat constructor; intros H;
      repeat (destruct H as [H|H]; [discriminate|]); exact H.
  - discriminate.
Defined.

Lemma filter_deselect (l : list Checkbutton) :
  filter selected (map deselect l) = [].
Proof. induction l as [|c l IH]; [reflexivity | exact IH]. Qed.

(** X10: [uncheck_rest] keeps every caption; when the first button is
    selected it leaves no other button selected, so that nothing is returned
    as checked, and when it is not selected it changes nothing.  It fails
    exactly on an empty check list. *)
Theorem uncheck_rest_effect (slaves : list Checkbutton) :
  (uncheck_rest slaves = None <-> slaves = []) /\
  forall slaves',
    uncheck_rest slaves = Some slaves' ->
    map text slaves' = map text slaves /\
    map selected (firstn 1 slaves') = map selected (firstn 1 slaves) /\
    (map selected (firstn 1 slaves) = [true] ->
     Forall (fun c => selected c = false) (tl slaves') /\
     return_checked slaves' = EmptyString) /\
    (map selected (firstn 1 slaves) = [false] -> slaves' = slaves) /\
    uncheck_rest slaves' = Some slaves'.
Proof.
  split.
  - destruct slaves as [|first rest]; cbn [uncheck_rest].
    + split; reflexivity.
    + destruct (selected first); split; discriminate.
  - intros slaves'. destruct slaves as [|first rest]; [discriminate|].
    cbn [uncheck_rest]. destruct (selected first) eqn:Hf.
    + intros [= <-].
      assert (Htexts : map text (map deselect rest) = map text rest)
        by (rewrite map_map; reflexivity).
      assert (Hagain : map deselect (map deselect rest) = map deselect rest)
        by (rewrite map_map; reflexivity).
      split; [cbn [map]; now rewrite Htexts|].
      split; [reflexivity|].
      split.
      { intros _. split.
        - cbn [tl]. rewrite Forall_forall. intros c Hc. apply in_map_iff in Hc.
          destruct Hc as (c0 & <- & _). reflexivity.
        - unfold return_checked. cbn [tl]. now rewrite filter_deselect. }
      split.
      { cbn [firstn map]. rewrite Hf. discriminate. }
      cbn [uncheck_rest]. now rewrite Hf, Hagain.
    + intros [= <-].
      split; [reflexivity|]. split; [reflexivity|].
      split.
      { cbn [firstn map]. rewrite Hf. discriminate. }
      split; [reflexivity|].
      cbn [uncheck_rest]. now rewrite Hf.
Qed.

Lemma request_source search_term fields :
  exists doc,
    json_loads (ustr_of (request_builder search_term fields))
    = Some (widen (JDict doc)) /\
    dict_get doc "_source" = Some (JList (map JStr (split ","%char fields))) /\
    get (JDict doc) "size" = Ok (JInt 100) /\
    (q <- get (JDict doc) "query" ;; m <- get q "multi_match" ;; get m "query")
    = Ok (JStr search_term).
Proof.
  eexists. rewrite request_builder_loads, request_body_shape.
  repeat split; reflexivity.
Qed.

(** X11: what a search asks for.  With the first field button selected
    the request asks for the source fields [["*"]], whatever else is checked;
    otherwise it asks for exactly the checked captions (when one is checked
    and none holds a comma), and for one empty field name when nothing is
    checked.  The url addresses [_all] or the comma-joined checked indices,
    and the query is the search term.  An empty check list on either side
    fails. *)
Theorem search_request_asks (iall fall : Checkbutton)
        (irest frest : list Checkbutton) (term : string) :
  search_request [] (fall :: frest) term = None /\
  search_request (iall :: irest) [] term = None /\
  exists url body doc,
    search_request (iall :: irest) (fall :: frest) term = Some (url, body) /\
    json_loads (ustr_of body) = Some (widen (JDict doc)) /\
    (q <- get (JDict doc) "query" ;; m <- get q "multi_match" ;; get m "query")
    = Ok (JStr term) /\
    (selected iall = true -> url = "/_all/_search") /\
    (selected iall = false ->
     url = "/" ++ join "," (map text (filter selected irest)) ++ "/_search") /\
    (selected fall = true -> dict_get doc "_source" = Some (JList [JStr "*"])) /\
    (selected fall = false -> filter selected frest = [] ->
     dict_get doc "_source" = Some (JList [JStr ""])) /\
    (selected fall = false -> filter selected frest <> [] ->
     Forall (fun w => ~ In ","%char (list_ascii_of_string w))
            (map text (filter selected frest)) ->
     dict_get doc "_source"
     = Some (JList (map JStr (map text (filter selected frest))))).
Proof.
  split; [reflexivity|]. split; [reflexivity|].
  unfold search_request, selection.
  set (f := if selected fall then "*" else return_checked (fall :: frest)).
  destruct (request_source term f) as (doc & Hl & Hs & _ & Hq).
  eexists. eexists. exists doc.
  split; [reflexivity|]. split; [exact Hl|]. split; [exact Hq|].
  repeat split.
  - intros ->. reflexivity.
  - intros ->. reflexivity.
  - intros Hf. rewrite Hs. unfold f. now rewrite Hf.
  - intros Hf Hnone. rewrite Hs. unfold f, return_checked.
    rewrite Hf. cbn [tl]. now rewrite Hnone.
  - intros Hf Hsome Hall. rewrite Hs. unfold f, return_checked.
    rewrite Hf. cbn [tl]. rewrite split_join; [reflexivity | | exact Hall].
    destruct (filter selected frest); [contradiction | discriminate].
Qed.

(** ** The index and field check lists *)

Lemma index_entries_loop (ks : list string) : forall slaves,
  for_each (map JStr ks) index_entry_step slaves
  = Ok (slaves
        ++ map new_checkbutton
               (filter (fun k => negb (String.prefix "." k)) ks))%list.
Proof.
  induction ks as [|k ks IH]; intros slaves; cbn [map for_each filter].
  - now rewrite app_nil_r.
  - unfold index_entry_step at 1. cbn [startswith bind].
    destruct (String.prefix "." k); cbn [negb bind].
    + apply IH.
    + rewrite IH. cbn [map]. now rewrite <- app_assoc.
Qed.

(** X12: the index check list.  For a mapping response [get_index_names]
    returns, and leaves [All] followed by one unselected button for each key
    that does not begin with a dot, in the order of the response. *)
Theorem get_index_names_lists (d : dict json) :
  get_index_names (JDict d)
  = Ok (new_checkbutton "All"
        :: map new_checkbutton
               (filter (fun k => negb (String.prefix "." k)) (dict_keys d))) /\
  (forall k, In k (dict_keys d) -> String.prefix "." k = false ->
     In (new_checkbutton k)
        (map new_checkbutton
             (filter (fun k => negb (String.prefix "." k)) (dict_keys d)))) /\
  Forall (fun k => String.prefix "." k = false)
         (filter (fun k => negb (String.prefix "." k)) (dict_keys d)).
Proof.
  repeat split.
  - unfold get_index_names, index_listing. cbn [iter bind].
    now rewrite index_entries_loop.
  - intros k Hk Hdot. apply in_map. apply filter_In. split; [exact Hk|].
    now rewrite Hdot.
  - rewrite Forall_forall. intros k Hk. apply filter_In in Hk.
    destruct Hk as [_ Hk]. now apply negb_true_iff.
Qed.

Lemma index_entry_step_raises slaves entry e :
  index_entry_step slaves entry = Raise e ->
  e = AttributeError /\ (forall s, entry <> JStr s).
Proof.
  unfold index_entry_step. destruct entry; cbn [startswith bind];
    try (intros [= <-]; split; [reflexivity | discriminate]).
  destruct (String.prefix "." s); discriminate.
Qed.

Lemma for_each_raise_cause {A S : Type} (body : S -> A -> result S)
      (xs : list A) : forall s e,
  for_each xs body s = Raise e ->
  exists x s', In x xs /\ body s' x = Raise e.
Proof.
  induction xs as [|x xs IH]; intros s e; [discriminate|].
  cbn [for_each]. destruct (body s x) as [s'|e'] eqn:E; cbn [bind].
  - intros H. destruct (IH _ _ H) as (y & s0 & Hy & Hb).
    exists y, s0. split; [now right | exact Hb].
  - intros [= <-]. exists x, s. split; [now left | exact E].
Qed.

(** X13: the two ways the loop over a loaded alias listing fails.  Once
    the response is loaded, [list(requestjson)] and the loop of
    [get_index_names] over it raise [TypeError] when the response is not
    iterable ([null], a boolean, a number) and [AttributeError] when it is a
    list holding something other than a string; on a loaded response they
    raise nothing else.  The connection and [json.loads] come before and are
    not part of this. *)
Theorem get_index_names_raises (requestjson : json) (e : exn) :
  get_index_names requestjson = Raise e ->
  (e = TypeError /\
   (requestjson = JNull \/ (exists b, requestjson = JBool b) \/
    (exists z, requestjson = JInt z))) \/
  (e = AttributeError /\
   exists l v, requestjson = JList l /\ In v l /\ forall s, v <> JStr s).
Proof.
  unfold get_index_names, index_listing.
  destruct requestjson as [|b|z|s|l|d]; cbn [iter bind].
  - intros [= <-]. left. auto.
  - intros [= <-]. left. split; [reflexivity|]. right; left. now exists b.
  - intros [= <-]. left. split; [reflexivity|]. right; right. now exists z.
  - intros H. exfalso.
    destruct (for_each_raise_cause _ _ _ _ H) as (x & s' & Hx & Hb).
    apply in_map_iff in Hx. destruct Hx as (c & <- & _).
    apply index_entry_step_raises in Hb. destruct Hb as [_ Hb].
    now apply (Hb (String c "")).
  - intros H. right.
    destruct (for_each_raise_cause _ _ _ _ H) as (x & s' & Hx & Hb).
    apply index_entry_step_raises in Hb. destruct Hb as [-> Hb].
    split; [reflexivity|]. now exists l, x.
  - rewrite index_entries_loop. discriminate.
Qed.

Lemma get_index_names_raises_witness :
  (AttributeError = TypeError /\
   (JList [JStr "logs"; JInt 7] = JNull \/
    (exists b, JList [JStr "logs"; JInt 7] = JBool b) \/
    (exists z, JList [JStr "logs"; JInt 7] = JInt z))) \/
  (AttributeError = AttributeError /\
   exists l v, JList [JStr "logs"; JInt 7] = JList l /\ In v l /\
               forall s, v <> JStr s).
Proof.
  apply (get_index_names_raises (JList [JStr "logs"; JInt 7]) AttributeError).
  reflexivity.
Defined.

Lemma field_entry_box_text entry : field_entry_box entry = new_checkbutton entry.
Proof. unfold field_entry_box. now destruct (String.prefix "@" entry). Qed.

(** X14: the field check list shows the field paths as they are.  When
    the schema flattening returns, [get_field_names] leaves [All] followed by
    one unselected button per path, in order, a leading [@] included; when
    the flattening raises, so does [get_field_names]. *)
Theorem get_field_names_labels (requestjson : json) :
  (forall maplist,
     index_field_names requestjson = Ok maplist ->
     exists slaves,
       get_field_names requestjson = Ok slaves /\
       map text slaves = "All" :: maplist /\
       Forall (fun c => selected c = false) slaves) /\
  (forall e,
     index_field_names requestjson = Raise e ->
     get_field_names requestjson = Raise e).
Proof.
  unfold get_field_names. split.
  - intros maplist ->. cbn [bind]. eexists. split; [reflexivity|]. split.
    + cbn [map text new_checkbutton]. f_equal. rewrite map_map.
      rewrite <- (map_id maplist) at 2. apply map_ext.
      intros a. now rewrite field_entry_box_text.
    + constructor; [reflexivity|]. rewrite Forall_forall. intros c Hc.
      apply in_map_iff in Hc. destruct Hc as (a & <- & _).
      now rewrite field_entry_box_text.
  - intros e ->. reflexivity.
Qed.

(** ** The console entry *)

(** X15: [send_input] holds back the one line [exit()] and nothing else.
    On [exit()] [push] is not called and the entry keeps its text.  Every
    other line, [quit()] included, is handed to [console.push]: when [push]
    returns, the buffer is reset and the entry emptied; when [push] raises
    [SystemExit], as the console does for [quit()], the exception leaves
    [send_input] and the entry is not emptied. *)
Theorem send_input_guard (Console : Type)
        (push : Console -> string -> option Console)
        (resetbuffer : Console -> Console) (st : Session Console) :
  (entry st = "exit()" ->
   forall push' : Console -> string -> option Console,
     send_input push' resetbuffer st
     = Some {| console := console st; entry := "exit()"; input := "exit()" |}) /\
  (entry st <> "exit()" ->
   send_input push resetbuffer st
   = match push (console st) (entry st) with
     | Some c =>
         Some {| console := resetbuffer c; entry := EmptyString;
                 input := entry st |}
     | None => None
     end) /\
  (entry st = "quit()" -> push (console st) "quit()" = None ->
   send_input push resetbuffer st = None).
Proof.
  unfold send_input. cbn [py_or console entry input]. repeat split.
  - intros -> push'. reflexivity.
  - intros Hne. apply String.eqb_neq in Hne. now rewrite Hne.
  - intros -> Hq. cbn. now rewrite Hq.
Qed.

(** ** More on the flattened hit *)

Lemma dict_set_nodup {V : Type} (d : dict V) k v :
  NoDup (dict_keys d) -> NoDup (dict_keys (dict_set d k v)).
Proof.
  intros Hnd. destruct (in_dec string_dec k (dict_keys d)) as [Hin|Hnin].
  - now rewrite dict_keys_set_known.
  - rewrite dict_set_fresh by exact Hnin. unfold dict_keys in *.
    rewrite map_app. cbn [map fst].
    apply NoDup_app; [exact Hnd | repeat constructor; intros [] | ].
    intros x Hx [<-|[]]. contradiction.
Qed.

Lemma dict_update_nodup {V : Type} (l : list (string * V)) : forall d,
  NoDup (dict_keys d) -> NoDup (dict_keys (dict_update d l)).
Proof.
  induction l as [|[k v] l IH]; intros d Hnd; [exact Hnd|].
  apply (IH (dict_set d k v)). now apply dict_set_nodup.
Qed.

Lemma dict_set_keys_in {V : Type} (d : dict V) k v k' :
  In k' (dict_keys (dict_set d k v)) <-> In k' (dict_keys d) \/ k' = k.
Proof.
  destruct (in_dec string_dec k (dict_keys d)) as [Hin|Hnin].
  - rewrite dict_keys_set_known by exact Hin. split; [now left|].
    intros [H| ->]; assumption.
  - rewrite dict_set_fresh by exact Hnin. unfold dict_keys.
    rewrite map_app, in_app_iff. cbn [map fst In]. intuition.
Qed.

Lemma dict_update_keys_in {V : Type} (l : list (string * V)) : forall d k,
  In k (dict_keys (dict_update d l)) <-> In k (dict_keys d) \/ In k (map fst l).
Proof.
  induction l as [|[k0 v0] l IH]; intros d k.
  - cbn. intuition.
  - change (dict_update d ((k0, v0) :: l)) with (dict_update (dict_set d k0 v0) l).
    rewrite IH, dict_set_keys_in. cbn [map fst In]. intuition.
Qed.

Lemma dict_get_app {V : Type} (d1 d2 : dict V) k :
  dict_get (d1 ++ d2)%list k
  = match dict_get d1 k with
    | Some v => Some v
    | None => dict_get d2 k
    end.
Proof.
  induction d1 as [|[k0 v0] d1 IH]; [reflexivity|].
  cbn [app dict_get]. destruct (String.eqb k0 k); [reflexivity | exact IH].
Qed.

(** Looking a key up after a run of assignments finds the last value
    assigned to it. *)
Lemma dict_get_update {V : Type} (l : list (string * V)) : forall d k,
  dict_get (dict_update d l) k
  = match dict_get (rev l) k with
    | Some v => Some v
    | None => dict_get d k
    end.
Proof.
  induction l as [|[k0 v0] l IH]; intros d k; [reflexivity|].
  change (dict_update d ((k0, v0) :: l)) with (dict_update (dict_set d k0 v0) l).
  rewrite IH. cbn [rev]. rewrite dict_get_app.
  destruct (dict_get (rev l) k); [reflexivity|].
  cbn [dict_get]. destruct (String.eqb_spec k0 k) as [->|Hne].
  - apply dict_get_set_same.
  - apply dict_get_set_other. congruence.
Qed.

(** X16: a flattened hit has no key twice, whatever the hit, and its keys
    are exactly the dotted paths the walk wrote. *)
Theorem flatten_hit_distinct_keys (source : dict json) :
  NoDup (dict_keys (flatten_hit source)) /\
  forall k, In k (dict_keys (flatten_hit source))
            <-> In k (map fst (items_hit source)).
Proof.
  rewrite flatten_hit_items. split.
  - apply dict_update_nodup. constructor.
  - intros k. rewrite dict_update_keys_in. cbn. intuition.
Qed.

(** X17: colliding paths are settled by the last write.  The value found
    under a path is the one written last for it; so a dotted top-level key
    and a nested field with the same path leave one entry, at the place of
    the first and with the value of the second. *)
Theorem flatten_hit_last_write_wins (source : dict json) (k : string) :
  dict_get (flatten_hit source) k = dict_get (rev (items_hit source)) k /\
  forall a b x y,
    is_dict x = false -> is_dict y = false ->
    flatten_hit [(a ++ "." ++ b, x); (a, JDict [(b, y)])] = [(a ++ "." ++ b, y)] /\
    flatten_hit [(a, JDict [(b, y)]); (a ++ "." ++ b, x)] = [(a ++ "." ++ b, x)].
Proof.
  split.
  - rewrite flatten_hit_items, dict_get_update.
    now destruct (dict_get (rev (items_hit source)) k).
  - intros a b x y Hx Hy. split.
    + rewrite flatten_hit_items. unfold items_hit, items_sf. cbn [flat_map fst snd].
      destruct x; try discriminate; destruct y; try discriminate;
        cbn [app dict_update fold_left dict_set fst snd];
        now rewrite String.eqb_refl.
    + rewrite flatten_hit_items. unfold items_hit, items_sf. cbn [flat_map fst snd].
      destruct x; try discriminate; destruct y; try discriminate;
        cbn [app dict_update fold_left dict_set fst snd];
        now rewrite String.eqb_refl.
Qed.

Lemma items_hit_app s1 s2 :
  items_hit (s1 ++ s2)%list = (items_hit s1 ++ items_hit s2)%list.
Proof. unfold items_hit. apply flat_map_app. Qed.

Lemma items_sf_hollow f d :
  forallb (fun kv => match snd kv with
                     | JDict [] => true
                     | _ => false
                     end) d = true ->
  items_sf f d = [].
Proof.
  unfold items_sf. induction d as [|[sf v] d IH]; [reflexivity|].
  cbn [forallb flat_map fst snd]. intros H. apply andb_true_iff in H.
  destruct H as [Hv Hd]. rewrite (IH Hd).
  destruct v as [| | | | |[|? ?]]; try discriminate. reflexivity.
Qed.

(** X18: a field that holds an empty mapping, or a mapping of empty
    mappings, leaves no trace: the hit flattens as if the field were not
    there. *)
Theorem flatten_hit_drops_hollow (before after : dict json) (f : string)
        (v : json) :
  hollow v = true ->
  flatten_hit (before ++ (f, v) :: after)%list
  = flatten_hit (before ++ after)%list /\
  ~ In f (dict_keys (flatten_hit [(f, v)])).
Proof.
  intros Hv.
  assert (E : items_hit [(f, v)] = []).
  { unfold items_hit. cbn [flat_map fst snd]. rewrite app_nil_r.
    destruct v; try discriminate. now apply items_sf_hollow. }
  split.
  - rewrite !flatten_hit_items.
    change ((f, v) :: after) with ([(f, v)] ++ after)%list.
    now rewrite !items_hit_app, E.
  - rewrite flatten_hit_items, E. intros [].
Qed.

Lemma flatten_hit_drops_hollow_witness :
  flatten_hit ([("ts", JStr "2020")]
               ++ ("geo", JDict [("point", JDict [])]) :: [("n", JInt 1)])%list
  = flatten_hit ([("ts", JStr "2020")] ++ [("n", JInt 1)])%list.
Proof.
  refine (proj1 (flatten_hit_drops_hollow
                   [("ts", JStr "2020")] [("n", JInt 1)]
                   "geo" (JDict [("point", JDict [])]) _)).
  reflexivity.
Defined.

(** ** More on the projected table *)

Lemma for_each_invariant {A S : Type} (P : S -> Prop) (body : S -> A -> result S)
      (xs : list A) :
  (forall s x s', P s -> body s x = Ok s' -> P s') ->
  forall s0 s, P s0 -> for_each xs body s0 = Ok s -> P s.
Proof.
  intros Hb. induction xs as [|x xs IH]; intros s0 s H0; cbn [for_each].
  - now intros [= <-].
  - destruct (body s0 x) as [s1|e] eqn:E; cbn [bind]; [|discriminate].
    apply IH. now apply (Hb s0 x).
Qed.

Lemma existsb_eqb_in (k : string) (l : list string) :
  existsb (String.eqb k) l = true <-> In k l.
Proof.
  rewrite existsb_exists. split.
  - intros (x & Hx & E). apply String.eqb_eq in E. now subst.
  - intros H. exists k. split; [exact H | apply String.eqb_refl].
Qed.

Lemma new_labels_in (cols ks : list string) k :
  In k (mergesort_t String.ltb
          (filter (fun k => negb (existsb (String.eqb k) cols)) ks))
  <-> In k ks /\ ~ In k cols.
Proof.
  split.
  - intros H. apply (Permutation_in _ (mergesort_t_perm _ _)) in H.
    apply filter_In in H. destruct H as [H1 H2]. split; [exact H1|].
    apply negb_true_iff in H2. intros Hin.
    apply existsb_eqb_in in Hin. congruence.
  - intros [H1 H2].
    apply (Permutation_in _ (Permutation_sym (mergesort_t_perm _ _))).
    apply filter_In. split; [exact H1|]. apply negb_true_iff.
    destruct (existsb (String.eqb k) cols) eqn:E; [|reflexivity].
    apply existsb_eqb_in in E. contradiction.
Qed.

Lemma append_table_ok (df : DataFrame) (other : dict json) :
  table_ok df -> NoDup (dict_keys other) -> table_ok (append df other).
Proof.
  intros (Hnd & Hrows & Hsub & Hsup) Hother. unfold table_ok, append.
  cbn [columns rows]. repeat split.
  - apply NoDup_app.
    + exact Hnd.
    + apply (Permutation_NoDup (Permutation_sym (mergesort_t_perm _ _))).
      now apply NoDup_filter.
    + intros k Hk Hk'. apply new_labels_in in Hk'. now destruct Hk'.
  - apply Forall_app. split; [exact Hrows | now repeat constructor].
  - intros row k Hrow Hk. apply in_or_app. apply in_app_or in Hrow.
    destruct Hrow as [Hrow|[<-|[]]].
    + left. now apply (Hsub row).
    + destruct (in_dec string_dec k (columns df)) as [Hin|Hnin];
        [now left | right]. now apply new_labels_in.
  - intros c Hc. apply in_app_or in Hc. destruct Hc as [Hc|Hc].
    + destruct (Hsup c Hc) as (row & Hrow & Hk). exists row. split; [|exact Hk].
      apply in_or_app. now left.
    + apply new_labels_in in Hc. destruct Hc as [Hc _]. exists other.
      split; [|exact Hc]. apply in_or_app. right. now left.
Qed.

Lemma hit_row_nodup hit hitdict :
  hit_row hit = Ok hitdict -> NoDup (dict_keys hitdict).
Proof.
  unfold hit_row. destruct (pop hit "_source") as [source|e]; cbn [bind];
    [|discriminate].
  destruct (items source) as [its|e]; cbn [bind]; [|discriminate].
  intros [= <-]. rewrite flatten_hit_items. apply dict_update_nodup. constructor.
Qed.

(** X19: the columns of a search result are what its rows hold.  Whenever
    the projection returns, the table has no column twice and no row with a
    key twice, every key of every row is a column, and every column is a key
    of some row. *)
Theorem simple_query_search_table_ok (requestjson : json) (df : DataFrame) :
  simple_query_search requestjson = Ok df -> table_ok df.
Proof.
  unfold simple_query_search.
  destruct (response_hits requestjson) as [hits|e]; cbn [bind]; [|discriminate].
  apply (for_each_invariant table_ok hit_step hits).
  - intros s hit s' Hs. unfold hit_step.
    destruct (hit_row hit) as [hitdict|e] eqn:E; cbn [bind]; [|discriminate].
    intros [= <-]. apply append_table_ok; [exact Hs|].
    now apply (hit_row_nodup hit).
  - unfold table_ok, DataFrame_empty. cbn [columns rows].
    repeat split; try constructor; intros; contradiction.
Qed.

Lemma simple_query_search_table_ok_witness :
  exists df, simple_query_search two_hits = Ok df /\ table_ok df.
Proof.
  eexists. split; [reflexivity|].
  apply (simple_query_search_table_ok two_hits). reflexivity.
Defined.

Lemma hit_loop_first_failure (good : list json) : forall bad rest e results,
  Forall (fun hit => exists hitdict, hit_row hit = Ok hitdict) good ->
  hit_row bad = Raise e ->
  for_each (good ++ bad :: rest) hit_step results = Raise e.
Proof.
  induction good as [|hit good IH]; intros bad rest e results Hgood Hbad.
  - cbn [app for_each]. unfold hit_step. now rewrite Hbad.
  - inversion Hgood as [|? ? [hitdict Hrow] Hgood']; subst.
    cbn [app for_each]. unfold hit_step at 1. rewrite Hrow. cbn [bind].
    now apply IH.
Qed.

(** X20: a search fails as a whole.  The first hit that cannot be read
    decides the outcome: the search raises what reading that hit raises
    ([KeyError] for a hit without [_source]) and returns no table for the
    hits before it; a response without [hits] raises [KeyError]. *)
Theorem simple_query_search_fails_whole (requestjson : json)
        (good rest : list json) (bad : json) (e : exn) :
  response_hits requestjson = Ok (good ++ bad :: rest)%list ->
  Forall (fun hit => exists hitdict, hit_row hit = Ok hitdict) good ->
  hit_row bad = Raise e ->
  simple_query_search requestjson = Raise e /\
  (forall h, dict_get h "_source" = None -> hit_row (JDict h) = Raise KeyError) /\
  (forall d, dict_get d "hits" = None ->
     simple_query_search (JDict d) = Raise KeyError).
Proof.
  intros Hhits Hgood Hbad. repeat split.
  - unfold simple_query_search. rewrite Hhits. cbn [bind].
    now apply hit_loop_first_failure.
  - intros h Hh. unfold hit_row. cbn [pop]. now rewrite Hh.
  - intros d Hd. unfold simple_query_search, response_hits. cbn [pop].
    now rewrite Hd.
Qed.

Lemma simple_query_search_fails_whole_witness :
  simple_query_search
    (JDict [("hits", JDict [("hits", JList
       [JDict [("_source", JDict [("ts", JStr "2020")])];
        JDict [("_id", JStr "2")];
        JDict [("_source", JDict [("ts", JStr "2021")])]])])])
  = Raise KeyError.
Proof.
  refine (proj1 (simple_query_search_fails_whole
                   (JDict [("hits", JDict [("hits", JList
                      [JDict [("_source", JDict [("ts", JStr "2020")])];
                       JDict [("_id", JStr "2")];
                       JDict [("_source", JDict [("ts", JStr "2021")])]])])])
                   [JDict [("_source", JDict [("ts", JStr "2020")])]]
                   [JDict [("_source", JDict [("ts", JStr "2021")])]]
                   (JDict [("_id", JStr "2")]) KeyError _ _ _)).
  - reflexivity.
  - repeat constructor. eexists. reflexivity.
  - reflexivity.
Defined.

(** ** More on the schema paths *)

Lemma field_paths_in f fv path :
  In path (field_paths f fv) <->
  ((forall sub, dict_get fv "properties" <> Some (JDict sub)) /\ path = f) \/
  (exists sub sf,
      dict_get fv "properties" = Some (JDict sub) /\
      In sf (dict_keys sub) /\ path = f ++ "." ++ sf).
Proof.
  unfold field_paths.
  destruct (dict_get fv "properties") as [[| | | | |sub]|].
  all: try (split;
            [ intros [<-|[]]; left; split; [discriminate | reflexivity]
            | intros [[_ ->]|(sub & sf & H & _)];
              [now left | discriminate] ]).
  split.
  - intros H. apply in_map_iff in H. destruct H as (sf & <- & Hsf).
    right. now exists sub, sf.
  - intros [[H _]|(sub' & sf & [= <-] & Hsf & ->)].
    + exfalso. now apply (H sub).
    + apply in_map_iff. now exists sf.
Qed.

(** X21: what the field list holds.  For a schema response of the
    expected shape a path is returned exactly when some index declares a
    field [f] that either has no nested properties and is the path itself, or
    has nested properties one of whose names [sf] gives the path [f.sf].
    Nothing is read below that second level: what a nested name maps to never
    matters, and a field whose nested properties are empty gives no path. *)
Theorem index_field_names_paths (schema : dict json) (path : string) :
  schema_ok schema ->
  index_field_names (JDict schema) = Ok (schema_paths schema) /\
  (In path (schema_paths schema) <->
   exists key entry properties f fv,
     In (key, entry) schema /\
     entry_properties entry = Some properties /\
     In (f, JDict fv) properties /\
     (((forall sub, dict_get fv "properties" <> Some (JDict sub)) /\ path = f) \/
      (exists sub sf,
          dict_get fv "properties" = Some (JDict sub) /\
          In sf (dict_keys sub) /\ path = f ++ "." ++ sf))).
Proof.
  intros [Hnd Hok]. split.
  - unfold index_field_names. cbn [keys bind].
    apply (index_loop_ok schema Hnd schema (incl_refl _) Hok []).
  - unfold schema_paths. rewrite in_flat_map. split.
    + intros ([key entry] & Hin & Hp). cbn [snd] in Hp.
      destruct (entry_properties entry) as [properties|] eqn:Ep; [|destruct Hp].
      unfold index_paths in Hp. rewrite in_flat_map in Hp.
      destruct Hp as ([f v] & Hf & Hp). cbn [fst snd] in Hp.
      destruct v; try (now destruct Hp).
      exists key, entry, properties, f, d. repeat split; auto.
      now apply field_paths_in.
    + intros (key & entry & properties & f & fv & Hin & Ep & Hf & Hp).
      exists (key, entry). split; [exact Hin|]. cbn [snd]. rewrite Ep.
      unfold index_paths. rewrite in_flat_map. exists (f, JDict fv).
      split; [exact Hf|]. cbn [fst snd]. now apply field_paths_in.
Qed.

Lemma index_field_names_paths_witness :
  index_field_names (JDict two_indices) = Ok (schema_paths two_indices).
Proof.
  exact (proj1 (index_field_names_paths two_indices "ts" two_indices_ok)).
Defined.

(** ** More on the request body *)

Lemma all_chars_app p a b :
  all_chars p (a ++ b) = all_chars p a && all_chars p b.
Proof.
  induction a as [|c a IH]; [reflexivity|].
  cbn [String.append all_chars]. now rewrite IH, andb_assoc.
Qed.

Lemma escape_char_printable c : all_chars printable (escape_char c) = true.
Proof. each_char c; reflexivity. Qed.

Lemma escape_printable s : all_chars printable (escape s) = true.
Proof.
  induction s as [|c s IH]; [reflexivity|].
  cbn [escape]. now rewrite all_chars_app, escape_char_printable, IH.
Qed.

Lemma encode_printable s :
  all_chars printable (encode_basestring_ascii s) = true.
Proof.
  unfold encode_basestring_ascii. cbn [all_chars].
  rewrite all_chars_app, escape_printable. reflexivity.
Qed.

Lemma uint_printable d :
  all_chars printable (DecimalString.NilEmpty.string_of_uint d) = true.
Proof.
  induction d; cbn [DecimalString.NilEmpty.string_of_uint all_chars];
    try reflexivity; rewrite IHd; reflexivity.
Qed.

Lemma int_printable z : all_chars printable (json_dumps (JInt z)) = true.
Proof.
  cbn [json_dumps]. destruct z as [|p|p]; [reflexivity | |];
    cbn [Z.to_int DecimalString.NilZero.string_of_int all_chars];
    destruct (Pos.to_uint p) eqn:E; try reflexivity;
    unfold DecimalString.NilZero.string_of_uint; rewrite <- ?E;
    try (rewrite E); try apply uint_printable;
    try (cbn [all_chars]; rewrite uint_printable; reflexivity).
Qed.

Lemma join_printable (l : list string) :
  Forall (fun w => all_chars printable w = true) l ->
  all_chars printable (join ", " l) = true.
Proof.
  induction l as [|w l IH]; intros Hall; [reflexivity|].
  inversion Hall as [|? ? Hw Hl]; subst. destruct l as [|y l'].
  - exact Hw.
  - rewrite join_cons_cons, !all_chars_app, Hw, (IH Hl). reflexivity.
Qed.

(** Whatever the value, [json_dumps] writes printable ASCII only. *)
Lemma json_dumps_printable (v : json) : all_chars printable (json_dumps v) = true.
Proof.
  induction v using json_induction.
  - reflexivity.
  - now destruct b.
  - apply int_printable.
  - apply encode_printable.
  - rewrite json_dumps_list, !all_chars_app, join_printable; [reflexivity|].
    rewrite Forall_forall in *. intros w Hw. apply in_map_iff in Hw.
    destruct Hw as (x & <- & Hx). now apply H.
  - rewrite json_dumps_dict, !all_chars_app, join_printable; [reflexivity|].
    rewrite Forall_forall in *. intros w Hw. apply in_map_iff in Hw.
    destruct Hw as ([k x] & <- & Hx). unfold pair_text. cbn [fst snd].
    pose proof (H (k, x) Hx) as Hk. cbn [snd] in Hk.
    rewrite !all_chars_app, encode_printable, Hk. reflexivity.
Qed.

(** X22: the request body is printable ASCII.  Whatever characters the
    search term and the field names hold (quotes, backslashes, control
    characters, characters above 127), every character of the text
    [request_builder] returns lies between the space and the tilde. *)
Theorem request_builder_printable (search_term fields : string) :
  all_chars printable (request_builder search_term fields) = true.
Proof. apply json_dumps_printable. Qed.

(** X23: the request body tells the search apart, surrogate pairs aside.
    Two calls of [request_builder] on strings that hold no high surrogate
    directly followed by a low one return the same text only for the same
    search term and the same field string; a pair and the character it
    encodes do give the same text. *)
Theorem request_builder_injective (search_term fields search_term' fields' : ustr) :
  valid_str search_term = true -> valid_str fields = true ->
  valid_str search_term' = true -> valid_str fields' = true ->
  has_pair search_term = false -> has_pair fields = false ->
  has_pair search_term' = false -> has_pair fields' = false ->
  (urequest_builder search_term fields = urequest_builder search_term' fields' ->
   search_term = search_term' /\ fields = fields') /\
  urequest_builder grin_pair fields = urequest_builder grin fields.
Proof.
  intros V1 V2 V3 V4 P1 P2 P3 P4. split; [|reflexivity].
  intros H. apply (f_equal json_loads) in H.
  rewrite !urequest_builder_loads in H by assumption.
  rewrite !join_pairs_free in H by assumption.
  rewrite !map_join_pairs_free in H by now apply usplit_pair_free.
  injection H as Hs Hq. split; [exact Hq|].
  rewrite <- (ujoin_usplit 44 fields), <- (ujoin_usplit 44 fields').
  f_equal. revert Hs. generalize (usplit 44 fields) (usplit 44 fields').
  induction l as [|x l IH]; intros [|y l']; try discriminate; [reflexivity|].
  cbn [map]. intros [= -> Hl]. f_equal. now apply IH.
Qed.

Lemma request_builder_injective_witness :
  ustr_of "error" = ustr_of "error" /\ ustr_of "a,b" = ustr_of "a,b".
Proof.
  apply (proj1 (request_builder_injective
                  (ustr_of "error") (ustr_of "a,b") (ustr_of "error") (ustr_of "a,b")
                  eq_refl eq_refl eq_refl eq_refl eq_refl eq_refl eq_refl eq_refl)).
  reflexivity.
Defined.
